(** * The SNEX JIT register pool: value handles and their allocator

    A shallow embedding of [snex::jit::AssemblyRegister] and
    [snex::jit::AssemblyRegisterPool] (the register-allocation and
    value-materialisation layer of the SNEX JIT backend), together with
    the properties of the handle state machine, of dirty-global tracking,
    of symbol resolution, of memory coalescing and of retirement. Two
    data structures of the host, the delay line of the delayed renderer
    ([CircularAudioSampleBuffer]) and the MIDI learn table
    ([MidiControllerAutomationHandler]), follow with their own properties.

    Conventions of the embedding:
    - every C++ object that is shared through a [Ptr] lives in a store
      ([objects], a finite map from addresses to handles); the pool holds
      addresses, so aliasing is explicit;
    - the instruction emitter ([asmjit::X86Compiler]) is an explicit state
      that hands out virtual registers and records emitted instructions;
    - [jassert] does not alter control flow (it is compiled out of release
      builds and only logs otherwise), so asserted conditions appear as
      separate predicates and as hypotheses of the theorems that need them;
    - the sources are taken with [REMOVE_REUSABLE_REG] switched off: the
      helpers the guarded blocks call are declared elsewhere. *)

From Stdlib Require Import ZArith List Bool Lia.
From stdpp Require Import base option list sorting gmap strings.

Open Scope Z_scope.

(* ===================================================================== *)
(** ** Types *)
(* ===================================================================== *)

Module Types.
(** [snex::Types::ID], restricted to the enumerators the sources name. *)
Inductive ID := Pointer | Float | Double | Integer | Block | Dynamic.

Definition eqb (a b : ID) : bool :=
  match a, b with
  | Pointer, Pointer | Float, Float | Double, Double
  | Integer, Integer | Block, Block | Dynamic, Dynamic => true
  | _, _ => false
  end.

End Types.

(** [snex::jit::TypeInfo]: a native type, a span (the only complex type
    the sources inspect, through [getTypedIfComplexType<SpanType>]) or any
    other complex type. *)
Inductive TypeInfo :=
| NativeType (t : Types.ID)
| SpanType (elementType : TypeInfo) (numElements : nat)
| ComplexType (name : string).

Fixpoint TypeInfo_eqb (a b : TypeInfo) : bool :=
  match a, b with
  | NativeType x, NativeType y => Types.eqb x y
  | SpanType e n, SpanType e' n' => TypeInfo_eqb e e' && Nat.eqb n n'
  | ComplexType x, ComplexType y => String.eqb x y
  | _, _ => false
  end.

(** The part of [BaseCompiler] the handles consult. *)
Record BaseCompiler := {
  getRegisterType : TypeInfo -> Types.ID;
  (** [getOptimizations().contains(OptimizationIds::AutoVectorisation)] *)
  autoVectorisation : bool
}.

(* ===================================================================== *)
(** ** Symbols and scopes *)
(* ===================================================================== *)

(** A namespaced identifier is the path of names leading to the symbol;
    the empty path is the invalid identifier. *)
Definition NamespacedIdentifier := list string.

Definition NamespacedIdentifier_eqb (a b : NamespacedIdentifier) : bool :=
  bool_decide (a = b).

Module Symbol.
Record t := {
  id : NamespacedIdentifier;
  typeInfo : TypeInfo;
  const_ : bool;
  reference_ : bool
}.

(** Modelled from the spec: [Symbol]'s operators are declared outside the
    sources at hand. Section 3 of the specification has two symbols equal
    iff identifier and scope match; both are carried by the namespaced
    identifier, so [operator==] compares [id] only, and [operator bool]
    tells whether the identifier is valid. *)
Definition eqb (a b : t) : bool := NamespacedIdentifier_eqb (id a) (id b).
Definition valid (s : t) : bool := negb (NamespacedIdentifier_eqb (id s) []).
Definition isReference (s : t) : bool := reference_ s.
Definition isConst (s : t) : bool := const_ s.

(** The default-constructed symbol of a handle that is not bound yet. *)
Definition empty : t :=
  {| id := []; typeInfo := NativeType Types.Dynamic;
     const_ := false; reference_ := false |}.
End Symbol.
Abbreviation Symbol := Symbol.t.

(** Scopes are addressed by their pointer. *)
Abbreviation BaseScope := nat (only parsing).

Inductive ScopeType := Global | OtherScope (tag : nat).

Definition ScopeType_isGlobal (s : ScopeType) : bool :=
  match s with Global => true | OtherScope _ => false end.

(** The scope resolver, an external collaborator: [getScopeForSymbol]
    returns [None] for [nullptr]; [rootDataContains root i] is
    [root->rootData->contains(i)]. *)
Record ScopeTree := {
  getScopeForSymbol : BaseScope -> NamespacedIdentifier -> option BaseScope;
  getRootClassScope : BaseScope -> BaseScope;
  getScopeType : BaseScope -> ScopeType;
  rootDataContains : BaseScope -> NamespacedIdentifier -> bool
}.

(* ===================================================================== *)
(** ** The code emitter *)
(* ===================================================================== *)

Module asmjit.
Inductive RegKind := Gpd | Gpq | XmmSs | XmmSd | XmmPs.

Record VirtReg := { regKind : RegKind; virtId : nat }.

(** [X86Reg]: [None] is the default-constructed, invalid register. *)
Definition X86Reg := option VirtReg.

Definition isValid (r : X86Reg) : bool :=
  match r with Some _ => true | None => false end.

(** [X86Mem]: operand size in bytes, a register base, a label base
    (constant pool) and a displacement. *)
Record X86Mem := {
  memSize : nat;
  memBase : option VirtReg;
  memLabel : option nat;
  memOffset : Z
}.

Definition noMem : X86Mem :=
  {| memSize := 0; memBase := None; memLabel := None; memOffset := 0 |}.
Definition qword_ptr (r : VirtReg) : X86Mem :=
  {| memSize := 8; memBase := Some r; memLabel := None; memOffset := 0 |}.
Definition dword_ptr (r : VirtReg) : X86Mem :=
  {| memSize := 4; memBase := Some r; memLabel := None; memOffset := 0 |}.
Definition qword_ptr_abs (a : Z) : X86Mem :=
  {| memSize := 8; memBase := None; memLabel := None; memOffset := a |}.

Definition hasOffset (m : X86Mem) : bool := negb (memOffset m =? 0).
Definition hasBaseOrIndex (m : X86Mem) : bool :=
  match memBase m, memLabel m with None, None => false | _, _ => true end.

Global Instance RegKind_eq_dec : EqDecision RegKind.
Proof. solve_decision. Defined.
Global Instance VirtReg_eq_dec : EqDecision VirtReg.
Proof. solve_decision. Defined.
Global Instance X86Mem_eq_dec : EqDecision X86Mem.
Proof. solve_decision. Defined.

Definition X86Mem_eqb (a b : X86Mem) : bool := bool_decide (a = b).

(** The instructions the handles emit. *)
Inductive Inst :=
| mov_ri (dst : X86Reg) (imm : Z)
| mov_rm (dst : X86Reg) (src : X86Mem)
| movss_rm (dst : X86Reg) (src : X86Mem)
| movsd_rm (dst : X86Reg) (src : X86Mem)
| movaps_rm (dst : X86Reg) (src : X86Mem)
| lea_rm (dst : X86Reg) (src : X86Mem).

(** The instructions that read their source operand from memory. *)
Definition isMemoryLoad (i : Inst) : bool :=
  match i with
  | mov_rm _ _ | movss_rm _ _ | movsd_rm _ _ | movaps_rm _ _ => true
  | mov_ri _ _ | lea_rm _ _ => false
  end.

(** [X86Compiler]: the next free virtual register, the local constant
    pool (size in bytes and bit pattern of each entry) and the
    instruction stream, oldest instruction first. *)
Record X86Compiler := {
  nextVirtId : nat;
  constPool : list (nat * Z);
  instructions : list Inst
}.

Definition empty : X86Compiler :=
  {| nextVirtId := 0; constPool := []; instructions := [] |}.

Definition newReg (k : RegKind) (cc : X86Compiler) : X86Compiler * VirtReg :=
  ({| nextVirtId := S (nextVirtId cc); constPool := constPool cc;
      instructions := instructions cc |},
   {| regKind := k; virtId := nextVirtId cc |}).

Definition newGpd := newReg Gpd.
Definition newGpq := newReg Gpq.
Definition newXmmSs := newReg XmmSs.
Definition newXmmSd := newReg XmmSd.
Definition newXmmPs := newReg XmmPs.

Definition newConst (size : nat) (bits : Z) (cc : X86Compiler)
  : X86Compiler * X86Mem :=
  ({| nextVirtId := nextVirtId cc;
      constPool := constPool cc ++ [(size, bits)];
      instructions := instructions cc |},
   {| memSize := size; memBase := None;
      memLabel := Some (length (constPool cc)); memOffset := 0 |}).

Definition newFloatConst := newConst 4.
Definition newDoubleConst := newConst 8.

Definition emit (i : Inst) (cc : X86Compiler) : X86Compiler :=
  {| nextVirtId := nextVirtId cc; constPool := constPool cc;
     instructions := instructions cc ++ [i] |}.

(** Number of memory loads in the instruction stream. *)
Definition loadCount (cc : X86Compiler) : nat :=
  length (filter (fun i => isMemoryLoad i = true) (instructions cc)).
End asmjit.
Import asmjit.

(** Conversion to [int], a 32-bit two's complement number: what the
    assignment of an [int64] to an [int] keeps of it, and what four bytes
    read as an [int] are. *)
Definition toInt (v : Z) : Z := (v + 2 ^ 31) mod 2 ^ 32 - 2 ^ 31.
Arguments toInt : simpl never.

(** The values of an [int]. *)
Definition isInt (v : Z) : Prop := - 2 ^ 31 <= v < 2 ^ 31.

(** The run-time data the handles point into ([memoryLocation] is a
    [void*], 0 being [nullptr]): the four bytes at an address as a number,
    the [float] and the [double] stored at an address (as their bit
    patterns) and the data pointer of the [VariableStorage] at an
    address. *)
Record DataMemory := {
  int_bits : Z -> Z;
  read_float : Z -> Z;
  read_double : Z -> Z;
  storage_getDataPointer : Z -> Z
}.

(** [*reinterpret_cast<int*>(p)]: the four bytes at [p], read as an
    [int]. *)
Definition read_int (d : DataMemory) (p : Z) : Z := toInt (int_bits d p).
Arguments read_int : simpl never.

(** [v == 0.0f] and [v == 0.0] on bit patterns: both signed zeros. *)
Definition float_is_zero (bits : Z) : bool := Z.land bits 0x7fffffff =? 0.
Definition double_is_zero (bits : Z) : bool := Z.land bits 0x7fffffffffffffff =? 0.


(* ===================================================================== *)
(** ** The value handle, [AssemblyRegister] *)
(* ===================================================================== *)

(** [AssemblyRegister::State], with the enumerators the sources use.
    [ReusableRegister] is only named under [REMOVE_REUSABLE_REG]. *)
Inductive State :=
| UnloadedMemoryLocation
| LoadedMemoryLocation
| ActiveRegister
| DirtyGlobalRegister
| ReusableRegister.

Definition State_eqb (a b : State) : bool :=
  match a, b with
  | UnloadedMemoryLocation, UnloadedMemoryLocation
  | LoadedMemoryLocation, LoadedMemoryLocation
  | ActiveRegister, ActiveRegister
  | DirtyGlobalRegister, DirtyGlobalRegister
  | ReusableRegister, ReusableRegister => true
  | _, _ => false
  end.

(** The members of a handle. [memoryLocation] is a [void*] (0 is
    [nullptr]); [refCount] is the count of the [ReferenceCountedObject]
    base, as [getReferenceCount()] reads it. [immediateIntValue] is an
    [int]: its declaration is not part of the sources, which assign
    [*reinterpret_cast<int*>(memoryLocation)] to it and widen it with
    [static_cast<int64>] wherever they read it. Every assignment below
    stores a value of an [int] ([toInt]); the widening leaves the value
    as it is. *)
Record AssemblyRegister := mkAssemblyRegister {
  type : TypeInfo;
  debugId : nat;
  state : State;
  dirty : bool;
  globalMemory : bool;
  hasCustomMem : bool;
  isIter : bool;
  isZeroValue : bool;
  reg : X86Reg;
  memory : X86Mem;
  memoryLocation : Z;
  immediateIntValue : Z;
  scope : BaseScope;
  id : Symbol;
  numMemoryReferences : nat;
  refCount : nat
}.

(** Member assignment. *)
Definition set_type v r :=
  mkAssemblyRegister v (debugId r) (state r) (dirty r) (globalMemory r)
    (hasCustomMem r) (isIter r) (isZeroValue r) (reg r) (memory r)
    (memoryLocation r) (immediateIntValue r) (scope r) (id r)
    (numMemoryReferences r) (refCount r).
Definition set_state v r :=
  mkAssemblyRegister (type r) (debugId r) v (dirty r) (globalMemory r)
    (hasCustomMem r) (isIter r) (isZeroValue r) (reg r) (memory r)
    (memoryLocation r) (immediateIntValue r) (scope r) (id r)
    (numMemoryReferences r) (refCount r).
Definition set_dirty v r :=
  mkAssemblyRegister (type r) (debugId r) (state r) v (globalMemory r)
    (hasCustomMem r) (isIter r) (isZeroValue r) (reg r) (memory r)
    (memoryLocation r) (immediateIntValue r) (scope r) (id r)
    (numMemoryReferences r) (refCount r).
Definition set_globalMemory v r :=
  mkAssemblyRegister (type r) (debugId r) (state r) (dirty r) v
    (hasCustomMem r) (isIter r) (isZeroValue r) (reg r) (memory r)
    (memoryLocation r) (immediateIntValue r) (scope r) (id r)
    (numMemoryReferences r) (refCount r).
Definition set_hasCustomMem v r :=
  mkAssemblyRegister (type r) (debugId r) (state r) (dirty r) (globalMemory r)
    v (isIter r) (isZeroValue r) (reg r) (memory r)
    (memoryLocation r) (immediateIntValue r) (scope r) (id r)
    (numMemoryReferences r) (refCount r).
Definition set_isIter v r :=
  mkAssemblyRegister (type r) (debugId r) (state r) (dirty r) (globalMemory r)
    (hasCustomMem r) v (isZeroValue r) (reg r) (memory r)
    (memoryLocation r) (immediateIntValue r) (scope r) (id r)
    (numMemoryReferences r) (refCount r).
Definition set_isZeroValue v r :=
  mkAssemblyRegister (type r) (debugId r) (state r) (dirty r) (globalMemory r)
    (hasCustomMem r) (isIter r) v (reg r) (memory r)
    (memoryLocation r) (immediateIntValue r) (scope r) (id r)
    (numMemoryReferences r) (refCount r).
Definition set_reg v r :=
  mkAssemblyRegister (type r) (debugId r) (state r) (dirty r) (globalMemory r)
    (hasCustomMem r) (isIter r) (isZeroValue r) v (memory r)
    (memoryLocation r) (immediateIntValue r) (scope r) (id r)
    (numMemoryReferences r) (refCount r).
Definition set_memory v r :=
  mkAssemblyRegister (type r) (debugId r) (state r) (dirty r) (globalMemory r)
    (hasCustomMem r) (isIter r) (isZeroValue r) (reg r) v
    (memoryLocation r) (immediateIntValue r) (scope r) (id r)
    (numMemoryReferences r) (refCount r).
Definition set_memoryLocation v r :=
  mkAssemblyRegister (type r) (debugId r) (state r) (dirty r) (globalMemory r)
    (hasCustomMem r) (isIter r) (isZeroValue r) (reg r) (memory r)
    v (immediateIntValue r) (scope r) (id r)
    (numMemoryReferences r) (refCount r).
Definition set_immediateIntValue v r :=
  mkAssemblyRegister (type r) (debugId r) (state r) (dirty r) (globalMemory r)
    (hasCustomMem r) (isIter r) (isZeroValue r) (reg r) (memory r)
    (memoryLocation r) v (scope r) (id r)
    (numMemoryReferences r) (refCount r).
Definition set_scope v r :=
  mkAssemblyRegister (type r) (debugId r) (state r) (dirty r) (globalMemory r)
    (hasCustomMem r) (isIter r) (isZeroValue r) (reg r) (memory r)
    (memoryLocation r) (immediateIntValue r) v (id r)
    (numMemoryReferences r) (refCount r).
Definition set_id v r :=
  mkAssemblyRegister (type r) (debugId r) (state r) (dirty r) (globalMemory r)
    (hasCustomMem r) (isIter r) (isZeroValue r) (reg r) (memory r)
    (memoryLocation r) (immediateIntValue r) (scope r) v
    (numMemoryReferences r) (refCount r).
Definition set_numMemoryReferences v r :=
  mkAssemblyRegister (type r) (debugId r) (state r) (dirty r) (globalMemory r)
    (hasCustomMem r) (isIter r) (isZeroValue r) (reg r) (memory r)
    (memoryLocation r) (immediateIntValue r) (scope r) (id r)
    v (refCount r).
Definition set_refCount v r :=
  mkAssemblyRegister (type r) (debugId r) (state r) (dirty r) (globalMemory r)
    (hasCustomMem r) (isIter r) (isZeroValue r) (reg r) (memory r)
    (memoryLocation r) (immediateIntValue r) (scope r) (id r)
    (numMemoryReferences r) v.

(** Modelled from the spec: the in-class member initialisers belong to the
    class declaration, which is not in the sources. A new handle starts
    Unmaterialized (section 4.1), clean, without register, memory operand,
    data pointer or bound symbol, and with no holder; [scope_] stands for
    the assignment [newReg->scope = scope] that follows every [new]. *)
Definition new_AssemblyRegister (type_ : TypeInfo) (counter : nat)
    (scope_ : BaseScope) : AssemblyRegister :=
  {| type := type_; debugId := counter; state := UnloadedMemoryLocation;
     dirty := false; globalMemory := false; hasCustomMem := false;
     isIter := false; isZeroValue := false; reg := None; memory := noMem;
     memoryLocation := 0; immediateIntValue := 0; scope := scope_;
     id := Symbol.empty; numMemoryReferences := 0%nat; refCount := 0%nat |}.

(** What a call that may throw yields: the thrown [juce::String] or the
    returned value. The handle keeps the assignments made before the
    [throw]. *)
Inductive Outcome (A : Type) :=
| Thrown (message : string)
| Returned (value : A).
Arguments Thrown {A} message.
Arguments Returned {A} value.

Section Handle.

Context (compiler : BaseCompiler) (scopes : ScopeTree) (data : DataMemory).

(** [AsmCodeGenerator::createValid64BitPointer(cc, memory, offset, size)],
    a helper of the code generator: it may emit instructions and returns
    the operand to read from. *)
Context (createValid64BitPointer :
           X86Compiler -> X86Mem -> Z -> nat -> X86Compiler * X86Mem).

(** Modelled from the spec: [hasCustomMemoryLocation()] is an inline
    accessor of the class declaration, which is not in the sources; it
    tells whether the handle has an explicit, already resolved memory
    operand (section 4.2, matching rule), which is what [hasCustomMem]
    records. *)
Definition hasCustomMemoryLocation (r : AssemblyRegister) : bool :=
  hasCustomMem r.

Definition getTypeInfo (r : AssemblyRegister) : TypeInfo := type r.

Definition getType (r : AssemblyRegister) : Types.ID :=
  getRegisterType compiler (type r).

Definition getMemoryLocationForReference (r : AssemblyRegister) : X86Mem :=
  memory r.

Definition matchesMemoryLocation (this other : AssemblyRegister) : bool :=
  let bothAreMemory :=
    hasCustomMemoryLocation this && hasCustomMemoryLocation other in
  let typeMatch := TypeInfo_eqb (getTypeInfo other) (getTypeInfo this) in
  if typeMatch && bothAreMemory then
    let m := getMemoryLocationForReference other in
    X86Mem_eqb m (memory this)
  else false.

Definition isGlobalVariableRegister (r : AssemblyRegister) : bool :=
  rootDataContains scopes (getRootClassScope scopes (scope r))
    (Symbol.id (id r)).

Definition isGlobalMemory (r : AssemblyRegister) : bool :=
  (hasCustomMem r && globalMemory r) || isGlobalVariableRegister r.

Definition shouldLoadMemoryIntoRegister (r : AssemblyRegister) : bool :=
  (0 <? numMemoryReferences r)%nat.

Definition setReference (s : BaseScope) (ref : Symbol)
    (r : AssemblyRegister) : AssemblyRegister :=
  let refScope := getScopeForSymbol scopes s (Symbol.id ref) in
  let r1 := match refScope with
            | Some sc => set_scope sc r
            | None => set_scope s r
            end in
  set_id ref r1.

Definition getVariableId (r : AssemblyRegister) : Symbol := id r.

Definition isDirtyGlobalMemory (r : AssemblyRegister) : bool :=
  dirty r && isGlobalMemory r.

Definition reinterpretCast (newType : TypeInfo) (r : AssemblyRegister) :=
  set_type newType r.

Definition isActiveOrDirtyGlobalRegister (r : AssemblyRegister) : bool :=
  State_eqb (state r) ActiveRegister || State_eqb (state r) DirtyGlobalRegister.

Definition isActive (r : AssemblyRegister) : bool :=
  State_eqb (state r) ActiveRegister.

Definition isMemoryLocation (r : AssemblyRegister) : bool :=
  State_eqb (state r) LoadedMemoryLocation.

Definition isValidRegister (r : AssemblyRegister) : bool :=
  State_eqb (state r) ActiveRegister && isValid (reg r).

(** [getRegisterForReadOp]: the handle is not modified. *)
Definition getRegisterForReadOp (r : AssemblyRegister)
    : AssemblyRegister * X86Reg :=
  (r, reg r).

(** [getRegisterForWriteOp]: the handle after the call, and either the
    thrown message or the returned register. *)
Definition getRegisterForWriteOp (r : AssemblyRegister)
    : AssemblyRegister * Outcome X86Reg :=
  let r1 := if isGlobalMemory r
            then set_state DirtyGlobalRegister (set_dirty true r)
            else r in
  if Symbol.valid (id r1) then
    let r2 := if isIter r1 then set_dirty true r1 else r1 in
    let sToUse :=
      match getScopeForSymbol scopes (scope r2) (Symbol.id (id r2)) with
      | Some s => s
      | None => scope r2
      end in
    let scopeType := getScopeType scopes sToUse in
    if negb (isIter r2) &&
       (Nat.eqb (getRootClassScope scopes sToUse) sToUse
        || Symbol.isReference (id r2)) then
      let r3 := if negb (memoryLocation r2 =? 0)
                then set_state DirtyGlobalRegister (set_dirty true r2)
                else r2 in
      (r3, Returned (reg r3))
    else if ScopeType_isGlobal scopeType then
      (r2, Thrown "can't write to global variables"%string)
    else (r2, Returned (reg r2))
  else (r1, Returned (reg r1)).

Definition getAsMemoryLocation (r : AssemblyRegister) : X86Mem := memory r.

(** [static_cast<int64>(immediateIntValue)]: widening an [int] keeps its
    value. *)
Definition getImmediateIntValue (r : AssemblyRegister) : Z :=
  immediateIntValue r.

Definition isSimd4Float (r : AssemblyRegister) : bool :=
  if negb (autoVectorisation compiler) then false
  else match type r with
       | SpanType elementType numElements =>
           TypeInfo_eqb elementType (NativeType Types.Float)
           && Nat.eqb numElements 4
       | _ => false
       end.

Definition createMemoryLocation (cc : X86Compiler) (r : AssemblyRegister)
    : X86Compiler * AssemblyRegister :=
  if negb (Types.eqb (getType r) Types.Pointer)
     && isGlobalVariableRegister r && negb (Symbol.isConst (id r)) then
    let t := getType r in
    let useQword := Types.eqb t Types.Double || Types.eqb t Types.Block
                    || Types.eqb t Types.Pointer in
    let '(cc1, r_) := newGpq cc in
    let cc2 := emit (mov_ri (Some r_) (memoryLocation r)) cc1 in
    let m := if useQword then qword_ptr r_ else dword_ptr r_ in
    (cc2,
     set_state LoadedMemoryLocation (set_hasCustomMem true (set_memory m r)))
  else
    let '(cc1, r1) :=
      if Types.eqb (getType r) Types.Float then
        let v := read_float data (memoryLocation r) in
        let '(cc', m) := newFloatConst v cc in
        (cc', set_memory m (set_isZeroValue (float_is_zero v) r))
      else (cc, r) in
    let '(cc2, r2) :=
      if Types.eqb (getType r1) Types.Double then
        let v := read_double data (memoryLocation r1) in
        let '(cc', m) := newDoubleConst v cc1 in
        (cc', set_memory m (set_isZeroValue (double_is_zero v) r1))
      else (cc1, r1) in
    let r3 :=
      if Types.eqb (getType r2) Types.Integer then
        let r' := if negb (memoryLocation r2 =? 0)
                  then set_immediateIntValue
                         (read_int data (memoryLocation r2)) r2
                  else r2 in
        set_isZeroValue (immediateIntValue r' =? 0) r'
      else r2 in
    let r4 :=
      if Types.eqb (getType r3) Types.Pointer then
        set_memory
          (qword_ptr_abs (storage_getDataPointer data (memoryLocation r3))) r3
      else r3 in
    (cc2, set_state LoadedMemoryLocation r4).

Definition createRegister (cc : X86Compiler) (r : AssemblyRegister)
    : X86Compiler * AssemblyRegister :=
  if isValid (reg r) then (cc, r)
  else
    let '(cc1, r1) :=
      if Types.eqb (getType r) Types.Float
      then let '(c, v) := newXmmSs cc in (c, set_reg (Some v) r)
      else (cc, r) in
    let '(cc2, r2) :=
      if Types.eqb (getType r1) Types.Double
      then let '(c, v) := newXmmSd cc1 in (c, set_reg (Some v) r1)
      else (cc1, r1) in
    let '(cc3, r3) :=
      if Types.eqb (getType r2) Types.Integer
      then let '(c, v) := newGpd cc2 in (c, set_reg (Some v) r2)
      else (cc2, r2) in
    let '(cc4, r4) :=
      if TypeInfo_eqb (type r3) (NativeType Types.Block)
      then let '(c, v) := newGpq cc3 in (c, set_reg (Some v) r3)
      else (cc3, r3) in
    let '(cc5, r5) :=
      if Types.eqb (getType r4) Types.Pointer
      then if isSimd4Float r4
           then let '(c, v) := newXmmPs cc4 in (c, set_reg (Some v) r4)
           else let '(c, v) := newGpq cc4 in (c, set_reg (Some v) r4)
      else (cc4, r4) in
    (cc5, set_state ActiveRegister r5).

Definition loadMemoryIntoRegister (cc : X86Compiler) (forceLoad : bool)
    (r : AssemblyRegister) : X86Compiler * AssemblyRegister :=
  if negb forceLoad && isValid (reg r) then (cc, r)
  else
    let '(cc1, r1) :=
      if State_eqb (state r) UnloadedMemoryLocation
      then createMemoryLocation cc r else (cc, r) in
    if negb forceLoad && State_eqb (state r1) ActiveRegister then (cc1, r1)
    else
      let '(cc2, r2) := createRegister cc1 r1 in
      let cc3 :=
        match getType r2 with
        | Types.Float => emit (movss_rm (reg r2) (memory r2)) cc2
        | Types.Double => emit (movsd_rm (reg r2) (memory r2)) cc2
        | Types.Block | Types.Integer =>
            if hasCustomMem r2
            then emit (mov_rm (reg r2) (memory r2)) cc2
            else emit (mov_ri (reg r2) (immediateIntValue r2)) cc2
        | Types.Pointer =>
            if isSimd4Float r2 then
              let '(cc', p) :=
                createValid64BitPointer cc2 (memory r2) 0 16%nat in
              emit (movaps_rm (reg r2) p) cc'
            else if hasCustomMem r2
            then emit (lea_rm (reg r2) (memory r2)) cc2
            else if hasOffset (memory r2) && negb (hasBaseOrIndex (memory r2))
            then emit (mov_ri (reg r2) (memOffset (memory r2))) cc2
            else cc2
        | Types.Dynamic => cc2
        end in
      (cc3, set_state ActiveRegister r2).

Definition setCustomMemoryLocation (newLocation : X86Mem)
    (isGlobalMemory_ : bool) (r : AssemblyRegister) : AssemblyRegister :=
  set_hasCustomMem true
    (set_state LoadedMemoryLocation
       (set_reg None
          (set_globalMemory isGlobalMemory_
             (set_dirty false (set_memory newLocation r))))).

Definition setDataPointer (memLoc : Z) (globalMemory_ : bool)
    (r : AssemblyRegister) : AssemblyRegister :=
  set_hasCustomMem false
    (set_state UnloadedMemoryLocation
       (set_globalMemory globalMemory_
          (set_reg None (set_memoryLocation memLoc r)))).

(** [setImmediateValue]: the [int64] given is assigned to the [int]
    member, which keeps its low 32 bits. *)
Definition setImmediateValue (value : Z) (r : AssemblyRegister)
    : AssemblyRegister :=
  set_hasCustomMem false
    (set_reg None
       (set_memoryLocation 0
          (set_state UnloadedMemoryLocation
             (set_immediateIntValue (toInt value) r)))).

Definition invalidateRegisterForCustomMemory (r : AssemblyRegister)
    : AssemblyRegister :=
  set_state LoadedMemoryLocation (set_reg None (set_dirty false r)).

Definition setUndirty (r : AssemblyRegister) : AssemblyRegister :=
  if dirty r && isActiveOrDirtyGlobalRegister r
  then set_state ActiveRegister (set_dirty false r)
  else r.

End Handle.

(* ===================================================================== *)
(** ** The allocator, [AssemblyRegisterPool] *)
(* ===================================================================== *)

(** A [RegPtr] is the address of a handle in the store. *)
Abbreviation RegPtr := nat (only parsing).

(** The pool together with the store its pointers refer to: [objects] maps
    the addresses handed out by [new] to the handles, [nextAddress] is the
    next address [new] returns, [counter] is the file-level [static int
    counter], and [currentRegisterPool] is the [ReferenceCountedArray] of
    the pool, in insertion order. Retired objects stay in the store. *)
Record AssemblyRegisterPool := mkPool {
  objects : gmap nat AssemblyRegister;
  nextAddress : nat;
  counter : nat;
  currentRegisterPool : list RegPtr
}.

Definition emptyPool : AssemblyRegisterPool :=
  {| objects := ∅; nextAddress := 0%nat; counter := 0%nat;
     currentRegisterPool := [] |}.

Definition set_objects (o : gmap nat AssemblyRegister)
    (P : AssemblyRegisterPool) : AssemblyRegisterPool :=
  mkPool o (nextAddress P) (counter P) (currentRegisterPool P).

Definition set_currentRegisterPool (l : list RegPtr)
    (P : AssemblyRegisterPool) : AssemblyRegisterPool :=
  mkPool (objects P) (nextAddress P) (counter P) l.

(** [p->f()] for a member function [f] that mutates the handle. *)
Definition update (p : RegPtr) (f : AssemblyRegister -> AssemblyRegister)
    (P : AssemblyRegisterPool) : AssemblyRegisterPool :=
  set_objects (alter f p (objects P)) P.

(** [p->f()] for a [const] member function returning [bool]. *)
Definition query (P : AssemblyRegisterPool) (f : AssemblyRegister -> bool)
    (p : RegPtr) : bool :=
  match objects P !! p with
  | Some r => f r
  | None => false
  end.

(** [ReferenceCountedObject]: a [Ptr] taking and letting go of a handle. *)
Definition incReferenceCount (p : RegPtr) : AssemblyRegisterPool -> AssemblyRegisterPool :=
  update p (fun r => set_refCount (S (refCount r)) r).

Definition decReferenceCount (p : RegPtr) : AssemblyRegisterPool -> AssemblyRegisterPool :=
  update p (fun r => set_refCount (Nat.pred (refCount r)) r).

Definition getReferenceCount (P : AssemblyRegisterPool) (p : RegPtr) : nat :=
  match objects P !! p with
  | Some r => refCount r
  | None => 0%nat
  end.

(** [ReferenceCountedArray::removeObject]: the first occurrence goes. *)
Fixpoint remove_first (p : RegPtr) (l : list RegPtr) : list RegPtr :=
  match l with
  | [] => []
  | q :: l' => if Nat.eqb q p then l' else q :: remove_first p l'
  end.

Definition contains (l : list RegPtr) (p : RegPtr) : bool :=
  existsb (Nat.eqb p) l.

Definition removeObject (p : RegPtr) (P : AssemblyRegisterPool)
    : AssemblyRegisterPool :=
  if contains (currentRegisterPool P) p
  then decReferenceCount p
         (set_currentRegisterPool (remove_first p (currentRegisterPool P)) P)
  else P.

Section Pool.

Context (compiler : BaseCompiler) (scopes : ScopeTree).

Definition matchesScopeAndSymbol (r : AssemblyRegister)
    (scopeToCheck : BaseScope) (symbol : Symbol) : bool :=
  let scopeMatches :=
    match getScopeForSymbol scopes scopeToCheck (Symbol.id symbol) with
    | Some s => Nat.eqb s (scope r)
    | None => false
    end in
  let symbolMatches := Symbol.eqb symbol (id r) in
  scopeMatches && symbolMatches.

(** [clear]: the array lets go of every handle it holds. *)
Definition clear (P : AssemblyRegisterPool) : AssemblyRegisterPool :=
  set_currentRegisterPool []
    (fold_right decReferenceCount P (currentRegisterPool P)).

Definition getListOfAllDirtyGlobals (P : AssemblyRegisterPool)
    : list RegPtr :=
  List.filter (query P (isDirtyGlobalMemory scopes)) (currentRegisterPool P).

(** [getNextFreeRegister]: [new] (one holder, the local [RegPtr]), the
    scope assignment, and [add] (the array is the second holder). *)
Definition getNextFreeRegister (P : AssemblyRegisterPool)
    (scope_ : BaseScope) (type_ : TypeInfo) : AssemblyRegisterPool * RegPtr :=
  let newReg := nextAddress P in
  let obj := set_refCount 1%nat
               (new_AssemblyRegister type_ (counter P) scope_) in
  let P1 := mkPool (<[newReg := obj]> (objects P)) (S (nextAddress P))
              (S (counter P)) (currentRegisterPool P) in
  let P2 := incReferenceCount newReg
              (set_currentRegisterPool (currentRegisterPool P1 ++ [newReg]) P1) in
  (P2, newReg).

(** [getRegisterForVariable]: the returned [RegPtr] is one more holder of
    the handle it points to. *)
Definition getRegisterForVariable (P : AssemblyRegisterPool)
    (scope_ : BaseScope) (s : Symbol) : AssemblyRegisterPool * RegPtr :=
  match List.find
          (query P (fun r => matchesScopeAndSymbol r scope_ s))
          (currentRegisterPool P) with
  | Some r => (incReferenceCount r P, r)
  | None =>
      let '(P1, newReg) := getNextFreeRegister P scope_ (Symbol.typeInfo s) in
      (update newReg (setReference scopes scope_ s) P1, newReg)
  end.

(** The handles of the pool that [getRegisterForVariable] returns for a pair. *)
Definition matchesIn (P : AssemblyRegisterPool) (s : BaseScope) (y : Symbol)
    : RegPtr -> bool :=
  query P (fun r => matchesScopeAndSymbol r s y).

(** The scope a new handle is bound to by [setReference]. *)
Definition boundScope (s : BaseScope) (y : Symbol) : BaseScope :=
  match getScopeForSymbol scopes s (Symbol.id y) with
  | Some declaring => declaring
  | None => s
  end.

(** The handle [getRegisterForVariable] creates: two holders (the array
    and the returned pointer), bound by [setReference]. *)
Definition newHandle (P : AssemblyRegisterPool) (s : BaseScope) (y : Symbol)
    : AssemblyRegister :=
  setReference scopes s y
    (set_refCount 2%nat
       (new_AssemblyRegister (Symbol.typeInfo y) (counter P) s)).

(** [removeIfUnreferenced]: [ref] is passed by value, so the parameter is
    itself a holder while the body runs. *)
Definition removeIfUnreferenced (ref : RegPtr) (P : AssemblyRegisterPool)
    : AssemblyRegisterPool :=
  let P1 := incReferenceCount ref P in
  let refCount_ := getReferenceCount P1 ref in
  let P2 := if Nat.eqb refCount_ 2 then removeObject ref P1 else P1 in
  decReferenceCount ref P2.

(** [getActiveRegisterForCustomMem]: as above, the returned [RegPtr] is
    one more holder. *)
Definition getActiveRegisterForCustomMem (P : AssemblyRegisterPool)
    (regWithCustomMem : RegPtr) : AssemblyRegisterPool * RegPtr :=
  match objects P !! regWithCustomMem with
  | None => (incReferenceCount regWithCustomMem P, regWithCustomMem)
  | Some o =>
      match List.find
              (fun r => query P hasCustomMemoryLocation r
                        && query P isActive r
                        && query P (fun x =>
                                      X86Mem_eqb
                                        (getMemoryLocationForReference x)
                                        (getMemoryLocationForReference o)) r)
              (currentRegisterPool P) with
      | Some r => (incReferenceCount r P, r)
      | None => (incReferenceCount regWithCustomMem P, regWithCustomMem)
      end
  end.

Definition getListOfAllNamedRegisters (P : AssemblyRegisterPool)
    : list RegPtr :=
  List.filter (query P (fun r => Symbol.valid (getVariableId r)))
    (currentRegisterPool P).

(** [getRegisterWithMemory]: the parameter comes and goes; the returned
    [RegPtr] is one more holder of the handle it points to. *)
Definition getRegisterWithMemory (P : AssemblyRegisterPool) (other : RegPtr)
    : AssemblyRegisterPool * RegPtr :=
  if negb (query P hasCustomMemoryLocation other)
  then (incReferenceCount other P, other)
  else
    match objects P !! other with
    | None => (incReferenceCount other P, other)
    | Some o =>
        match List.find
                (fun r => query P isMemoryLocation r
                          && negb (Nat.eqb r other)
                          && query P (fun x => matchesMemoryLocation x o) r)
                (currentRegisterPool P) with
        | Some r =>
            (incReferenceCount r
               (update r (fun x => set_numMemoryReferences
                                     (S (numMemoryReferences x)) x) P), r)
        | None => (incReferenceCount other P, other)
        end
    end.

End Pool.

(* ===================================================================== *)
(** ** Code generation as a sequence of operations *)
(* ===================================================================== *)

(** The state code generation threads through: the pool with its store,
    and the emitter. *)
Record Codegen := mkCodegen {
  registerPool : AssemblyRegisterPool;
  cc : X86Compiler
}.

Definition initialCodegen : Codegen :=
  {| registerPool := emptyPool; cc := asmjit.empty |}.

(** The calls code generation makes on the pool and on the handles it
    holds. [DropReference] is a holder letting go of its [Ptr]. *)
Inductive Op :=
| Resolve (scope_ : BaseScope) (s : Symbol)
| Materialize (p : RegPtr) (forceLoad : bool)
| Read (p : RegPtr)
| Write (p : RegPtr)
| Flush (p : RegPtr)
| Release (p : RegPtr)
| CanonicalMemoryHandle (p : RegPtr)
| SetCustomMemoryLocation (p : RegPtr) (newLocation : X86Mem) (isGlobal : bool)
| SetDataPointer (p : RegPtr) (memLoc : Z) (isGlobal : bool)
| SetImmediateValue (p : RegPtr) (value : Z)
| InvalidateRegisterForCustomMemory (p : RegPtr)
| CreateMemoryLocation (p : RegPtr)
| CreateRegister (p : RegPtr)
| ReinterpretCast (p : RegPtr) (newType : TypeInfo)
| DropReference (p : RegPtr)
| Reset.

Section Machine.

Context (compiler : BaseCompiler) (scopes : ScopeTree) (data : DataMemory).
Context (createValid64BitPointer :
           X86Compiler -> X86Mem -> Z -> nat -> X86Compiler * X86Mem).

Definition onPool (f : AssemblyRegisterPool -> AssemblyRegisterPool)
    (c : Codegen) : Codegen :=
  mkCodegen (f (registerPool c)) (cc c).

(** [p->f(cc)] for a member function that emits code. *)
Definition onHandle (p : RegPtr)
    (f : X86Compiler -> AssemblyRegister -> X86Compiler * AssemblyRegister)
    (c : Codegen) : Codegen :=
  match objects (registerPool c) !! p with
  | Some r =>
      let '(cc', r') := f (cc c) r in
      mkCodegen (update p (fun _ => r') (registerPool c)) cc'
  | None => c
  end.

Definition step (op : Op) (c : Codegen) : Codegen :=
  match op with
  | Resolve scope_ s =>
      onPool (fun P => fst (getRegisterForVariable scopes P scope_ s)) c
  | Materialize p forceLoad =>
      onHandle p
        (fun e => loadMemoryIntoRegister compiler scopes data
                    createValid64BitPointer e forceLoad) c
  | Read p => onPool (update p (fun r => fst (getRegisterForReadOp r))) c
  | Write p =>
      onPool (update p (fun r => fst (getRegisterForWriteOp scopes r))) c
  | Flush p => onPool (update p setUndirty) c
  | Release p => onPool (removeIfUnreferenced p) c
  | CanonicalMemoryHandle p =>
      onPool (fun P => fst (getRegisterWithMemory P p)) c
  | SetCustomMemoryLocation p m g =>
      onPool (update p (setCustomMemoryLocation m g)) c
  | SetDataPointer p l g => onPool (update p (setDataPointer l g)) c
  | SetImmediateValue p v => onPool (update p (setImmediateValue v)) c
  | InvalidateRegisterForCustomMemory p =>
      onPool (update p invalidateRegisterForCustomMemory) c
  | CreateMemoryLocation p =>
      onHandle p (createMemoryLocation compiler scopes data) c
  | CreateRegister p => onHandle p (createRegister compiler) c
  | ReinterpretCast p t => onPool (update p (reinterpretCast t)) c
  | DropReference p => onPool (decReferenceCount p) c
  | Reset => onPool clear c
  end.

Definition run (ops : list Op) (c : Codegen) : Codegen :=
  fold_left (fun c op => step op c) ops c.

(** The dirty global handles of the pool, as the pool sees them. *)
Definition collectDirtyGlobals (c : Codegen) : list RegPtr :=
  getListOfAllDirtyGlobals scopes (registerPool c).

(** The order section 4.2 of the specification words: the dirty global
    handles in the order in which each last turned from clean to dirty.
    [acc] lists the handles that were dirty before the step. *)
Definition firstDirtied_step (after : Codegen) (acc : list RegPtr)
    : list RegPtr :=
  let isDirtyNow p :=
    contains (currentRegisterPool (registerPool after)) p
    && query (registerPool after) (isDirtyGlobalMemory scopes) p in
  List.filter isDirtyNow acc
  ++ List.filter (fun p => isDirtyNow p && negb (contains acc p))
       (currentRegisterPool (registerPool after)).

Fixpoint firstDirtiedOrder (ops : list Op) (c : Codegen)
    (acc : list RegPtr) : list RegPtr :=
  match ops with
  | [] => acc
  | op :: ops' =>
      let c' := step op c in
      firstDirtiedOrder ops' c' (firstDirtied_step c' acc)
  end.

(** The situation section 7 calls InvalidWriteTarget, in the words of the
    specification: the bound symbol resolves to a scope of global kind,
    and the handle has no register context, that is, it is an iterator or
    its symbol is neither declared in a root class scope nor a
    reference. *)
Definition resolvedScope (r : AssemblyRegister) : BaseScope :=
  match getScopeForSymbol scopes (scope r) (Symbol.id (id r)) with
  | Some s => s
  | None => scope r
  end.

Definition resolvesToGlobalScope (r : AssemblyRegister) : bool :=
  ScopeType_isGlobal (getScopeType scopes (resolvedScope r)).

Definition hasRegisterContext (r : AssemblyRegister) : bool :=
  negb (isIter r)
  && (Nat.eqb (getRootClassScope scopes (resolvedScope r)) (resolvedScope r)
      || Symbol.isReference (id r)).

Definition invalidWriteTarget (r : AssemblyRegister) : bool :=
  Symbol.valid (id r) && resolvesToGlobalScope r && negb (hasRegisterContext r).

End Machine.

(** Well-formed pools: no handle is held twice, the pool lists handles in
    the order of their creation, and the store holds exactly the
    addresses [new] has returned. *)
Record pool_wf (P : AssemblyRegisterPool) : Prop := {
  wf_sorted : StronglySorted lt (currentRegisterPool P);
  wf_bound : Forall (fun p => (p < nextAddress P)%nat) (currentRegisterPool P);
  wf_store : forall p, is_Some (objects P !! p) <-> (p < nextAddress P)%nat
}.

(** All handles of a store satisfy [Q]. *)
Definition all_handles (Q : AssemblyRegister -> Prop)
    (P : AssemblyRegisterPool) : Prop :=
  forall p r, objects P !! p = Some r -> Q r.

(** The four states of section 4.1. *)
Definition inDefinedState (r : AssemblyRegister) : Prop :=
  state r = UnloadedMemoryLocation \/ state r = LoadedMemoryLocation \/
  state r = ActiveRegister \/ state r = DirtyGlobalRegister.

Definition isUnmaterialized (r : AssemblyRegister) : bool :=
  State_eqb (state r) UnloadedMemoryLocation.
Definition isDirtyGlobalRegister (r : AssemblyRegister) : bool :=
  State_eqb (state r) DirtyGlobalRegister.

(** How many of the four states the handle is in. *)
Definition definedStateCount (r : AssemblyRegister) : nat :=
  (Nat.b2n (isUnmaterialized r) + Nat.b2n (isMemoryLocation r)
   + Nat.b2n (isActive r) + Nat.b2n (isDirtyGlobalRegister r))%nat.

(** Two pools that list the same handles and agree, handle by handle, on
    everything memory coalescing looks at. *)
Definition sameLocation (a b : AssemblyRegister) : Prop :=
  state a = state b /\ type a = type b /\ memory a = memory b
  /\ hasCustomMem a = hasCustomMem b.

Definition sameLocations (P Q : AssemblyRegisterPool) : Prop :=
  currentRegisterPool P = currentRegisterPool Q
  /\ forall p, option_Forall2 sameLocation (objects P !! p) (objects Q !! p).

(** The matching rule of section 4.2, in the words of the specification:
    the handle at [x] is a survivor for the handle at [other] when it is
    another entry of the pool, both have an explicit memory location, the
    same declared type and the same memory operand, and the handle at [x]
    is in [LoadedMemoryLocation]. *)
Definition survivorFor (P : AssemblyRegisterPool) (other x : RegPtr)
    : Prop :=
  In x (currentRegisterPool P) /\ x <> other
  /\ exists o s,
       objects P !! other = Some o /\ objects P !! x = Some s
       /\ hasCustomMem o = true /\ hasCustomMem s = true
       /\ type o = type s /\ memory o = memory s
       /\ state s = LoadedMemoryLocation.

(** Rebinding every handle of the store to another symbol. *)
Definition renameSymbols (f : Symbol -> Symbol) (P : AssemblyRegisterPool)
    : AssemblyRegisterPool :=
  set_objects ((fun r => set_id (f (id r)) r) <$> objects P) P.

(* ===================================================================== *)
(** ** A concrete compilation unit *)
(* ===================================================================== *)

(** Scope 0 is the global scope, scope 1 the root class scope (its
    [rootData] holds [gain], [level] and [voices]), scope 2 a function
    scope of that class. [sampleRate] is declared in the global scope, [tmp] in the
    function scope; [anon] resolves nowhere. *)
Definition demoCompiler : BaseCompiler :=
  {| getRegisterType := fun t => match t with
                                 | NativeType x => x
                                 | _ => Types.Pointer
                                 end;
     autoVectorisation := true |}.

Definition sym (name : string) (t : Types.ID) : Symbol :=
  {| Symbol.id := [name]; Symbol.typeInfo := NativeType t;
     Symbol.const_ := false; Symbol.reference_ := false |}.

Definition gain : Symbol := sym "gain" Types.Float.
Definition level : Symbol := sym "level" Types.Float.
Definition sampleRate : Symbol := sym "sampleRate" Types.Double.
Definition tmp : Symbol := sym "tmp" Types.Integer.

Definition voices : Symbol := sym "voices" Types.Integer.

Definition isRootData (i : NamespacedIdentifier) : bool :=
  NamespacedIdentifier_eqb i ["gain"%string]
  || NamespacedIdentifier_eqb i ["level"%string]
  || NamespacedIdentifier_eqb i ["voices"%string].

Definition demoScopes : ScopeTree :=
  {| getScopeForSymbol := fun s i =>
       if isRootData i then Some 1%nat
       else if NamespacedIdentifier_eqb i ["sampleRate"%string] then Some 0%nat
       else if NamespacedIdentifier_eqb i ["tmp"%string] && Nat.eqb s 2
            then Some 2%nat
       else None;
     getRootClassScope := fun _ => 1%nat;
     getScopeType := fun s => match s with
                              | O => Global
                              | S n => OtherScope n
                              end;
     rootDataContains := fun s i => Nat.eqb s 1 && isRootData i |}.

Definition demoData : DataMemory :=
  {| int_bits := fun _ => 0; read_float := fun _ => 0;
     read_double := fun _ => 0; storage_getDataPointer := fun a => a |}.

Definition demoPointer (e : X86Compiler) (m : X86Mem) (o : Z) (n : nat)
    : X86Compiler * X86Mem := (e, m).

Definition demoStep := step demoCompiler demoScopes demoData demoPointer.
Definition demoRun := run demoCompiler demoScopes demoData demoPointer.

Definition handleAt (c : Codegen) (p : RegPtr) : AssemblyRegister :=
  match objects (registerPool c) !! p with
  | Some r => r
  | None => new_AssemblyRegister (NativeType Types.Dynamic) 0 0
  end.

(** [gain], resolved from the class scope, pointed at its storage and
    materialised. *)
Definition gainOps : list Op :=
  [Resolve 1 gain; SetDataPointer 0 4096 true; Materialize 0 false].
Definition gainCodegen : Codegen := demoRun gainOps initialCodegen.
Definition gainHandle : AssemblyRegister :=
  Eval vm_compute in handleAt gainCodegen 0.

(** [gain] and [level], created in this order and written in the other. *)
Definition twoGlobalsOps : list Op :=
  [Resolve 1 gain; Resolve 2 level;
   SetDataPointer 0 4096 true; SetDataPointer 1 4100 true;
   Materialize 0 false; Materialize 1 false;
   Write 1; Write 0].

(** [tmp], resolved from the function scope and not materialised. *)
Definition tmpCodegen : Codegen := demoRun [Resolve 2 tmp] initialCodegen.
Definition tmpHandle : AssemblyRegister :=
  Eval vm_compute in handleAt tmpCodegen 0.

(** [tmp] holding the immediate 5, then given its memory location. *)
Definition immediateOps : list Op :=
  [Resolve 2 tmp; SetImmediateValue 0 5; CreateMemoryLocation 0].

(** [sampleRate], declared in the global scope, materialised from the
    function scope. *)
Definition sampleRateHandle : AssemblyRegister :=
  Eval vm_compute in
    handleAt (demoRun [Resolve 2 sampleRate; SetDataPointer 0 8192 true;
                       Materialize 0 false] initialCodegen) 0.

(** [gain] and [level] rebound to one and the same memory operand. *)
Definition aliasPool : AssemblyRegisterPool :=
  registerPool
    (demoRun [Resolve 1 gain; Resolve 1 level;
              SetCustomMemoryLocation 0 (qword_ptr_abs 4096) false;
              SetCustomMemoryLocation 1 (qword_ptr_abs 4096) false]
       initialCodegen).

(** [tmp] after its only outside holder has let go. *)
Definition retirePool : AssemblyRegisterPool :=
  registerPool (demoRun [Resolve 2 tmp; DropReference 0] initialCodegen).
Definition retireHandle : AssemblyRegister :=
  Eval vm_compute in
    handleAt (demoRun [Resolve 2 tmp; DropReference 0] initialCodegen) 0.

(* ===================================================================== *)
(** ** Further notions used by the properties of the code *)
(* ===================================================================== *)

(** [AssemblyRegister::operator==(const Symbol&)]. *)
Definition equalsSymbol (r : AssemblyRegister) (s : Symbol) : bool :=
  Symbol.eqb (id r) s.

(** What the members of a handle tell about each other: the state
    [DirtyGlobalRegister] goes with the dirty flag, and an unloaded memory
    location with neither a register nor an explicit memory operand. *)
Definition coherent (r : AssemblyRegister) : Prop :=
  (state r = DirtyGlobalRegister -> dirty r = true)
  /\ (state r = UnloadedMemoryLocation ->
      reg r = None /\ hasCustomMem r = false).

(** The immediate of the handle is the value of an [int]. *)
Definition immediateIsInt (r : AssemblyRegister) : Prop :=
  isInt (immediateIntValue r).

(** The register class [createRegister] asks the emitter for, by register
    type; none for [Dynamic]. *)
Definition registerClass (t : Types.ID) (simd4Float : bool)
    : option RegKind :=
  match t with
  | Types.Float => Some XmmSs
  | Types.Double => Some XmmSd
  | Types.Integer => Some Gpd
  | Types.Block => Some Gpq
  | Types.Pointer => Some (if simd4Float then XmmPs else Gpq)
  | Types.Dynamic => None
  end.

(** The destination and the memory source of an instruction. *)
Definition destination (i : Inst) : X86Reg :=
  match i with
  | mov_ri d _ | mov_rm d _ | movss_rm d _ | movsd_rm d _
  | movaps_rm d _ | lea_rm d _ => d
  end.

Definition memorySource (i : Inst) : option X86Mem :=
  match i with
  | mov_ri _ _ => None
  | mov_rm _ m | movss_rm _ m | movsd_rm _ m | movaps_rm _ m
  | lea_rm _ m => Some m
  end.

Section MaterialisationNotions.

Context (compiler : BaseCompiler).

(** The declared type is the block type exactly when its register type
    is: what [createRegister] relies on when it tests [type] instead of
    [getType()]. *)
Definition blockConsistent (r : AssemblyRegister) : Prop :=
  TypeInfo_eqb (type r) (NativeType Types.Block)
  = Types.eqb (getType compiler r) Types.Block.

(** The instruction [loadMemoryIntoRegister] emits after the register is
    there, by register type, for handles that are no packed floats. *)
Definition loadInstruction (r : AssemblyRegister) : option Inst :=
  match getType compiler r with
  | Types.Float => Some (movss_rm (reg r) (memory r))
  | Types.Double => Some (movsd_rm (reg r) (memory r))
  | Types.Block | Types.Integer =>
      Some (if hasCustomMem r then mov_rm (reg r) (memory r)
            else mov_ri (reg r) (immediateIntValue r))
  | Types.Pointer =>
      if hasCustomMem r then Some (lea_rm (reg r) (memory r))
      else if hasOffset (memory r) && negb (hasBaseOrIndex (memory r))
           then Some (mov_ri (reg r) (memOffset (memory r)))
           else None
  | Types.Dynamic => None
  end.

Definition emitOption (i : option Inst) (e : X86Compiler) : X86Compiler :=
  match i with
  | Some x => emit x e
  | None => e
  end.

End MaterialisationNotions.

Section WriteNotions.

Context (scopes : ScopeTree).

(** When [getRegisterForWriteOp] sets the dirty flag, and when it sets the
    state [DirtyGlobalRegister]: for a handle bound to global storage, and
    for a handle with a valid symbol that is an iterator (flag only) or
    that has a register context and a data pointer. *)
Definition writeSetsDirty (r : AssemblyRegister) : bool :=
  isGlobalMemory scopes r
  || (Symbol.valid (id r)
      && (isIter r
          || (hasRegisterContext scopes r && negb (memoryLocation r =? 0)))).

Definition writeSetsState (r : AssemblyRegister) : bool :=
  isGlobalMemory scopes r
  || (Symbol.valid (id r)
      && hasRegisterContext scopes r && negb (memoryLocation r =? 0)).

Definition marked (d s : bool) (r : AssemblyRegister) : AssemblyRegister :=
  let r1 := if d then set_dirty true r else r in
  if s then set_state DirtyGlobalRegister r1 else r1.

End WriteNotions.

(** Two handles that agree on what [getActiveRegisterForCustomMem] looks
    at. *)
Definition sameOperand (a b : AssemblyRegister) : Prop :=
  state a = state b /\ memory a = memory b
  /\ hasCustomMem a = hasCustomMem b.

Definition sameOperands (P Q : AssemblyRegisterPool) : Prop :=
  currentRegisterPool P = currentRegisterPool Q
  /\ forall p, option_Forall2 sameOperand (objects P !! p) (objects Q !! p).

(** Giving every handle of the store another declared type. *)
Definition retypeAll (f : TypeInfo -> TypeInfo) (P : AssemblyRegisterPool)
    : AssemblyRegisterPool :=
  set_objects ((fun r => set_type (f (type r)) r) <$> objects P) P.

(* ===================================================================== *)
(** ** The delay line of the delayed renderer, [CircularAudioSampleBuffer] *)
(* ===================================================================== *)

Module CircularAudioSampleBuffer.

(** [juce::AudioSampleBuffer]: one array of samples per channel. Samples
    are only copied, never computed with: a sample is the bit pattern of
    its [float]. *)
Abbreviation AudioSampleBuffer := (list (list Z)) (only parsing).

(** The members the sample functions use. The counters are [int]s that the
    code keeps between 0 and [size]; signed overflow being undefined in
    C++, they are unbounded integers here. *)
Record t := mk {
  internalBuffer : AudioSampleBuffer;
  numChannels : Z;
  size : Z;
  writeIndex : Z;
  readIndex : Z;
  numAvailable : Z
}.

(** [FloatVectorOperations::copy (dest + destStart, src + srcStart, num)].
    A copy that leaves one of the two arrays is undefined in C++; the
    theorems on samples exclude it with [holds] and [wellFormed]. *)
Definition copy (dest : list Z) (destStart : nat) (src : list Z)
    (srcStart num : nat) : list Z :=
  take destStart dest ++ take num (drop srcStart src)
  ++ drop (destStart + num) dest.

(** [for (int i = 0; i < numChannels; i++) copy (dest.getWritePointer (i,
    destStart), src.getReadPointer (i, srcStart), num)]; a channel one of
    the two buffers lacks is left out. *)
Definition copyChannels (channels : nat) (dest : AudioSampleBuffer)
    (destStart : nat) (src : AudioSampleBuffer) (srcStart num : nat)
    : AudioSampleBuffer :=
  fold_left
    (fun acc i =>
       match acc !! i, src !! i with
       | Some w, Some r => <[i := copy w destStart r srcStart num]> acc
       | _, _ => acc
       end)
    (seq 0 channels) dest.

Definition set_buffer (buf : AudioSampleBuffer) (b : t) : t :=
  mk buf (numChannels b) (size b) (writeIndex b) (readIndex b)
    (numAvailable b).
Definition set_writeIndex (i : Z) (b : t) : t :=
  mk (internalBuffer b) (numChannels b) (size b) i (readIndex b)
    (numAvailable b).
Definition set_readIndex (i : Z) (b : t) : t :=
  mk (internalBuffer b) (numChannels b) (size b) (writeIndex b) i
    (numAvailable b).
Definition set_numAvailable (n : Z) (b : t) : t :=
  mk (internalBuffer b) (numChannels b) (size b) (writeIndex b)
    (readIndex b) n.

(** [writeSamples]: the buffer after the call and the flag returned. *)
Definition writeSamples (b : t) (source : AudioSampleBuffer)
    (offsetInSource numSamples : Z) : t * bool :=
  let needsWrapping := writeIndex b + numSamples >? size b in
  let b1 :=
    if needsWrapping then
      let numSamplesBeforeWrap := size b - writeIndex b in
      let buf1 :=
        if numSamplesBeforeWrap >? 0
        then copyChannels (Z.to_nat (numChannels b)) (internalBuffer b)
               (Z.to_nat (writeIndex b)) source (Z.to_nat offsetInSource)
               (Z.to_nat numSamplesBeforeWrap)
        else internalBuffer b in
      let numSamplesAfterWrap := numSamples - numSamplesBeforeWrap in
      let buf2 :=
        if numSamplesAfterWrap >? 0
        then copyChannels (Z.to_nat (numChannels b)) buf1 0%nat source
               (Z.to_nat (offsetInSource + numSamplesBeforeWrap))
               (Z.to_nat numSamplesAfterWrap)
        else buf1 in
      set_writeIndex numSamplesAfterWrap (set_buffer buf2 b)
    else
      set_writeIndex (writeIndex b + numSamples)
        (set_buffer
           (copyChannels (Z.to_nat (numChannels b)) (internalBuffer b)
              (Z.to_nat (writeIndex b)) source (Z.to_nat offsetInSource)
              (Z.to_nat numSamples)) b) in
  let b2 := set_numAvailable (numAvailable b1 + numSamples) b1 in
  let ok := numAvailable b2 <=? size b2 in
  (b2, ok).

(** [readSamples]: the buffer and the destination after the call, and the
    flag returned. *)
Definition readSamples (b : t) (destination : AudioSampleBuffer)
    (offsetInDestination numSamples : Z) : t * AudioSampleBuffer * bool :=
  let b0 := set_numAvailable (numAvailable b - numSamples) b in
  let needsWrapping := readIndex b0 + numSamples >? size b0 in
  let '(b1, dest) :=
    if needsWrapping then
      let numSamplesBeforeWrap := size b0 - readIndex b0 in
      let dest1 :=
        if numSamplesBeforeWrap >? 0
        then copyChannels (Z.to_nat (numChannels b0)) destination
               (Z.to_nat offsetInDestination) (internalBuffer b0)
               (Z.to_nat (readIndex b0)) (Z.to_nat numSamplesBeforeWrap)
        else destination in
      let numSamplesAfterWrap := numSamples - numSamplesBeforeWrap in
      let dest2 :=
        if numSamplesAfterWrap >? 0
        then copyChannels (Z.to_nat (numChannels b0)) dest1
               (Z.to_nat (offsetInDestination + numSamplesBeforeWrap))
               (internalBuffer b0) 0%nat (Z.to_nat numSamplesAfterWrap)
        else dest1 in
      (set_readIndex numSamplesAfterWrap b0, dest2)
    else
      (set_readIndex (readIndex b0 + numSamples) b0,
       copyChannels (Z.to_nat (numChannels b0)) destination
         (Z.to_nat offsetInDestination) (internalBuffer b0)
         (Z.to_nat (readIndex b0)) (Z.to_nat numSamples)) in
  let ok := numAvailable b1 >=? 0 in
  (b1, dest, ok).

(** The samples of channel [c] that were written and not read yet, oldest
    first. *)
Definition pending (b : t) (c : nat) : list Z :=
  match internalBuffer b !! c with
  | Some ch =>
      take (Z.to_nat (numAvailable b))
        (drop (Z.to_nat (readIndex b)) (ch ++ ch))
  | None => []
  end.

(** What the counters and the storage of a buffer in use satisfy. *)
Record wellFormed (b : t) : Prop := {
  wf_size : 0 < size b;
  wf_channels : length (internalBuffer b) = Z.to_nat (numChannels b);
  wf_samples :
    Forall (fun ch => length ch = Z.to_nat (size b)) (internalBuffer b);
  wf_write : 0 <= writeIndex b <= size b;
  wf_read : 0 <= readIndex b <= size b;
  wf_available : 0 <= numAvailable b <= size b;
  wf_distance :
    writeIndex b = readIndex b + numAvailable b
    \/ writeIndex b + size b = readIndex b + numAvailable b
    \/ writeIndex b + 2 * size b = readIndex b + numAvailable b
}.

(** A buffer of [channels] channels that can hold [samples] samples at
    [offset] and after. *)
Definition holds (buf : AudioSampleBuffer) (channels : Z)
    (offset samples : Z) : Prop :=
  length buf = Z.to_nat channels
  /\ 0 <= offset
  /\ Forall (fun ch => (Z.to_nat (offset + samples) <= length ch)%nat) buf.

End CircularAudioSampleBuffer.

(** A delay line of two channels and four samples whose indices stand one
    sample before the end, a block of three samples to write, and a block
    to read into. *)
Definition demoDelayLine : CircularAudioSampleBuffer.t :=
  CircularAudioSampleBuffer.mk [[0; 0; 0; 0]; [0; 0; 0; 0]] 2 4 3 3 0.
Definition demoSource : list (list Z) := [[10; 11; 12]; [20; 21; 22]].
Definition demoDestination : list (list Z) := [[0; 0; 0]; [0; 0; 0]].

(** More handles of the concrete compilation unit: [gain] after it was
    written, [gain] and [sampleRate] pointed at their storage and not
    materialised yet, and a pool in which [gain], rebound to the operand
    [level] is bound to, has been materialised. *)
Definition gainWrittenHandle : AssemblyRegister :=
  Eval vm_compute in handleAt (demoRun (gainOps ++ [Write 0]) initialCodegen) 0.
Definition gainUnloaded : AssemblyRegister :=
  Eval vm_compute in
    handleAt (demoRun [Resolve 1 gain; SetDataPointer 0 4096 true]
                initialCodegen) 0.
Definition sampleRateUnloaded : AssemblyRegister :=
  Eval vm_compute in
    handleAt (demoRun [Resolve 2 sampleRate; SetDataPointer 0 8192 true]
                initialCodegen) 0.
Definition activePool : AssemblyRegisterPool :=
  registerPool
    (demoRun [Resolve 1 gain; Resolve 1 level;
              SetCustomMemoryLocation 0 (qword_ptr_abs 4096) false;
              SetCustomMemoryLocation 1 (qword_ptr_abs 4096) false;
              Materialize 0 false]
       initialCodegen).

(** [tmp] given an immediate that is no [int], 2^32 + 5, and the delay
    line after the block of three samples was written to it. *)
Definition wideOps : list Op :=
  [Resolve 2 tmp; SetImmediateValue 0 4294967301].
Definition wideHandle : AssemblyRegister :=
  Eval vm_compute in handleAt (demoRun wideOps initialCodegen) 0.
Definition demoFilledLine : CircularAudioSampleBuffer.t :=
  Eval vm_compute in
    fst (CircularAudioSampleBuffer.writeSamples demoDelayLine demoSource 0 3).

(* ===================================================================== *)
(** ** The MIDI learn table, [MidiControllerAutomationHandler] *)
(* ===================================================================== *)

Module MidiControllerAutomationHandler.

(** [juce::NotificationType]: [dontSendNotification] is 0, the others are
    not. *)
Inductive NotificationType :=
  dontSendNotification | sendNotification
  | sendNotificationSync | sendNotificationAsync.

Definition notifies (n : NotificationType) : bool :=
  match n with dontSendNotification => false | _ => true end.

Section Table.

(** [NormalisableRange<double>]: the table stores and copies ranges and
    never computes with them. [defaultRange] is what its default
    constructor gives. *)
Variable Range : Type.
Variable defaultRange : Range.

(** The value a new [AutomationData] has in [ccNumber], a member the
    constructor does not set. *)
Variable initialCcNumber : Z.

(** [AutomationData], the members the table functions use. A [Processor*]
    is an address, [nullptr] is 0. *)
Record AutomationData := mkData {
  processor : Z;
  attribute : Z;
  parameterRange : Range;
  fullRange : Range;
  macroIndex : Z;
  ccNumber : Z;
  used : bool;
  inverted : bool
}.

Definition set_parameterRange (x : Range) (a : AutomationData)
    : AutomationData :=
  mkData (processor a) (attribute a) x (fullRange a) (macroIndex a)
    (ccNumber a) (used a) (inverted a).
Definition set_ccNumber (x : Z) (a : AutomationData) : AutomationData :=
  mkData (processor a) (attribute a) (parameterRange a) (fullRange a)
    (macroIndex a) x (used a) (inverted a).
Definition set_inverted (x : bool) (a : AutomationData) : AutomationData :=
  mkData (processor a) (attribute a) (parameterRange a) (fullRange a)
    (macroIndex a) (ccNumber a) (used a) x.

(** [AutomationData::AutomationData()]. *)
Definition new_AutomationData : AutomationData :=
  mkData 0 (-1) defaultRange defaultRange (-1) initialCcNumber false false.

(** [a == other]. *)
Definition equals (a other : AutomationData) : bool :=
  (processor other =? processor a) && (attribute other =? attribute a).

(** The test [a.processor == interfaceProcessor && a.attribute ==
    attributeIndex] of the loops. *)
Definition controls (interfaceProcessor attributeIndex : Z)
    (a : AutomationData) : bool :=
  (processor a =? interfaceProcessor) && (attribute a =? attributeIndex).

(** [juce::Array<AutomationData>]: [contains] compares with [==], and
    [addIfNotAlreadyThere] appends unless [contains]. *)
Definition contains (l : list AutomationData) (x : AutomationData) : bool :=
  existsb (fun e => equals x e) l.

Definition addIfNotAlreadyThere (l : list AutomationData)
    (x : AutomationData) : list AutomationData :=
  if contains l x then l else l ++ [x].

(** The handler: [automationData], the array of 128 arrays, one for each
    controller number; the connection being learned; the flag [anyUsed];
    and the number of change messages sent. *)
Record t := mk {
  automationData : list (list AutomationData);
  unlearnedData : AutomationData;
  anyUsed : bool;
  changeMessages : nat
}.

Definition set_automationData (x : list (list AutomationData)) (h : t) : t :=
  mk x (unlearnedData h) (anyUsed h) (changeMessages h).
Definition set_unlearnedData (x : AutomationData) (h : t) : t :=
  mk (automationData h) x (anyUsed h) (changeMessages h).
Definition set_anyUsed (x : bool) (h : t) : t :=
  mk (automationData h) (unlearnedData h) x (changeMessages h).
Definition sendChangeMessage (h : t) : t :=
  mk (automationData h) (unlearnedData h) (anyUsed h) (S (changeMessages h)).

Definition addMidiControlledParameter (h : t)
    (interfaceProcessor attributeIndex : Z) (range : Range)
    (macro : Z) : t :=
  let u := unlearnedData h in
  set_unlearnedData
    (mkData interfaceProcessor attributeIndex range range macro
       (ccNumber u) true (inverted u)) h.

Definition isLearningActive (h : t) : bool := used (unlearnedData h).

Definition isLearningActiveFor (h : t)
    (interfaceProcessor attributeIndex : Z) : bool :=
  controls interfaceProcessor attributeIndex (unlearnedData h).

Definition deactivateMidiLearning (h : t) : t :=
  set_unlearnedData new_AutomationData h.

(** [setUnlearndedMidiControlNumber]. [automationData[ccNumber]] outside
    the 128 arrays is undefined in C++; here it leaves the table alone. *)
Definition setUnlearndedMidiControlNumber (h : t) (cc : Z)
    (notifyListeners : NotificationType) : t :=
  let u := set_ccNumber cc (unlearnedData h) in
  let table :=
    if (0 <=? cc) && (cc <? 128)
    then alter (fun l => addIfNotAlreadyThere l u) (Z.to_nat cc)
           (automationData h)
    else automationData h in
  let h1 :=
    set_anyUsed true
      (set_unlearnedData new_AutomationData (set_automationData table h)) in
  if notifies notifyListeners then sendChangeMessage h1 else h1.

(** The loop [for (int i = 0; i < 128; i++) for (auto& a :
    automationData[i])] of [getMidiControllerNumber], from controller
    [i] on. *)
Fixpoint findController (table : list (list AutomationData)) (i : Z)
    (interfaceProcessor attributeIndex : Z) : Z :=
  match table with
  | [] => -1
  | l :: rest =>
      if existsb (controls interfaceProcessor attributeIndex) l then i
      else findController rest (i + 1) interfaceProcessor attributeIndex
  end.

Definition getMidiControllerNumber (h : t)
    (interfaceProcessor attributeIndex : Z) : Z :=
  findController (automationData h) 0 interfaceProcessor attributeIndex.

Definition refreshAnyUsedState (h : t) : t :=
  set_anyUsed (existsb (existsb used) (automationData h)) h.

Definition clear (h : t) : t :=
  set_anyUsed false
    (set_unlearnedData new_AutomationData
       (set_automationData ((fun _ => []) <$> automationData h) h)).

(** The constructor: 128 empty arrays, then [clear]. *)
Definition new_MidiControllerAutomationHandler : t :=
  clear (mk (replicate 128 []) new_AutomationData false 0).

(** The inner loop of the functions that count entries: the entry at
    which [index == currentIndex], or else the counter after the array. *)
Fixpoint findInArray (l : list AutomationData) (index currentIndex : Z)
    : AutomationData + Z :=
  match l with
  | [] => inr currentIndex
  | a :: rest =>
      if index =? currentIndex then inl a
      else findInArray rest index (currentIndex + 1)
  end.

Fixpoint findInTable (table : list (list AutomationData))
    (index currentIndex : Z) : option AutomationData :=
  match table with
  | [] => None
  | l :: rest =>
      match findInArray l index currentIndex with
      | inl a => Some a
      | inr c => findInTable rest index c
      end
  end.

Definition getDataFromIndex (h : t) (index : Z) : AutomationData :=
  match findInTable (automationData h) index 0 with
  | Some a => a
  | None => new_AutomationData
  end.

Definition getNumActiveConnections (h : t) : Z :=
  fold_left (fun numActive l => numActive + Z.of_nat (length l))
    (automationData h) 0.

(** The loops of [setNewRangeForParameter] and [setParameterInverted],
    which differ in the assignment [change] only: the array after the
    loop and, when no entry was reached, the counter after it. *)
Fixpoint changeInArray (change : AutomationData -> AutomationData)
    (l : list AutomationData) (index currentIndex : Z)
    : list AutomationData * option Z :=
  match l with
  | [] => ([], Some currentIndex)
  | a :: rest =>
      if index =? currentIndex then (change a :: rest, None)
      else
        let '(rest', c) :=
          changeInArray change rest index (currentIndex + 1) in
        (a :: rest', c)
  end.

Fixpoint changeInTable (change : AutomationData -> AutomationData)
    (table : list (list AutomationData)) (index currentIndex : Z)
    : list (list AutomationData) * bool :=
  match table with
  | [] => ([], false)
  | l :: rest =>
      match changeInArray change l index currentIndex with
      | (l', None) => (l' :: rest, true)
      | (l', Some c) =>
          let '(rest', found) := changeInTable change rest index c in
          (l' :: rest', found)
      end
  end.

Definition setNewRangeForParameter (h : t) (index : Z) (range : Range)
    : t * bool :=
  let '(table, found) :=
    changeInTable (set_parameterRange range) (automationData h) index 0 in
  (set_automationData table h, found).

Definition setParameterInverted (h : t) (index : Z) (value : bool)
    : t * bool :=
  let '(table, found) :=
    changeInTable (set_inverted value) (automationData h) index 0 in
  (set_automationData table h, found).

(** All connections, in the order of the controller numbers. *)
Definition connections (h : t) : list AutomationData :=
  concat (automationData h).

(** What the table of a handler in use satisfies: there are 128 arrays,
    no array has two connections of one parameter, every connection is
    filed under its own controller number, and [anyUsed] is set when a
    connection is in use. *)
Definition distinct (l : list AutomationData) : Prop :=
  forall i j a b,
    l !! i = Some a -> l !! j = Some b -> equals a b = true -> i = j.

Record wellFormed (h : t) : Prop := {
  wf_controllers : length (automationData h) = 128%nat;
  wf_distinct : Forall distinct (automationData h);
  wf_filed :
    forall i l a,
      automationData h !! i = Some l -> In a l -> ccNumber a = Z.of_nat i;
  wf_anyUsed :
    existsb (existsb used) (automationData h) = true -> anyUsed h = true
}.

(** The calls on a handler, and a sequence of them. *)
Inductive Call :=
| AddMidiControlledParameter (interfaceProcessor attributeIndex : Z)
    (range : Range) (macro : Z)
| SetUnlearndedMidiControlNumber (cc : Z) (notify : NotificationType)
| DeactivateMidiLearning
| RefreshAnyUsedState
| Clear
| SetNewRangeForParameter (index : Z) (range : Range)
| SetParameterInverted (index : Z) (value : bool).

Definition call (h : t) (c : Call) : t :=
  match c with
  | AddMidiControlledParameter p a r m => addMidiControlledParameter h p a r m
  | SetUnlearndedMidiControlNumber cc n =>
      setUnlearndedMidiControlNumber h cc n
  | DeactivateMidiLearning => deactivateMidiLearning h
  | RefreshAnyUsedState => refreshAnyUsedState h
  | Clear => clear h
  | SetNewRangeForParameter i r => fst (setNewRangeForParameter h i r)
  | SetParameterInverted i v => fst (setParameterInverted h i v)
  end.

Definition calls (h : t) (cs : list Call) : t := fold_left call cs h.

(** A call that stays inside the 128 arrays. *)
Definition inRange (c : Call) : Prop :=
  match c with
  | SetUnlearndedMidiControlNumber cc _ => 0 <= cc < 128
  | _ => True
  end.

End Table.

Arguments mkData {Range}.
Arguments processor {Range}.
Arguments attribute {Range}.
Arguments parameterRange {Range}.
Arguments fullRange {Range}.
Arguments macroIndex {Range}.
Arguments ccNumber {Range}.
Arguments used {Range}.
Arguments inverted {Range}.
Arguments set_parameterRange {Range}.
Arguments set_ccNumber {Range}.
Arguments set_inverted {Range}.
Arguments equals {Range}.
Arguments controls {Range}.
Arguments contains {Range}.
Arguments addIfNotAlreadyThere {Range}.
Arguments mk {Range}.
Arguments automationData {Range}.
Arguments unlearnedData {Range}.
Arguments anyUsed {Range}.
Arguments changeMessages {Range}.
Arguments addMidiControlledParameter {Range}.
Arguments isLearningActive {Range}.
Arguments isLearningActiveFor {Range}.
Arguments findController {Range}.
Arguments getMidiControllerNumber {Range}.
Arguments refreshAnyUsedState {Range}.
Arguments getNumActiveConnections {Range}.
Arguments connections {Range}.
Arguments distinct {Range}.
Arguments wellFormed {Range}.
Arguments inRange {Range}.
Arguments findInArray {Range}.
Arguments findInTable {Range}.
Arguments changeInArray {Range}.
Arguments changeInTable {Range}.
Arguments setNewRangeForParameter {Range}.
Arguments setParameterInverted {Range}.
Arguments new_AutomationData {Range}.
Arguments deactivateMidiLearning {Range}.
Arguments setUnlearndedMidiControlNumber {Range}.
Arguments clear {Range}.
Arguments new_MidiControllerAutomationHandler {Range}.
Arguments getDataFromIndex {Range}.
Arguments set_automationData {Range}.
Arguments set_unlearnedData {Range}.
Arguments set_anyUsed {Range}.
Arguments sendChangeMessage {Range}.
Arguments AddMidiControlledParameter {Range}.
Arguments SetUnlearndedMidiControlNumber {Range}.
Arguments DeactivateMidiLearning {Range}.
Arguments RefreshAnyUsedState {Range}.
Arguments Clear {Range}.
Arguments SetNewRangeForParameter {Range}.
Arguments SetParameterInverted {Range}.
Arguments call {Range}.
Arguments calls {Range}.

End MidiControllerAutomationHandler.

(** A handler on which two parameters of the processor at address 4096
    were learned, attribute 2 on controller 7 and attribute 3 on
    controller 1. A range is the pair of its bounds here. *)
Definition demoCalls : list (MidiControllerAutomationHandler.Call (Z * Z)) :=
  [MidiControllerAutomationHandler.AddMidiControlledParameter
     4096 2 (0, 10) (-1);
   MidiControllerAutomationHandler.SetUnlearndedMidiControlNumber
     7 MidiControllerAutomationHandler.sendNotification;
   MidiControllerAutomationHandler.AddMidiControlledParameter
     4096 3 (20, 20000) (-1);
   MidiControllerAutomationHandler.SetUnlearndedMidiControlNumber
     1 MidiControllerAutomationHandler.dontSendNotification].

Definition demoHandler : MidiControllerAutomationHandler.t (Z * Z) :=
  MidiControllerAutomationHandler.calls (0, 1) (-1)
    (MidiControllerAutomationHandler.new_MidiControllerAutomationHandler
       (0, 1) (-1))
    demoCalls.


(* ===================================================================== *)
(** ** Basic facts *)
(* ===================================================================== *)

Lemma toInt_isInt v : isInt (toInt v).
Proof.
  unfold isInt, toInt.
  pose proof (Z.mod_pos_bound (v + 2 ^ 31) (2 ^ 32) ltac:(lia)). lia.
Qed.

Lemma toInt_id v : isInt v -> toInt v = v.
Proof.
  unfold isInt, toInt. intros H. rewrite Z.mod_small by lia. lia.
Qed.

Lemma read_int_isInt d p : isInt (read_int d p).
Proof. apply toInt_isInt. Qed.

Lemma Types_eqb_eq a b : Types.eqb a b = true <-> a = b.
Proof. destruct a, b; simpl; split; intros H; try reflexivity; discriminate H. Qed.

Lemma TypeInfo_eqb_eq a : forall b, TypeInfo_eqb a b = true <-> a = b.
Proof.
  induction a as [x | e IH n | x]; intros [y | e' n' | y]; simpl;
    try (split; intros H; discriminate H).
  - rewrite Types_eqb_eq. split; intros H; [subst | injection H]; auto.
  - rewrite andb_true_iff, IH, Nat.eqb_eq.
    split; [intros [-> ->] | intros H; injection H]; auto.
  - rewrite String.eqb_eq. split; intros H; [subst | injection H]; auto.
Qed.

Lemma Symbol_eqb_refl s : Symbol.eqb s s = true.
Proof.
  unfold Symbol.eqb, NamespacedIdentifier_eqb.
  apply bool_decide_eq_true. reflexivity.
Qed.

Lemma State_eqb_eq a b : State_eqb a b = true <-> a = b.
Proof. destruct a, b; simpl; split; intros H; try reflexivity; discriminate H. Qed.

Lemma X86Mem_eqb_eq a b : X86Mem_eqb a b = true <-> a = b.
Proof. unfold X86Mem_eqb. apply bool_decide_eq_true. Qed.

(* ===================================================================== *)
(** ** The handle state machine *)
(* ===================================================================== *)

Ltac split_ifs :=
  repeat (simpl;
          match goal with
          | |- context [if ?b then _ else _] => destruct b eqn:?
          end);
  simpl.

Section HandleFacts.

Context (compiler : BaseCompiler) (scopes : ScopeTree) (data : DataMemory).
Context (createValid64BitPointer :
           X86Compiler -> X86Mem -> Z -> nat -> X86Compiler * X86Mem).

#[local] Abbreviation load := (loadMemoryIntoRegister compiler scopes data
                                 createValid64BitPointer).
#[local] Abbreviation write := (getRegisterForWriteOp scopes).

(** *** What each member function leaves alone *)

Lemma createMemoryLocation_dirty e r :
  dirty (snd (createMemoryLocation compiler scopes data e r)) = dirty r.
Proof. unfold createMemoryLocation. cbv zeta. split_ifs; reflexivity. Qed.

Lemma createRegister_dirty e r :
  dirty (snd (createRegister compiler e r)) = dirty r.
Proof. unfold createRegister. cbv zeta. split_ifs; reflexivity. Qed.

Lemma loadMemoryIntoRegister_dirty e force r :
  dirty (snd (load e force r)) = dirty r.
Proof.
  unfold loadMemoryIntoRegister.
  destruct (negb force && isValid (reg r)); [reflexivity |].
  destruct (State_eqb (state r) UnloadedMemoryLocation).
  - pose proof (createMemoryLocation_dirty e r) as Hm.
    destruct (createMemoryLocation compiler scopes data e r) as [e1 r1].
    simpl in Hm.
    destruct (negb force && State_eqb (state r1) ActiveRegister); [exact Hm |].
    pose proof (createRegister_dirty e1 r1) as Hr.
    destruct (createRegister compiler e1 r1) as [e2 r2]. simpl in *. congruence.
  - destruct (negb force && State_eqb (state r) ActiveRegister); [reflexivity |].
    pose proof (createRegister_dirty e r) as Hr.
    destruct (createRegister compiler e r) as [e2 r2]. simpl in *. congruence.
Qed.

Lemma write_reg r : reg (fst (write r)) = reg r.
Proof. unfold getRegisterForWriteOp. cbv zeta. split_ifs; reflexivity. Qed.

Lemma write_binding r :
  scope (fst (write r)) = scope r /\ id (fst (write r)) = id r
  /\ hasCustomMem (fst (write r)) = hasCustomMem r
  /\ globalMemory (fst (write r)) = globalMemory r.
Proof. unfold getRegisterForWriteOp. cbv zeta. split_ifs; repeat split. Qed.

Lemma write_isGlobalMemory r :
  isGlobalMemory scopes (fst (write r)) = isGlobalMemory scopes r.
Proof.
  destruct (write_binding r) as (Hs & Hi & Hc & Hg).
  unfold isGlobalMemory, isGlobalVariableRegister. congruence.
Qed.

Lemma write_global r :
  isGlobalMemory scopes r = true ->
  dirty (fst (write r)) = true /\ state (fst (write r)) = DirtyGlobalRegister.
Proof.
  intros Hg. unfold getRegisterForWriteOp. rewrite Hg. cbv zeta.
  split_ifs; split; reflexivity.
Qed.

Lemma setUndirty_binding r :
  scope (setUndirty r) = scope r /\ id (setUndirty r) = id r
  /\ hasCustomMem (setUndirty r) = hasCustomMem r
  /\ globalMemory (setUndirty r) = globalMemory r.
Proof. unfold setUndirty. split_ifs; repeat split. Qed.

Lemma setUndirty_registerResident r :
  dirty r = true -> isActiveOrDirtyGlobalRegister r = true ->
  dirty (setUndirty r) = false /\ state (setUndirty r) = ActiveRegister.
Proof. intros Hd Ha. unfold setUndirty. rewrite Hd, Ha. split; reflexivity. Qed.

(** *** Every member function assigns one of the four states *)

Lemma createMemoryLocation_state e r :
  state (snd (createMemoryLocation compiler scopes data e r))
  = LoadedMemoryLocation.
Proof. unfold createMemoryLocation. cbv zeta. split_ifs; reflexivity. Qed.

Lemma createRegister_state e r :
  state (snd (createRegister compiler e r))
  = if isValid (reg r) then state r else ActiveRegister.
Proof. unfold createRegister. cbv zeta. split_ifs; reflexivity. Qed.

Lemma loadMemoryIntoRegister_state e force r :
  inDefinedState r -> inDefinedState (snd (load e force r)).
Proof.
  intros Hr. unfold loadMemoryIntoRegister.
  destruct (negb force && isValid (reg r)); [exact Hr |].
  destruct (State_eqb (state r) UnloadedMemoryLocation).
  - pose proof (createMemoryLocation_state e r) as Hm.
    destruct (createMemoryLocation compiler scopes data e r) as [e1 r1].
    simpl in Hm.
    destruct (negb force && State_eqb (state r1) ActiveRegister).
    + right; left; exact Hm.
    + destruct (createRegister compiler e1 r1) as [e2 r2].
      right; right; left; reflexivity.
  - destruct (negb force && State_eqb (state r) ActiveRegister); [exact Hr |].
    destruct (createRegister compiler e r) as [e2 r2].
    right; right; left; reflexivity.
Qed.

Lemma write_state r : inDefinedState r -> inDefinedState (fst (write r)).
Proof.
  unfold inDefinedState, getRegisterForWriteOp. cbv zeta.
  split_ifs; simpl; tauto.
Qed.

Lemma setUndirty_state r : inDefinedState r -> inDefinedState (setUndirty r).
Proof. unfold inDefinedState, setUndirty. split_ifs; simpl; tauto. Qed.

Lemma definedStateCount_one r : inDefinedState r <-> definedStateCount r = 1%nat.
Proof.
  unfold inDefinedState, definedStateCount, isUnmaterialized,
    isMemoryLocation, isActive, isDirtyGlobalRegister.
  destruct (state r); simpl; split; intros H; try reflexivity;
    try discriminate H; try tauto.
  destruct H as [H | [H | [H | H]]]; discriminate H.
Qed.

End HandleFacts.

(* ===================================================================== *)
(** ** The store and the pool *)
(* ===================================================================== *)

Lemma lookup_update p q f P :
  objects (update p f P) !! q
  = if decide (p = q) then f <$> objects P !! q else objects P !! q.
Proof.
  unfold update. simpl. rewrite lookup_alter.
  destruct (decide (p = q)); [subst |]; reflexivity.
Qed.

Lemma lookup_update_eq p f P r :
  objects P !! p = Some r -> objects (update p f P) !! p = Some (f r).
Proof. intros H. rewrite lookup_update, decide_True, H; reflexivity. Qed.

Lemma lookup_update_ne p q f P :
  p <> q -> objects (update p f P) !! q = objects P !! q.
Proof. intros H. rewrite lookup_update, decide_False; auto. Qed.

Lemma update_pool p f P :
  currentRegisterPool (update p f P) = currentRegisterPool P.
Proof. reflexivity. Qed.

Lemma update_nextAddress p f P : nextAddress (update p f P) = nextAddress P.
Proof. reflexivity. Qed.

Lemma query_update_eq p f g P r :
  objects P !! p = Some r -> query (update p f P) g p = g (f r).
Proof. intros H. unfold query. rewrite (lookup_update_eq _ _ _ _ H). reflexivity. Qed.

Lemma query_update_ne p q f g P :
  p <> q -> query (update p f P) g q = query P g q.
Proof. intros H. unfold query. rewrite lookup_update_ne; auto. Qed.

(** A query that does not look at what [f] changes. *)
Lemma query_update_invariant p f g P :
  (forall r, g (f r) = g r) -> forall q, query (update p f P) g q = query P g q.
Proof.
  intros Hg q. unfold query. rewrite lookup_update.
  destruct (decide (p = q)); [| reflexivity].
  destruct (objects P !! q); simpl; auto.
Qed.

Lemma is_Some_update p f P q :
  is_Some (objects (update p f P) !! q) <-> is_Some (objects P !! q).
Proof.
  rewrite lookup_update. destruct (decide (p = q)); [| reflexivity].
  rewrite fmap_is_Some. reflexivity.
Qed.

Lemma contains_In l p : contains l p = true <-> In p l.
Proof.
  unfold contains. rewrite existsb_exists. split.
  - intros (x & Hx & He). apply Nat.eqb_eq in He. subst. exact Hx.
  - intros H. exists p. split; [exact H | apply Nat.eqb_refl].
Qed.

Lemma remove_first_In p q l : In q (remove_first p l) -> In q l.
Proof.
  induction l as [| x l IH]; simpl; [tauto |].
  destruct (Nat.eqb x p); simpl; tauto.
Qed.

Lemma remove_first_sorted p l :
  StronglySorted lt l -> StronglySorted lt (remove_first p l).
Proof.
  induction 1 as [| x l Hs IH Hx]; simpl; [constructor |].
  destruct (Nat.eqb x p); [exact Hs |].
  constructor; [exact IH |].
  rewrite Forall_forall in *. intros y Hy. apply Hx.
  apply list_elem_of_In. apply list_elem_of_In in Hy.
  eapply remove_first_In; eauto.
Qed.

Lemma sorted_NoDup l : StronglySorted lt l -> NoDup l.
Proof.
  induction 1 as [| x l Hs IH Hx]; constructor; [| exact IH].
  intros Hin. rewrite Forall_forall in Hx. specialize (Hx _ Hin). lia.
Qed.

Lemma remove_first_NoDup_gone p l : NoDup l -> ~ In p (remove_first p l).
Proof.
  induction 1 as [| x l Hx Hn IH]; simpl; [tauto |].
  destruct (Nat.eqb x p) eqn:E.
  - apply Nat.eqb_eq in E. subst. rewrite <- list_elem_of_In. exact Hx.
  - apply Nat.eqb_neq in E. simpl. tauto.
Qed.

Lemma remove_first_absent p l : ~ In p l -> remove_first p l = l.
Proof.
  induction l as [| x l IH]; simpl; [reflexivity |].
  intros H. destruct (Nat.eqb x p) eqn:E.
  - apply Nat.eqb_eq in E. tauto.
  - f_equal. apply IH. tauto.
Qed.

Section PoolFacts.

Context (scopes : ScopeTree).

#[local] Abbreviation dirtyGlobals := (getListOfAllDirtyGlobals scopes).

Lemma dirtyGlobals_In P p :
  In p (dirtyGlobals P)
  <-> In p (currentRegisterPool P)
      /\ query P (isDirtyGlobalMemory scopes) p = true.
Proof. unfold getListOfAllDirtyGlobals. apply filter_In. Qed.

Lemma dirtyGlobals_NoDup P :
  NoDup (currentRegisterPool P) -> NoDup (dirtyGlobals P).
Proof.
  unfold getListOfAllDirtyGlobals.
  induction 1 as [| x l Hx Hn IH]; simpl; [constructor |].
  destruct (query P (isDirtyGlobalMemory scopes) x); [| exact IH].
  constructor; [| exact IH].
  rewrite list_elem_of_In, filter_In. rewrite list_elem_of_In in Hx. tauto.
Qed.

Lemma dirtyGlobals_sublist P :
  dirtyGlobals P `sublist_of` currentRegisterPool P.
Proof.
  unfold getListOfAllDirtyGlobals.
  induction (currentRegisterPool P) as [| x l IH]; simpl; [constructor |].
  destruct (query P (isDirtyGlobalMemory scopes) x); by constructor.
Qed.

Lemma dirtyGlobals_count P p :
  NoDup (currentRegisterPool P) ->
  count_occ Nat.eq_dec (dirtyGlobals P) p
  = if contains (currentRegisterPool P) p
       && query P (isDirtyGlobalMemory scopes) p
    then 1%nat else 0%nat.
Proof.
  intros Hn.
  destruct (contains (currentRegisterPool P) p
            && query P (isDirtyGlobalMemory scopes) p) eqn:E.
  - apply andb_true_iff in E. destruct E as [Hc Hq].
    apply contains_In in Hc.
    apply (proj1 (NoDup_count_occ' Nat.eq_dec _)
             (proj1 (NoDup_ListNoDup _) (dirtyGlobals_NoDup P Hn))).
    apply dirtyGlobals_In. split; assumption.
  - apply count_occ_not_In. rewrite dirtyGlobals_In. intros [Hc Hq].
    apply contains_In in Hc. rewrite Hc, Hq in E. discriminate E.
Qed.

End PoolFacts.

(* ===================================================================== *)
(** ** Invariants of the pool *)
(* ===================================================================== *)

Lemma pool_wf_NoDup P : pool_wf P -> NoDup (currentRegisterPool P).
Proof. intros [Hs _ _]. apply sorted_NoDup, Hs. Qed.

Lemma pool_wf_empty : pool_wf emptyPool.
Proof.
  split; simpl.
  - constructor.
  - constructor.
  - intros p. rewrite lookup_empty. split; [intros [x Hx]; discriminate Hx | lia].
Qed.

Lemma pool_wf_update p f P : pool_wf P -> pool_wf (update p f P).
Proof.
  intros [Hs Hb Ha]. split.
  - exact Hs.
  - exact Hb.
  - intros q. rewrite is_Some_update. apply Ha.
Qed.

Lemma pool_wf_set_pool l P :
  StronglySorted lt l -> (forall q, In q l -> In q (currentRegisterPool P)) ->
  pool_wf P -> pool_wf (set_currentRegisterPool l P).
Proof.
  intros Hl Hin [Hs Hb Ha]. split; simpl.
  - exact Hl.
  - rewrite Forall_forall in *. intros q Hq. apply Hb.
    apply list_elem_of_In, Hin, list_elem_of_In, Hq.
  - exact Ha.
Qed.

Lemma pool_wf_removeObject p P : pool_wf P -> pool_wf (removeObject p P).
Proof.
  intros Hw. unfold removeObject.
  destruct (contains (currentRegisterPool P) p); [| exact Hw].
  apply pool_wf_update, pool_wf_set_pool; [| | exact Hw].
  - apply remove_first_sorted, Hw.
  - intros q. apply remove_first_In.
Qed.

Lemma fold_decReferenceCount_pool l P :
  currentRegisterPool (fold_right decReferenceCount P l) = currentRegisterPool P
  /\ nextAddress (fold_right decReferenceCount P l) = nextAddress P
  /\ forall q, is_Some (objects (fold_right decReferenceCount P l) !! q)
               <-> is_Some (objects P !! q).
Proof.
  induction l as [| x l (IH1 & IH2 & IH3)]; simpl; [tauto |].
  split; [exact IH1 |]. split; [exact IH2 |].
  intros q. rewrite <- IH3.
  apply (is_Some_update x _ (fold_right decReferenceCount P l)).
Qed.

Lemma pool_wf_clear P : pool_wf P -> pool_wf (clear P).
Proof.
  intros [Hs Hb Ha]. unfold clear.
  destruct (fold_decReferenceCount_pool (currentRegisterPool P) P)
    as (H1 & H2 & H3).
  split; simpl.
  - constructor.
  - constructor.
  - intros q. rewrite H3, H2. apply Ha.
Qed.

Lemma pool_wf_getNextFreeRegister P s t :
  pool_wf P -> pool_wf (fst (getNextFreeRegister P s t)).
Proof.
  intros [Hs Hb Ha]. unfold getNextFreeRegister. simpl.
  apply pool_wf_update. split; simpl.
  - apply StronglySorted_app_2; [| exact Hs | repeat constructor].
    intros x y Hx Hy. apply list_elem_of_singleton in Hy. subst.
    rewrite Forall_forall in Hb. apply Hb, Hx.
  - apply Forall_app. split.
    + eapply Forall_impl; [exact Hb |]. simpl. intros; lia.
    + repeat constructor.
  - intros q. rewrite lookup_insert_is_Some, Ha. destruct (decide (nextAddress P = q)); lia.
Qed.

Section PoolInvariants.

Context (compiler : BaseCompiler) (scopes : ScopeTree) (data : DataMemory).
Context (createValid64BitPointer :
           X86Compiler -> X86Mem -> Z -> nat -> X86Compiler * X86Mem).

Lemma pool_wf_getRegisterForVariable P s y :
  pool_wf P -> pool_wf (fst (getRegisterForVariable scopes P s y)).
Proof.
  intros Hw. unfold getRegisterForVariable.
  destruct (find _ _).
  - apply pool_wf_update, Hw.
  - pose proof (pool_wf_getNextFreeRegister P s (Symbol.typeInfo y) Hw) as H.
    destruct (getNextFreeRegister P s (Symbol.typeInfo y)) as [P1 n].
    apply pool_wf_update, H.
Qed.

Lemma pool_wf_removeIfUnreferenced p P :
  pool_wf P -> pool_wf (removeIfUnreferenced p P).
Proof.
  intros Hw. unfold removeIfUnreferenced. apply pool_wf_update.
  destruct (Nat.eqb _ 2).
  - apply pool_wf_removeObject, pool_wf_update, Hw.
  - apply pool_wf_update, Hw.
Qed.

Lemma pool_wf_getRegisterWithMemory P p :
  pool_wf P -> pool_wf (fst (getRegisterWithMemory P p)).
Proof.
  intros Hw. unfold getRegisterWithMemory.
  destruct (negb _); [apply pool_wf_update, Hw |].
  destruct (objects P !! p); [| apply pool_wf_update, Hw].
  destruct (find _ _); repeat apply pool_wf_update; exact Hw.
Qed.

Lemma pool_wf_onHandle p f c :
  pool_wf (registerPool c) -> pool_wf (registerPool (onHandle p f c)).
Proof.
  intros Hw. unfold onHandle.
  destruct (objects (registerPool c) !! p); [| exact Hw].
  destruct (f (cc c) a). apply pool_wf_update, Hw.
Qed.

Lemma pool_wf_step op c :
  pool_wf (registerPool c) ->
  pool_wf (registerPool
             (step compiler scopes data createValid64BitPointer op c)).
Proof.
  intros Hw.
  destruct op; simpl;
    first [ apply pool_wf_onHandle, Hw
          | apply pool_wf_update, Hw
          | apply pool_wf_getRegisterForVariable, Hw
          | apply pool_wf_removeIfUnreferenced, Hw
          | apply pool_wf_getRegisterWithMemory, Hw
          | apply pool_wf_clear, Hw ].
Qed.

(** Every pool code generation can build is well formed. *)
Lemma pool_wf_run ops : forall c,
  pool_wf (registerPool c) ->
  pool_wf (registerPool
             (run compiler scopes data createValid64BitPointer ops c)).
Proof.
  induction ops as [| op ops IH]; intros c Hw; simpl; [exact Hw |].
  apply IH, pool_wf_step, Hw.
Qed.

End PoolInvariants.

Lemma all_handles_update Q p f P :
  (forall r, Q r -> Q (f r)) -> all_handles Q P -> all_handles Q (update p f P).
Proof.
  intros Hf HP q r. rewrite lookup_update.
  destruct (decide (p = q)); [| apply HP].
  destruct (objects P !! q) as [r0 |] eqn:E; simpl; intros Heq;
    [| discriminate Heq].
  injection Heq as <-. apply Hf. eapply HP; eauto.
Qed.

Lemma all_handles_set_pool Q l P :
  all_handles Q P -> all_handles Q (set_currentRegisterPool l P).
Proof. intros HP q r. apply HP. Qed.

Lemma all_handles_fold_dec Q l P :
  (forall r n, Q r -> Q (set_refCount n r)) ->
  all_handles Q P -> all_handles Q (fold_right decReferenceCount P l).
Proof.
  intros Hq HP. induction l as [| x l IH]; simpl; [exact HP |].
  apply all_handles_update; [| exact IH]. intros r. apply Hq.
Qed.

Section StateInvariant.

Context (compiler : BaseCompiler) (scopes : ScopeTree) (data : DataMemory).
Context (createValid64BitPointer :
           X86Compiler -> X86Mem -> Z -> nat -> X86Compiler * X86Mem).

#[local] Abbreviation defined := (all_handles inDefinedState).

Lemma defined_refCount r n : inDefinedState r -> inDefinedState (set_refCount n r).
Proof. exact (fun H => H). Qed.

Lemma defined_removeObject p P : defined P -> defined (removeObject p P).
Proof.
  intros H. unfold removeObject. destruct (contains _ _); [| exact H].
  apply all_handles_update; [intros r; apply defined_refCount |].
  apply all_handles_set_pool, H.
Qed.

Lemma defined_getRegisterForVariable P s y :
  defined P -> defined (fst (getRegisterForVariable scopes P s y)).
Proof.
  intros H. unfold getRegisterForVariable. destruct (find _ _); simpl.
  - apply all_handles_update; [intros r; apply defined_refCount | exact H].
  - apply all_handles_update.
    { intros r. unfold setReference. destruct (getScopeForSymbol _ _ _); exact (fun H => H). }
    apply all_handles_update; [intros r; apply defined_refCount |].
    intros q r. simpl. rewrite lookup_insert.
    destruct (decide (nextAddress P = q)); [| apply H].
    intros [= <-]. left. reflexivity.
Qed.

Lemma defined_removeIfUnreferenced p P :
  defined P -> defined (removeIfUnreferenced p P).
Proof.
  intros H. unfold removeIfUnreferenced.
  apply all_handles_update; [intros r; apply defined_refCount |].
  destruct (Nat.eqb _ 2); [apply defined_removeObject |];
    (apply all_handles_update; [intros r; apply defined_refCount | exact H]).
Qed.

Lemma defined_getRegisterWithMemory P p :
  defined P -> defined (fst (getRegisterWithMemory P p)).
Proof.
  intros H. unfold getRegisterWithMemory.
  destruct (negb _); simpl;
    [apply all_handles_update; [intros r; apply defined_refCount | exact H] |].
  destruct (objects P !! p); simpl;
    [| apply all_handles_update; [intros r; apply defined_refCount | exact H]].
  destruct (find _ _); simpl.
  - apply all_handles_update; [intros r; apply defined_refCount |].
    apply all_handles_update; [intros r Hr; exact Hr | exact H].
  - apply all_handles_update; [intros r; apply defined_refCount | exact H].
Qed.

Lemma defined_onHandle p f c :
  (forall e r, inDefinedState r -> inDefinedState (snd (f e r))) ->
  defined (registerPool c) -> defined (registerPool (onHandle p f c)).
Proof.
  intros Hf H. unfold onHandle.
  destruct (objects (registerPool c) !! p) as [r |] eqn:E; [| exact H].
  pose proof (Hf (cc c) r (H _ _ E)) as Hr.
  destruct (f (cc c) r) as [e' r']. simpl in *.
  intros q x. rewrite lookup_update.
  destruct (decide (p = q)); [| apply H].
  subst. rewrite E. simpl. intros [= <-]. exact Hr.
Qed.

Lemma defined_step op c :
  defined (registerPool c) ->
  defined (registerPool
             (step compiler scopes data createValid64BitPointer op c)).
Proof.
  intros H. destruct op; simpl.
  - apply defined_getRegisterForVariable, H.
  - apply defined_onHandle; [| exact H].
    intros e r. apply loadMemoryIntoRegister_state.
  - apply all_handles_update; [intros r Hr; exact Hr | exact H].
  - apply all_handles_update; [apply write_state | exact H].
  - apply all_handles_update; [apply setUndirty_state | exact H].
  - apply defined_removeIfUnreferenced, H.
  - apply defined_getRegisterWithMemory, H.
  - apply all_handles_update; [| exact H]. intros r _. right; left; reflexivity.
  - apply all_handles_update; [| exact H]. intros r _. left; reflexivity.
  - apply all_handles_update; [| exact H]. intros r _. left; reflexivity.
  - apply all_handles_update; [| exact H]. intros r _. right; left; reflexivity.
  - apply defined_onHandle; [| exact H].
    intros e r _. right; left. apply createMemoryLocation_state.
  - apply defined_onHandle; [| exact H].
    intros e r Hr. unfold inDefinedState. rewrite createRegister_state.
    destruct (isValid (reg r)); [exact Hr | right; right; left; reflexivity].
  - apply all_handles_update; [intros r Hr; exact Hr | exact H].
  - apply all_handles_update; [intros r; apply defined_refCount | exact H].
  - unfold clear. apply all_handles_set_pool, all_handles_fold_dec;
      [intros r n; apply defined_refCount | exact H].
Qed.

Lemma defined_run ops : forall c,
  defined (registerPool c) ->
  defined (registerPool
             (run compiler scopes data createValid64BitPointer ops c)).
Proof.
  induction ops as [| op ops IH]; intros c H; simpl; [exact H |].
  apply IH, defined_step, H.
Qed.

(** C9. After every sequence of resolve, materialize, write, release and
    the other calls code generation makes, each handle of the store is in
    one of the four states Unmaterialized ([UnloadedMemoryLocation]),
    MemoryResident ([LoadedMemoryLocation]), RegisterResident
    ([ActiveRegister]) and [DirtyGlobalRegister], and in exactly one of
    them: the state the sources name for recycled registers is never
    entered. *)
Theorem C9_exactly_one_of_four_states :
  forall (ops : list Op) (p : RegPtr) (r : AssemblyRegister),
    objects (registerPool
               (run compiler scopes data createValid64BitPointer ops
                  initialCodegen)) !! p = Some r ->
    inDefinedState r /\ definedStateCount r = 1%nat
    /\ state r <> ReusableRegister.
Proof.
  intros ops p r Hp.
  assert (Hd : inDefinedState r).
  { eapply (defined_run ops initialCodegen); [| exact Hp].
    intros q x. simpl. rewrite lookup_empty. intros [=]. }
  split; [exact Hd |]. split; [apply definedStateCount_one, Hd |].
  destruct Hd as [H | [H | [H | H]]]; rewrite H; discriminate.
Qed.

End StateInvariant.

(* ===================================================================== *)
(** ** Materialisation, writes and rebinding of one handle *)
(* ===================================================================== *)

Lemma loadCount_emit i e :
  loadCount (emit i e)
  = (loadCount e + if isMemoryLoad i then 1 else 0)%nat.
Proof.
  unfold loadCount, emit. simpl. rewrite filter_app, length_app.
  f_equal. destruct i; reflexivity.
Qed.

Section HandleClaims.

Context (compiler : BaseCompiler) (scopes : ScopeTree) (data : DataMemory).
Context (createValid64BitPointer :
           X86Compiler -> X86Mem -> Z -> nat -> X86Compiler * X86Mem).

#[local] Abbreviation load := (loadMemoryIntoRegister compiler scopes data
                                 createValid64BitPointer).
#[local] Abbreviation write := (getRegisterForWriteOp scopes).

(** C8. Materialisation is idempotent unless a reload is forced: on a
    handle that already holds a valid register, [loadMemoryIntoRegister]
    with [forceLoad = false] returns at once; the emitter (its register
    supply, its constant pool and its instruction stream) and the handle
    (its state included) are as before the call. *)
Theorem C8_materialisation_idempotent :
  forall (e : X86Compiler) (r : AssemblyRegister),
    isValid (reg r) = true ->
    load e false r = (e, r).
Proof.
  intros e r Hv. unfold loadMemoryIntoRegister. rewrite Hv. reflexivity.
Qed.

(** C10. Rebinding the memory operand of a handle with
    [setCustomMemoryLocation] clears the dirty flag, discards the register
    and sets the state to [LoadedMemoryLocation], whatever the handle was
    before; the handle is therefore no dirty global any more, the pool
    does not list it among the dirty globals, and a later flush finds
    nothing to do: a write-back that was pending is dropped. *)
Theorem C10_rebinding_drops_pending_write_back :
  forall (r : AssemblyRegister) (newLocation : X86Mem) (isGlobal : bool)
         (P : AssemblyRegisterPool) (p : RegPtr),
    let r' := setCustomMemoryLocation newLocation isGlobal r in
    dirty r' = false /\ reg r' = None /\ state r' = LoadedMemoryLocation
    /\ memory r' = newLocation /\ hasCustomMem r' = true
    /\ isDirtyGlobalMemory scopes r' = false
    /\ setUndirty r' = r'
    /\ count_occ Nat.eq_dec
         (getListOfAllDirtyGlobals scopes
            (update p (setCustomMemoryLocation newLocation isGlobal) P)) p
       = 0%nat.
Proof.
  intros r newLocation isGlobal P p r'. repeat split.
  apply count_occ_not_In. rewrite dirtyGlobals_In. intros [_ Hq].
  unfold query in Hq. rewrite lookup_update, decide_True in Hq by reflexivity.
  destruct (objects P !! p); simpl in Hq; discriminate Hq.
Qed.


(** C6, as the code has it. A handle that holds an integer immediate set
    with [setImmediateValue], and that is not bound to a non-constant
    global variable, never receives a memory operand: [createMemoryLocation]
    moves it to [LoadedMemoryLocation] but emits nothing and leaves
    [hasCustomMem] cleared; materialising it emits one move of the
    immediate into its register and no memory load, and leaves it in
    [ActiveRegister]. The immediate is the value the handle holds: the
    value given, converted to the [int] member, which is the value given
    whenever that is the value of an [int]. *)
Theorem C6_immediate_materialisation :
  forall (e : X86Compiler) (forceLoad : bool) (r : AssemblyRegister) (v : Z),
    getType compiler r = Types.Integer ->
    isGlobalVariableRegister scopes r && negb (Symbol.isConst (id r)) = false ->
    let h := setImmediateValue v r in
    state h = UnloadedMemoryLocation /\ hasCustomMem h = false
    /\ getImmediateIntValue h = toInt v
    /\ isInt (getImmediateIntValue h)
    /\ (isInt v -> getImmediateIntValue h = v)
    /\ createMemoryLocation compiler scopes data e h
       = (e, set_state LoadedMemoryLocation
               (set_isZeroValue (toInt v =? 0) h))
    /\ state (snd (load e forceLoad h)) = ActiveRegister
    /\ hasCustomMem (snd (load e forceLoad h)) = false
    /\ isValid (reg (snd (load e forceLoad h))) = true
    /\ instructions (fst (load e forceLoad h))
       = instructions e
         ++ [mov_ri (reg (snd (load e forceLoad h))) (toInt v)]
    /\ loadCount (fst (load e forceLoad h)) = loadCount e.
Proof.
  intros e forceLoad r v Ht Hg h.
  assert (Hm : createMemoryLocation compiler scopes data e h
               = (e, set_state LoadedMemoryLocation
                       (set_isZeroValue (toInt v =? 0) h))).
  { unfold createMemoryLocation, getType, isGlobalVariableRegister in *.
    repeat (simpl; rewrite ?Ht, ?Hg). reflexivity. }
  split; [reflexivity |]. split; [reflexivity |]. split; [reflexivity |].
  split; [apply toInt_isInt |].
  split; [intros Hv; exact (toInt_id v Hv) |].
  split; [exact Hm |].
  unfold loadMemoryIntoRegister.
  replace (isValid (reg h)) with false by reflexivity.
  rewrite andb_false_r.
  replace (State_eqb (state h) UnloadedMemoryLocation) with true by reflexivity.
  rewrite Hm.
  replace (State_eqb (state (set_state LoadedMemoryLocation
            (set_isZeroValue (toInt v =? 0) h))) ActiveRegister)
    with false by reflexivity.
  rewrite andb_false_r.
  unfold createRegister, getType in *. repeat (simpl; rewrite ?Ht).
  destruct (TypeInfo_eqb (type r) (NativeType Types.Block));
    repeat (simpl; rewrite ?Ht); unfold loadCount; simpl;
    rewrite filter_app, length_app; simpl; repeat split; lia.
Qed.

End HandleClaims.

(* ===================================================================== *)
(** ** Dirty globals *)
(* ===================================================================== *)

Lemma filter_sorted (f : nat -> bool) l :
  StronglySorted lt l -> StronglySorted lt (List.filter f l).
Proof.
  induction 1 as [| x l Hs IH Hx]; simpl; [constructor |].
  destruct (f x); [| exact IH].
  constructor; [exact IH |].
  rewrite Forall_forall in *. intros y Hy. apply Hx.
  apply list_elem_of_In. apply list_elem_of_In, filter_In in Hy. tauto.
Qed.

Section DirtyGlobals.

Context (compiler : BaseCompiler) (scopes : ScopeTree) (data : DataMemory).
Context (createValid64BitPointer :
           X86Compiler -> X86Mem -> Z -> nat -> X86Compiler * X86Mem).

#[local] Abbreviation load := (loadMemoryIntoRegister compiler scopes data
                                 createValid64BitPointer).
#[local] Abbreviation write := (getRegisterForWriteOp scopes).
#[local] Abbreviation dirtyGlobals := (getListOfAllDirtyGlobals scopes).

Lemma update_unchanged p f P r :
  objects P !! p = Some r -> f r = r -> update p f P = P.
Proof.
  intros Hp Hf. unfold update, set_objects.
  rewrite alter_id by (intros x Hx; congruence).
  destruct P; reflexivity.
Qed.

(** C1, as the code has it. For a handle of the pool: a write to a handle
    bound to global storage sets its dirty flag and moves it to
    [DirtyGlobalRegister]; the handle is listed by
    [getListOfAllDirtyGlobals] exactly once while it is dirty and bound to
    global storage, and not otherwise. A flush that finds the handle in
    [ActiveRegister] or [DirtyGlobalRegister], as the flush that follows
    the write does, clears the flag, leaves a handle that was dirty in
    [ActiveRegister] and takes it off the list. A flush that finds it in
    another state changes nothing: [setDataPointer], [setImmediateValue]
    and [createMemoryLocation] take a handle out of the two register
    states and keep its dirty flag, and the handle then stays dirty and
    listed. A read, be it the accessor or the materialisation before it,
    leaves the dirty flag as it was. *)
Theorem C1_dirty_global_lifecycle :
  forall (P : AssemblyRegisterPool) (p : RegPtr) (r : AssemblyRegister),
    NoDup (currentRegisterPool P) ->
    In p (currentRegisterPool P) ->
    objects P !! p = Some r ->
    let w := fst (write r) in
    let Pw := update p (fun x => fst (write x)) P in
    let Pf := update p setUndirty P in
    (isGlobalMemory scopes r = true ->
     objects Pw !! p = Some w
     /\ dirty w = true /\ state w = DirtyGlobalRegister
     /\ count_occ Nat.eq_dec (dirtyGlobals Pw) p = 1%nat
     /\ dirty (setUndirty w) = false
     /\ state (setUndirty w) = ActiveRegister
     /\ count_occ Nat.eq_dec (dirtyGlobals (update p setUndirty Pw)) p
        = 0%nat)
    /\ count_occ Nat.eq_dec (dirtyGlobals P) p
       = (if isDirtyGlobalMemory scopes r then 1%nat else 0%nat)
    /\ (isActiveOrDirtyGlobalRegister r = true ->
        objects Pf !! p = Some (setUndirty r)
        /\ dirty (setUndirty r) = false
        /\ (dirty r = true -> state (setUndirty r) = ActiveRegister)
        /\ count_occ Nat.eq_dec (dirtyGlobals Pf) p = 0%nat)
    /\ (isActiveOrDirtyGlobalRegister r = false ->
        setUndirty r = r /\ Pf = P
        /\ count_occ Nat.eq_dec (dirtyGlobals Pf) p
           = (if isDirtyGlobalMemory scopes r then 1%nat else 0%nat))
    /\ (forall (memLoc : Z) (isGlobal : bool),
          dirty (setDataPointer memLoc isGlobal r) = dirty r
          /\ isActiveOrDirtyGlobalRegister (setDataPointer memLoc isGlobal r)
             = false)
    /\ (forall value : Z,
          dirty (setImmediateValue value r) = dirty r
          /\ isActiveOrDirtyGlobalRegister (setImmediateValue value r)
             = false)
    /\ (forall e : X86Compiler,
          dirty (snd (createMemoryLocation compiler scopes data e r))
          = dirty r
          /\ isActiveOrDirtyGlobalRegister
               (snd (createMemoryLocation compiler scopes data e r))
             = false)
    /\ fst (getRegisterForReadOp r) = r
    /\ (forall e forceLoad, dirty (snd (load e forceLoad r)) = dirty r).
Proof.
  intros P p r Hn Hin Hp w Pw Pf.
  assert (Hcount : forall (Q : AssemblyRegisterPool) (x : AssemblyRegister),
             currentRegisterPool Q = currentRegisterPool P ->
             objects Q !! p = Some x ->
             count_occ Nat.eq_dec (dirtyGlobals Q) p
             = if isDirtyGlobalMemory scopes x then 1%nat else 0%nat).
  { intros Q x Hl Hx. rewrite dirtyGlobals_count by (rewrite Hl; exact Hn).
    rewrite Hl. apply contains_In in Hin. rewrite Hin. unfold query.
    rewrite Hx. reflexivity. }
  assert (Hflush : forall (Q : AssemblyRegisterPool) (x : AssemblyRegister),
             currentRegisterPool Q = currentRegisterPool P ->
             objects Q !! p = Some x ->
             isActiveOrDirtyGlobalRegister x = true ->
             objects (update p setUndirty Q) !! p = Some (setUndirty x)
             /\ dirty (setUndirty x) = false
             /\ (dirty x = true -> state (setUndirty x) = ActiveRegister)
             /\ count_occ Nat.eq_dec
                  (dirtyGlobals (update p setUndirty Q)) p = 0%nat).
  { intros Q x Hl Hx Ha.
    assert (Hd : dirty (setUndirty x) = false).
    { unfold setUndirty. rewrite Ha.
      destruct (dirty x) eqn:Hdx; simpl; [reflexivity | exact Hdx]. }
    split; [exact (lookup_update_eq p setUndirty Q x Hx) |].
    split; [exact Hd |].
    split; [intros Hdx; apply setUndirty_registerResident; assumption |].
    rewrite (Hcount (update p setUndirty Q) (setUndirty x) Hl
               (lookup_update_eq p setUndirty Q x Hx)).
    unfold isDirtyGlobalMemory. rewrite Hd. reflexivity. }
  split.
  { intros Hg. destruct (write_global scopes r Hg) as [Hd Hs].
    assert (Hw : objects Pw !! p = Some w)
      by exact (lookup_update_eq p (fun x => fst (write x)) P r Hp).
    assert (Ha : isActiveOrDirtyGlobalRegister w = true).
    { unfold isActiveOrDirtyGlobalRegister. fold w in Hs. rewrite Hs.
      reflexivity. }
    destruct (Hflush Pw w eq_refl Hw Ha) as (_ & Hfd & Hfs & Hfc).
    split; [exact Hw |]. split; [exact Hd |]. split; [exact Hs |].
    split.
    { rewrite (Hcount Pw w eq_refl Hw). unfold isDirtyGlobalMemory.
      fold w in Hd. rewrite Hd. unfold w. rewrite write_isGlobalMemory, Hg.
      reflexivity. }
    split; [exact Hfd |]. split; [exact (Hfs Hd) | exact Hfc]. }
  split; [exact (Hcount P r eq_refl Hp) |].
  split; [exact (Hflush P r eq_refl Hp) |].
  split.
  { intros Ha.
    assert (Hr : setUndirty r = r).
    { unfold setUndirty. rewrite Ha, andb_false_r. reflexivity. }
    assert (HP : Pf = P) by exact (update_unchanged p setUndirty P r Hp Hr).
    split; [exact Hr |]. split; [exact HP |].
    rewrite HP. exact (Hcount P r eq_refl Hp). }
  split; [intros memLoc isGlobal; split; reflexivity |].
  split; [intros value; split; reflexivity |].
  split.
  { intros e. split; [apply createMemoryLocation_dirty |].
    unfold isActiveOrDirtyGlobalRegister.
    rewrite createMemoryLocation_state. reflexivity. }
  split; [reflexivity |].
  intros e forceLoad. apply loadMemoryIntoRegister_dirty.
Qed.

(** C4, as the code has it. [getListOfAllDirtyGlobals] lists the handles
    of the pool that are dirty and bound to global storage, each exactly
    once, in the order in which the pool holds them, which is the order
    of their creation (ascending addresses), whatever the order in which
    they became dirty. *)
Theorem C4_dirty_globals_in_pool_order :
  forall ops : list Op,
    let c := run compiler scopes data createValid64BitPointer ops
               initialCodegen in
    let l := collectDirtyGlobals scopes c in
    NoDup l
    /\ (forall p, In p l
                  <-> In p (currentRegisterPool (registerPool c))
                      /\ query (registerPool c)
                           (isDirtyGlobalMemory scopes) p = true)
    /\ l `sublist_of` currentRegisterPool (registerPool c)
    /\ StronglySorted lt (currentRegisterPool (registerPool c))
    /\ StronglySorted lt l.
Proof.
  intros ops c l.
  assert (Hw : pool_wf (registerPool c)).
  { apply pool_wf_run. exact pool_wf_empty. }
  split; [apply dirtyGlobals_NoDup, pool_wf_NoDup, Hw |].
  split; [intros p; apply dirtyGlobals_In |].
  split; [apply dirtyGlobals_sublist |].
  split; [apply Hw |].
  apply filter_sorted, Hw.
Qed.

End DirtyGlobals.

(* ===================================================================== *)
(** ** Resolution and retirement *)
(* ===================================================================== *)

Lemma find_pointwise (f g : nat -> bool) l :
  (forall x, In x l -> f x = g x) -> List.find f l = List.find g l.
Proof.
  induction l as [| x l IH]; simpl; [reflexivity |].
  intros H. rewrite <- (H x) by tauto.
  destruct (f x); [reflexivity |]. apply IH. intros y Hy. apply H. tauto.
Qed.

Lemma find_append (f : nat -> bool) l1 l2 :
  List.find f (l1 ++ l2)
  = match List.find f l1 with
    | Some x => Some x
    | None => List.find f l2
    end.
Proof.
  induction l1 as [| x l IH]; simpl; [reflexivity |].
  destruct (f x); [reflexivity | exact IH].
Qed.

Section Resolution.

Context (scopes : ScopeTree).

#[local] Abbreviation resolve := (getRegisterForVariable scopes).

Lemma matchesIn_incReferenceCount P p s y q :
  matchesIn scopes (incReferenceCount p P) s y q = matchesIn scopes P s y q.
Proof.
  unfold matchesIn, incReferenceCount. apply query_update_invariant.
  intros r. reflexivity.
Qed.

Lemma resolve_found P s y r :
  List.find (matchesIn scopes P s y) (currentRegisterPool P) = Some r ->
  resolve P s y = (incReferenceCount r P, r).
Proof. intros H. unfold getRegisterForVariable. fold (matchesIn scopes P s y). rewrite H. reflexivity. Qed.

Lemma resolve_new P s y :
  List.find (matchesIn scopes P s y) (currentRegisterPool P) = None ->
  resolve P s y
  = (update (nextAddress P) (setReference scopes s y)
       (fst (getNextFreeRegister P s (Symbol.typeInfo y))), nextAddress P).
Proof. intros H. unfold getRegisterForVariable. fold (matchesIn scopes P s y). rewrite H. reflexivity. Qed.

Lemma resolve_new_store P s y :
  List.find (matchesIn scopes P s y) (currentRegisterPool P) = None ->
  objects (fst (resolve P s y))
  = <[nextAddress P := newHandle scopes P s y]> (objects P)
  /\ currentRegisterPool (fst (resolve P s y))
     = currentRegisterPool P ++ [nextAddress P]
  /\ nextAddress (fst (resolve P s y)) = S (nextAddress P).
Proof.
  intros H. rewrite (resolve_new P s y H). simpl. repeat split.
  apply map_eq. intros q.
  destruct (decide (nextAddress P = q)) as [<- | Hne].
  - rewrite !lookup_alter_eq, !lookup_insert_eq. reflexivity.
  - rewrite !lookup_alter_ne, !lookup_insert_ne by assumption. reflexivity.
Qed.

Lemma newHandle_bound P s y :
  scope (newHandle scopes P s y) = boundScope scopes s y /\ id (newHandle scopes P s y) = y
  /\ state (newHandle scopes P s y) = UnloadedMemoryLocation
  /\ dirty (newHandle scopes P s y) = false /\ reg (newHandle scopes P s y) = None
  /\ refCount (newHandle scopes P s y) = 2%nat.
Proof.
  unfold newHandle, setReference, boundScope.
  destruct (getScopeForSymbol scopes s (Symbol.id y)); repeat split.
Qed.

Lemma newHandle_matches P s y :
  matchesScopeAndSymbol scopes (newHandle scopes P s y) s y
  = match getScopeForSymbol scopes s (Symbol.id y) with
    | Some _ => true
    | None => false
    end.
Proof.
  unfold matchesScopeAndSymbol.
  destruct (newHandle_bound P s y) as (Hs & Hi & _). rewrite Hs, Hi.
  unfold boundScope.
  destruct (getScopeForSymbol scopes s (Symbol.id y)); [| reflexivity].
  rewrite Nat.eqb_refl, Symbol_eqb_refl. reflexivity.
Qed.


End Resolution.

Section Retirement.

Context (scopes : ScopeTree).

#[local] Abbreviation resolve := (getRegisterForVariable scopes).

Lemma resolve_result P s y :
  In (snd (resolve P s y)) (currentRegisterPool P)
  \/ snd (resolve P s y) = nextAddress P.
Proof.
  destruct (List.find (matchesIn scopes P s y) (currentRegisterPool P))
    as [r |] eqn:E.
  - left. rewrite (resolve_found scopes P s y r E). simpl.
    apply (find_some _ _ E).
  - right. rewrite (resolve_new scopes P s y E). reflexivity.
Qed.

Lemma removeIfUnreferenced_pool ref P :
  currentRegisterPool (removeIfUnreferenced ref P)
  = if Nat.eqb (getReferenceCount (incReferenceCount ref P) ref) 2
    then remove_first ref (currentRegisterPool P)
    else currentRegisterPool P.
Proof.
  unfold removeIfUnreferenced. simpl.
  destruct (Nat.eqb _ 2); [| reflexivity].
  unfold removeObject. simpl.
  destruct (contains (currentRegisterPool P) ref) eqn:E; [reflexivity |].
  simpl. symmetry. apply remove_first_absent.
  rewrite <- contains_In, E. discriminate.
Qed.

Lemma removeIfUnreferenced_nextAddress ref P :
  nextAddress (removeIfUnreferenced ref P) = nextAddress P.
Proof.
  unfold removeIfUnreferenced, removeObject. simpl.
  destruct (Nat.eqb _ 2); [| reflexivity].
  simpl. destruct (contains _ _); reflexivity.
Qed.

(** C7. [removeIfUnreferenced] takes a handle out of the pool exactly
    when the count it reads is 2, the array of the pool and the by-value
    parameter of the call itself, that is, when the pool is the only
    holder left. A handle taken out is not in the pool any more and no
    later resolution returns it; a handle that any further holder still
    refers to (count above the threshold) stays in the pool. *)
Theorem C7_retired_at_threshold :
  forall (P : AssemblyRegisterPool) (ref : RegPtr) (r : AssemblyRegister),
    pool_wf P ->
    objects P !! ref = Some r ->
    let seen := getReferenceCount (incReferenceCount ref P) ref in
    let P' := removeIfUnreferenced ref P in
    seen = S (refCount r)
    /\ (seen = 2%nat ->
        currentRegisterPool P' = remove_first ref (currentRegisterPool P)
        /\ ~ In ref (currentRegisterPool P')
        /\ forall s y, snd (resolve P' s y) <> ref)
    /\ (seen <> 2%nat -> currentRegisterPool P' = currentRegisterPool P)
    /\ ((2 <= refCount r)%nat ->
        currentRegisterPool P' = currentRegisterPool P).
Proof.
  intros P ref r Hw Hr seen P'.
  assert (Hseen : seen = S (refCount r)).
  { unfold seen, getReferenceCount, incReferenceCount.
    rewrite (lookup_update_eq _ _ _ _ Hr). reflexivity. }
  assert (Hremoved : seen = 2%nat ->
            currentRegisterPool P' = remove_first ref (currentRegisterPool P)).
  { intros H2. unfold P'. rewrite removeIfUnreferenced_pool. fold seen.
    rewrite H2. reflexivity. }
  assert (Hkept : seen <> 2%nat ->
            currentRegisterPool P' = currentRegisterPool P).
  { intros Hne. unfold P'. rewrite removeIfUnreferenced_pool. fold seen.
    apply Nat.eqb_neq in Hne. rewrite Hne. reflexivity. }
  split; [exact Hseen |]. split; [| split].
  - intros H2. specialize (Hremoved H2).
    assert (Hgone : ~ In ref (currentRegisterPool P')).
    { rewrite Hremoved. apply remove_first_NoDup_gone, pool_wf_NoDup, Hw. }
    split; [exact Hremoved |]. split; [exact Hgone |].
    intros s y Heq.
    destruct (resolve_result P' s y) as [Hin | Hnew].
    + rewrite Heq in Hin. tauto.
    + rewrite Heq in Hnew. unfold P' in Hnew.
      rewrite removeIfUnreferenced_nextAddress in Hnew.
      destruct Hw as [_ _ Hs].
      assert (ref < nextAddress P)%nat by (apply Hs; eauto). lia.
  - exact Hkept.
  - intros Hext. apply Hkept. lia.
Qed.

End Retirement.

(* ===================================================================== *)
(** ** Coalescing of memory locations *)
(* ===================================================================== *)

Lemma sameLocations_update p f P :
  (forall x, sameLocation x (f x)) -> sameLocations P (update p f P).
Proof.
  intros Hf. split; [reflexivity |]. intros q. rewrite lookup_update.
  destruct (decide (p = q)), (objects P !! q); simpl; constructor;
    first [apply Hf | repeat split].
Qed.

Lemma sameLocations_trans P Q R :
  sameLocations P Q -> sameLocations Q R -> sameLocations P R.
Proof.
  intros [Hl1 Ho1] [Hl2 Ho2]. split; [congruence |]. intros q.
  specialize (Ho1 q). specialize (Ho2 q).
  destruct Ho1 as [x y Hxy |]; inversion Ho2 as [y' z Hyz |]; subst;
    constructor.
  destruct Hxy as (? & ? & ? & ?), Hyz as (? & ? & ? & ?).
  repeat split; congruence.
Qed.

Lemma sameLocations_renameSymbols f P : sameLocations P (renameSymbols f P).
Proof.
  split; [reflexivity |]. intros q. unfold renameSymbols. simpl.
  rewrite lookup_fmap. destruct (objects P !! q); simpl; constructor.
  repeat split.
Qed.

Lemma find_agree_below (f g : nat -> bool) l r :
  StronglySorted lt l -> List.find f l = Some r ->
  (forall x, (x <= r)%nat -> f x = g x) -> List.find g l = Some r.
Proof.
  induction 1 as [| x l Hs IH Hx]; simpl; [discriminate |].
  intros Hf Hfg. destruct (f x) eqn:E.
  - injection Hf as <-. rewrite <- Hfg, E by lia. reflexivity.
  - assert (Hlt : (x < r)%nat).
    { rewrite Forall_forall in Hx. apply Hx, list_elem_of_In.
      apply (find_some _ _ Hf). }
    rewrite <- Hfg, E by lia. apply IH; assumption.
Qed.

(** What [getRegisterWithMemory] returns, by the test of its loop. *)
Lemma getRegisterWithMemory_result P other :
  snd (getRegisterWithMemory P other)
  = match objects P !! other with
    | Some o =>
        if hasCustomMemoryLocation o then
          match List.find
                  (fun r => query P isMemoryLocation r
                            && negb (Nat.eqb r other)
                            && query P (fun x => matchesMemoryLocation x o) r)
                  (currentRegisterPool P) with
          | Some r => r
          | None => other
          end
        else other
    | None => other
    end.
Proof.
  unfold getRegisterWithMemory, query.
  destruct (objects P !! other) as [o |]; simpl; [| reflexivity].
  destruct (hasCustomMemoryLocation o); simpl; [| reflexivity].
  destruct (find _ _); reflexivity.
Qed.

Lemma sameLocations_result P Q other :
  sameLocations P Q ->
  snd (getRegisterWithMemory P other) = snd (getRegisterWithMemory Q other).
Proof.
  intros [Hl Ho]. rewrite !getRegisterWithMemory_result, <- Hl.
  pose proof (Ho other) as Hother.
  destruct Hother as [o o' (Hs & Ht & Hm & Hc) |]; [| reflexivity].
  unfold hasCustomMemoryLocation. rewrite <- Hc.
  destruct (hasCustomMem o) eqn:Eo; [| reflexivity].
  erewrite find_pointwise; [reflexivity |].
  intros x _. simpl. unfold query. specialize (Ho x).
  destruct Ho as [a b (Hs' & Ht' & Hm' & Hc') |]; [| reflexivity].
  unfold isMemoryLocation, matchesMemoryLocation, hasCustomMemoryLocation,
    getTypeInfo, getMemoryLocationForReference.
  rewrite Hs', Ht', Hm', Hc', Ht, Hm, <- ?Hc, ?Eo. reflexivity.
Qed.

Lemma find_first_sorted (f : nat -> bool) l r x :
  StronglySorted lt l -> List.find f l = Some r ->
  In x l -> f x = true -> (r <= x)%nat.
Proof.
  induction 1 as [| y l Hs IH Hy]; simpl; [discriminate |].
  intros Hf Hin Hx. destruct (f y) eqn:E.
  - injection Hf as <-. destruct Hin as [<- | Hin]; [lia |].
    rewrite Forall_forall in Hy. apply list_elem_of_In, Hy in Hin. lia.
  - destruct Hin as [<- | Hin]; [congruence |]. apply IH; assumption.
Qed.

(** The test of the loop of [getRegisterWithMemory] is the matching
    rule. *)
Lemma survivorFor_test P other o x :
  objects P !! other = Some o -> hasCustomMemoryLocation o = true ->
  survivorFor P other x
  <-> In x (currentRegisterPool P)
      /\ query P isMemoryLocation x && negb (Nat.eqb x other)
         && query P (fun y => matchesMemoryLocation y o) x = true.
Proof.
  intros Ho Hc. unfold survivorFor, query, matchesMemoryLocation,
    isMemoryLocation, hasCustomMemoryLocation, getTypeInfo,
    getMemoryLocationForReference in *.
  split.
  - intros (Hin & Hne & o' & s & Ho' & Hs & Hco & Hcs & Ht & Hm & Hst).
    rewrite Ho in Ho'. injection Ho' as <-.
    split; [exact Hin |]. rewrite Hs, Hst, Hcs, Hco, Ht, Hm.
    replace (Nat.eqb x other) with false
      by (symmetry; apply Nat.eqb_neq; exact Hne).
    replace (TypeInfo_eqb (type s) (type s)) with true
      by (symmetry; apply TypeInfo_eqb_eq; reflexivity).
    simpl. apply X86Mem_eqb_eq. reflexivity.
  - intros (Hin & Ht). apply andb_true_iff in Ht. destruct Ht as [Ht Hmatch].
    apply andb_true_iff in Ht. destruct Ht as [Hloaded Hne].
    destruct (objects P !! x) as [s |] eqn:Es; [| discriminate Hloaded].
    destruct (TypeInfo_eqb (type o) (type s)) eqn:Et; [| discriminate Hmatch].
    destruct (hasCustomMem s) eqn:Ecs; [| discriminate Hmatch].
    rewrite Hc in Hmatch. simpl in Hmatch.
    apply X86Mem_eqb_eq in Hmatch. apply TypeInfo_eqb_eq in Et.
    apply State_eqb_eq in Hloaded.
    split; [exact Hin |].
    split; [apply Nat.eqb_neq, negb_true_iff; exact Hne |].
    exists o, s. repeat split; auto.
Qed.

(** C5, as the code has it. [getRegisterWithMemory] returns a handle other
    than its argument exactly when the pool has a survivor for it: another
    entry in [LoadedMemoryLocation], both with an explicit memory location,
    the same declared type and the same memory operand. It then returns
    the oldest survivor, raises its [numMemoryReferences] by one (and its
    holder count, for the returned pointer), creates no handle and leaves
    every other handle alone; without a survivor it returns its argument
    and no [numMemoryReferences] changes. The outcome depends on the
    operands and not on the symbols the handles are bound to. A second
    call with the same argument returns the same handle; a call with
    another handle of equal type and operand returns it too when the
    survivor is older than both handles. *)
Theorem C5_coalescing_by_memory_operand :
  forall (P : AssemblyRegisterPool) (other : RegPtr),
    pool_wf P ->
    let P' := fst (getRegisterWithMemory P other) in
    let r := snd (getRegisterWithMemory P other) in
    (r <> other <-> exists x, survivorFor P other x)
    /\ (r <> other ->
        survivorFor P other r
        /\ (forall x, survivorFor P other x -> (r <= x)%nat)
        /\ (exists s,
              objects P !! r = Some s
              /\ objects P' !! r
                 = Some (set_refCount (S (refCount s))
                           (set_numMemoryReferences
                              (S (numMemoryReferences s)) s)))
        /\ (forall q, q <> r -> objects P' !! q = objects P !! q))
    /\ (r = other ->
        forall q,
          numMemoryReferences <$> objects P' !! q
          = numMemoryReferences <$> objects P !! q)
    /\ nextAddress P' = nextAddress P
    /\ currentRegisterPool P' = currentRegisterPool P
    /\ snd (getRegisterWithMemory P' other) = r
    /\ (forall f : Symbol -> Symbol,
          snd (getRegisterWithMemory (renameSymbols f P) other) = r)
    /\ (forall (other2 : RegPtr) (o o2 : AssemblyRegister),
          objects P !! other = Some o -> objects P !! other2 = Some o2 ->
          hasCustomMemoryLocation o2 = true ->
          getTypeInfo o2 = getTypeInfo o -> memory o2 = memory o ->
          (r < other)%nat -> (r < other2)%nat ->
          snd (getRegisterWithMemory P' other2) = r).
Proof.
  intros P other Hw P' r.
  assert (Hsame : sameLocations P P').
  { unfold P', getRegisterWithMemory.
    destruct (negb _); simpl;
      [apply sameLocations_update; intros x; repeat split |].
    destruct (objects P !! other); simpl;
      [| apply sameLocations_update; intros x; repeat split].
    destruct (find _ _); simpl.
    + eapply sameLocations_trans;
        apply sameLocations_update; intros x; repeat split.
    + apply sameLocations_update; intros x; repeat split. }
  assert (Hnone : forall x,
             survivorFor P other x ->
             exists o, objects P !! other = Some o
                       /\ hasCustomMemoryLocation o = true).
  { intros x (_ & _ & o & s & Ho & _ & Hc & _). exists o. auto. }
  assert (Hr : r = snd (getRegisterWithMemory P other)) by reflexivity.
  rewrite getRegisterWithMemory_result in Hr.
  assert (Hfound : r <> other ->
            exists o, objects P !! other = Some o
                      /\ hasCustomMemoryLocation o = true
                      /\ List.find
                           (fun y => query P isMemoryLocation y
                                     && negb (Nat.eqb y other)
                                     && query P
                                          (fun z => matchesMemoryLocation z o)
                                          y)
                           (currentRegisterPool P) = Some r).
  { intros Hne. destruct (objects P !! other) as [o |]; [| congruence].
    destruct (hasCustomMemoryLocation o) eqn:Hc; [| congruence].
    destruct (List.find _ _) as [y |] eqn:Ef in Hr; [| congruence].
    subst y. exists o. auto. }
  assert (Hshape : nextAddress P' = nextAddress P
                   /\ currentRegisterPool P' = currentRegisterPool P).
  { unfold P', getRegisterWithMemory.
    destruct (negb _); simpl; [split; reflexivity |].
    destruct (objects P !! other); simpl; [| split; reflexivity].
    destruct (find _ _); simpl; split; reflexivity. }
  split; [| split; [| split; [| split; [| split; [| split; [| split]]]]]].
  - split.
    + intros Hne. destruct (Hfound Hne) as (o & Ho & Hc & Ef).
      exists r. apply (survivorFor_test P other o r Ho Hc).
      exact (find_some _ _ Ef).
    + intros [x Hx]. destruct (Hnone x Hx) as (o & Ho & Hc).
      apply (survivorFor_test P other o x Ho Hc) in Hx.
      destruct Hx as [Hin Ht].
      rewrite Ho, Hc in Hr.
      destruct (List.find _ _) as [y |] eqn:Ef in Hr.
      * subst y. destruct (find_some _ _ Ef) as [_ Hy].
        apply andb_true_iff in Hy. destruct Hy as [Hy _].
        apply andb_true_iff in Hy. destruct Hy as [_ Hy].
        apply negb_true_iff, Nat.eqb_neq in Hy. exact Hy.
      * pose proof (find_none _ _ Ef x Hin) as Hf. simpl in Hf.
        rewrite Ht in Hf. discriminate Hf.
  - intros Hne. destruct (Hfound Hne) as (o & Ho & Hc & Ef).
    assert (Hsurv : survivorFor P other r).
    { apply (survivorFor_test P other o r Ho Hc). exact (find_some _ _ Ef). }
    split; [exact Hsurv |]. split.
    { intros x Hx. apply (survivorFor_test P other o x Ho Hc) in Hx.
      destruct Hx as [Hin Ht].
      exact (find_first_sorted _ _ r x (wf_sorted _ Hw) Ef Hin Ht). }
    assert (HP' : P'
                  = incReferenceCount r
                      (update r (fun x => set_numMemoryReferences
                                            (S (numMemoryReferences x)) x)
                         P)).
    { unfold P', getRegisterWithMemory. unfold query at 1.
      rewrite Ho, Hc. cbn [negb]. rewrite Ef. reflexivity. }
    destruct Hsurv as (_ & _ & o' & s & _ & Hs & _).
    split.
    + exists s. split; [exact Hs |]. rewrite HP'.
      exact (lookup_update_eq r
               (fun x => set_refCount (S (refCount x)) x) _ _
               (lookup_update_eq r
                  (fun x => set_numMemoryReferences
                              (S (numMemoryReferences x)) x) P s Hs)).
    + intros q Hq. rewrite HP'. unfold incReferenceCount.
      rewrite !lookup_update_ne by auto. reflexivity.
  - intros Heq q.
    assert (HP' : P' = incReferenceCount other P).
    { unfold P', getRegisterWithMemory.
      destruct (negb (query P hasCustomMemoryLocation other)) eqn:En;
        [reflexivity |].
      apply negb_false_iff in En. unfold query in En.
      destruct (objects P !! other) as [o |] eqn:Ho; [| reflexivity].
      rewrite En in Hr.
      destruct (List.find _ _) as [y |] eqn:Ef in Hr.
      - subst y. destruct (find_some _ _ Ef) as [_ Hy].
        apply andb_true_iff in Hy. destruct Hy as [Hy _].
        apply andb_true_iff in Hy. destruct Hy as [_ Hy].
        apply negb_true_iff, Nat.eqb_neq in Hy. congruence.
      - rewrite Ef. reflexivity. }
    rewrite HP'. unfold incReferenceCount. rewrite lookup_update.
    destruct (decide (other = q)); [| reflexivity].
    destruct (objects P !! q); reflexivity.
  - apply Hshape.
  - apply Hshape.
  - unfold r. symmetry. apply sameLocations_result, Hsame.
  - intros f. unfold r. symmetry.
    apply sameLocations_result, sameLocations_renameSymbols.
  - intros other2 o o2 Ho Ho2 Hc2 Ht2 Hm2 Hlt Hlt2.
    rewrite <- (sameLocations_result P P' other2 Hsame).
    rewrite getRegisterWithMemory_result, Ho2, Hc2.
    rewrite Ho in Hr.
    destruct (hasCustomMemoryLocation o) eqn:Hc; [| lia].
    destruct (List.find _ _) as [x |] eqn:Ef in Hr; [| lia]. subst x.
    erewrite find_agree_below; [reflexivity | apply Hw | exact Ef |].
    intros x Hx. simpl.
    replace (Nat.eqb x other) with false by (symmetry; apply Nat.eqb_neq; lia).
    replace (Nat.eqb x other2) with false by (symmetry; apply Nat.eqb_neq; lia).
    unfold query. destruct (objects P !! x); [| reflexivity].
    unfold matchesMemoryLocation, getMemoryLocationForReference.
    rewrite Hc, Hc2, Ht2, Hm2. reflexivity.
Qed.

(* ===================================================================== *)
(** ** The theorems on the concrete compilation unit *)
(* ===================================================================== *)

Lemma C1_dirty_global_lifecycle_witness :
  NoDup (currentRegisterPool
           (registerPool (demoRun (gainOps ++ [Write 0]) initialCodegen)))
  /\ In 0%nat
       (currentRegisterPool
          (registerPool (demoRun (gainOps ++ [Write 0]) initialCodegen)))
  /\ objects (registerPool (demoRun (gainOps ++ [Write 0]) initialCodegen))
       !! 0%nat = Some gainWrittenHandle
  /\ count_occ Nat.eq_dec
       (getListOfAllDirtyGlobals demoScopes
          (registerPool (demoRun (gainOps ++ [Write 0]) initialCodegen)))
       0%nat = 1%nat
  /\ state (setUndirty gainWrittenHandle) = ActiveRegister
  /\ count_occ Nat.eq_dec
       (getListOfAllDirtyGlobals demoScopes
          (update 0%nat setUndirty
             (registerPool
                (demoRun (gainOps ++ [Write 0]) initialCodegen)))) 0%nat
     = 0%nat.
Proof.
  assert (H1 : NoDup (currentRegisterPool
                        (registerPool
                           (demoRun (gainOps ++ [Write 0]) initialCodegen))))
    by (vm_compute; apply NoDup_singleton).
  assert (H2 : In 0%nat
                 (currentRegisterPool
                    (registerPool
                       (demoRun (gainOps ++ [Write 0]) initialCodegen))))
    by (vm_compute; left; reflexivity).
  assert (H3 : objects
                 (registerPool
                    (demoRun (gainOps ++ [Write 0]) initialCodegen))
                 !! 0%nat = Some gainWrittenHandle)
    by (vm_compute; reflexivity).
  destruct (C1_dirty_global_lifecycle demoCompiler demoScopes demoData
              demoPointer
              (registerPool (demoRun (gainOps ++ [Write 0]) initialCodegen))
              0%nat gainWrittenHandle H1 H2 H3)
    as (_ & Hlisted & Hflush & _).
  destruct (Hflush eq_refl) as (_ & _ & Hs & Hc).
  split; [exact H1 |]. split; [exact H2 |]. split; [exact H3 |].
  split; [exact Hlisted |]. split; [exact (Hs eq_refl) | exact Hc].
Defined.

(** [gain] is written, pointed at its storage again and flushed: the
    flush finds it in [UnloadedMemoryLocation] and does nothing, and the
    handle is still dirty and listed. *)
Lemma C1_counterexample :
  let c := demoRun [Write 0; SetDataPointer 0 4096 true; Flush 0]
             gainCodegen in
  dirty (handleAt c 0) = true
  /\ state (handleAt c 0) = UnloadedMemoryLocation
  /\ collectDirtyGlobals demoScopes c = [0%nat].
Proof. vm_compute. repeat split. Qed.




(** [level] is dirtied before [gain], and listed after it. *)
Lemma C4_counterexample :
  collectDirtyGlobals demoScopes (demoRun twoGlobalsOps initialCodegen)
  <> firstDirtiedOrder demoCompiler demoScopes demoData demoPointer
       twoGlobalsOps initialCodegen [].
Proof. vm_compute. intros H. discriminate H. Qed.

Lemma C5_coalescing_by_memory_operand_witness :
  pool_wf aliasPool
  /\ snd (getRegisterWithMemory aliasPool 1%nat) = 0%nat
  /\ survivorFor aliasPool 1%nat 0%nat
  /\ numMemoryReferences
       <$> objects (fst (getRegisterWithMemory aliasPool 1%nat)) !! 0%nat
     = Some 1%nat.
Proof.
  assert (H1 : pool_wf aliasPool).
  { unfold aliasPool, demoRun. apply pool_wf_run. exact pool_wf_empty. }
  assert (H2 : snd (getRegisterWithMemory aliasPool 1%nat) <> 1%nat)
    by (vm_compute; intros H; discriminate H).
  destruct (proj1 (proj2 (C5_coalescing_by_memory_operand aliasPool 1%nat
                            H1)) H2)
    as (Hs & _ & (s & Hs1 & Hs2) & _).
  split; [exact H1 |]. split; [reflexivity |]. split; [exact Hs |].
  change (snd (getRegisterWithMemory aliasPool 1%nat)) with 0%nat in Hs1, Hs2.
  rewrite Hs2. vm_compute in Hs1. injection Hs1 as <-. reflexivity.
Defined.

(** Two handles of one declared type and one memory operand, both in
    [LoadedMemoryLocation] and none older than both: the call on the first
    returns the second, and the call on the second that follows returns
    the first. *)
Lemma C5_counterexample :
  let first := getRegisterWithMemory aliasPool 0 in
  let second := getRegisterWithMemory (fst first) 1 in
  type <$> objects aliasPool !! 0%nat = type <$> objects aliasPool !! 1%nat
  /\ memory <$> objects aliasPool !! 0%nat
     = memory <$> objects aliasPool !! 1%nat
  /\ snd first = 1%nat /\ snd second = 0%nat
  /\ snd first <> snd second.
Proof. vm_compute. repeat split. intros H. discriminate H. Qed.

Lemma C6_immediate_materialisation_witness :
  getType demoCompiler tmpHandle = Types.Integer
  /\ isGlobalVariableRegister demoScopes tmpHandle
     && negb (Symbol.isConst (id tmpHandle)) = false
  /\ loadCount
       (fst (loadMemoryIntoRegister demoCompiler demoScopes demoData
               demoPointer asmjit.empty false
               (setImmediateValue 5 tmpHandle)))
     = loadCount asmjit.empty.
Proof.
  assert (H1 : getType demoCompiler tmpHandle = Types.Integer)
    by reflexivity.
  assert (H2 : isGlobalVariableRegister demoScopes tmpHandle
               && negb (Symbol.isConst (id tmpHandle)) = false)
    by (vm_compute; reflexivity).
  split; [exact H1 |]. split; [exact H2 |].
  apply (C6_immediate_materialisation demoCompiler demoScopes demoData
           demoPointer asmjit.empty false tmpHandle 5 H1 H2).
Defined.

(** [createMemoryLocation] puts a handle that holds an immediate in
    [LoadedMemoryLocation]. *)
Lemma C6_counterexample :
  state <$> objects (registerPool (demoRun immediateOps initialCodegen)) !! 0%nat
  = Some LoadedMemoryLocation
  /\ hasCustomMem <$>
       objects (registerPool (demoRun immediateOps initialCodegen)) !! 0%nat
     = Some false
  /\ immediateIntValue <$>
       objects (registerPool (demoRun immediateOps initialCodegen)) !! 0%nat
     = Some 5.
Proof. vm_compute. repeat split. Qed.

Lemma C7_retired_at_threshold_witness :
  pool_wf retirePool
  /\ objects retirePool !! 0%nat = Some retireHandle
  /\ currentRegisterPool retirePool = [0%nat]
  /\ currentRegisterPool (removeIfUnreferenced 0%nat retirePool) = []
  /\ forall s y,
       snd (getRegisterForVariable demoScopes
              (removeIfUnreferenced 0%nat retirePool) s y) <> 0%nat.
Proof.
  assert (H1 : pool_wf retirePool).
  { unfold retirePool, demoRun. apply pool_wf_run. exact pool_wf_empty. }
  assert (H2 : objects retirePool !! 0%nat = Some retireHandle)
    by (vm_compute; reflexivity).
  destruct (C7_retired_at_threshold demoScopes retirePool 0%nat retireHandle
              H1 H2) as (_ & Hr & _).
  destruct (Hr eq_refl) as (Hp & _ & Hres).
  split; [exact H1 |]. split; [exact H2 |].
  split; [vm_compute; reflexivity |].
  split; [rewrite Hp; vm_compute; reflexivity | exact Hres].
Defined.

Lemma C8_materialisation_idempotent_witness :
  isValid (reg gainHandle) = true
  /\ loadMemoryIntoRegister demoCompiler demoScopes demoData demoPointer
       (cc gainCodegen) false gainHandle
     = (cc gainCodegen, gainHandle).
Proof.
  split; [reflexivity |].
  apply (C8_materialisation_idempotent demoCompiler demoScopes demoData
           demoPointer (cc gainCodegen) gainHandle).
  reflexivity.
Defined.

Lemma C9_exactly_one_of_four_states_witness :
  objects (registerPool tmpCodegen) !! 0%nat = Some tmpHandle
  /\ definedStateCount tmpHandle = 1%nat.
Proof.
  assert (H1 : objects (registerPool tmpCodegen) !! 0%nat = Some tmpHandle)
    by (vm_compute; reflexivity).
  split; [exact H1 |].
  apply (C9_exactly_one_of_four_states demoCompiler demoScopes demoData
           demoPointer [Resolve 2 tmp] 0%nat tmpHandle H1).
Defined.

(* ===================================================================== *)
(** ** Scenarios *)
(* ===================================================================== *)

(** [gain] is written: one dirty global; flushed: none; written again:
    one. *)
Example scenario_gain_written_flushed_written :
  let c1 := demoStep (Write 0) gainCodegen in
  let c2 := demoStep (Flush 0) c1 in
  let c3 := demoStep (Write 0) c2 in
  state (handleAt c1 0) = DirtyGlobalRegister
  /\ collectDirtyGlobals demoScopes c1 = [0%nat]
  /\ state (handleAt c2 0) = ActiveRegister
  /\ collectDirtyGlobals demoScopes c2 = []
  /\ collectDirtyGlobals demoScopes c3 = [0%nat].
Proof. vm_compute. repeat split. Qed.

(** [tmp] bound to the immediate 5: materialising it emits one move of
    the immediate and no load. *)
Example scenario_tmp_immediate :
  let c := demoRun [Resolve 2 tmp; SetImmediateValue 0 5; Materialize 0 false]
             initialCodegen in
  instructions (cc c)
  = [mov_ri (Some {| regKind := Gpd; virtId := 0 |}) 5]
  /\ loadCount (cc c) = 0%nat
  /\ state (handleAt c 0) = ActiveRegister.
Proof. vm_compute. repeat split. Qed.

(** An immediate that is no [int] is cut to its low 32 bits: 2^32 + 5 is
    held, and emitted, as 5. *)
Example scenario_wide_immediate :
  let c := demoRun (wideOps ++ [Materialize 0 false]) initialCodegen in
  getImmediateIntValue wideHandle = 5
  /\ instructions (cc c)
     = [mov_ri (Some {| regKind := Gpd; virtId := 0 |}) 5]
  /\ loadCount (cc c) = 0%nat.
Proof. vm_compute. repeat split. Qed.

(** An immediate set on a handle that is bound to a non-constant global
    variable is read from the storage of the variable all the same. *)
Example scenario_immediate_on_global_variable :
  let c := demoRun [Resolve 1 voices; SetImmediateValue 0 5;
                    Materialize 0 false] initialCodegen in
  instructions (cc c)
  = [mov_ri (Some {| regKind := Gpq; virtId := 0 |}) 0;
     mov_rm (Some {| regKind := Gpd; virtId := 1 |})
       (dword_ptr {| regKind := Gpq; virtId := 0 |})]
  /\ loadCount (cc c) = 1%nat.
Proof. vm_compute. repeat split. Qed.

(** Writing to [sampleRate], declared in the global scope, throws, and
    the handle is as before. *)
Example scenario_write_to_global_scope :
  getRegisterForWriteOp demoScopes sampleRateHandle
  = (sampleRateHandle, Thrown "can't write to global variables"%string).
Proof. vm_compute. reflexivity. Qed.

(** Two handles with one operand, both in [LoadedMemoryLocation] and none
    older than both: each is coalesced into the other. *)
Example scenario_mutual_coalescing :
  snd (getRegisterWithMemory aliasPool 0) = 1%nat
  /\ snd (getRegisterWithMemory aliasPool 1) = 0%nat.
Proof. vm_compute. repeat split. Qed.

(* ===================================================================== *)
(** ** Coherence of the members of a handle *)
(* ===================================================================== *)

Section Coherence.

Context (compiler : BaseCompiler) (scopes : ScopeTree) (data : DataMemory).
Context (createValid64BitPointer :
           X86Compiler -> X86Mem -> Z -> nat -> X86Compiler * X86Mem).

#[local] Abbreviation load := (loadMemoryIntoRegister compiler scopes data
                                 createValid64BitPointer).
#[local] Abbreviation write := (getRegisterForWriteOp scopes).
#[local] Abbreviation coherentPool := (all_handles coherent).

Lemma write_dirty_monotone r :
  dirty r = true -> dirty (fst (write r)) = true.
Proof.
  intros Hd. unfold getRegisterForWriteOp. cbv zeta.
  destruct (isGlobalMemory scopes r); simpl;
    destruct (Symbol.valid (id r)); simpl; try assumption; try reflexivity;
    destruct (isIter r) eqn:Hi; simpl; rewrite ?Hi; simpl;
    split_ifs; assumption || reflexivity.
Qed.

Lemma write_state_cases r :
  (state (fst (write r)) = state r
   /\ hasCustomMem (fst (write r)) = hasCustomMem r)
  \/ (state (fst (write r)) = DirtyGlobalRegister
      /\ dirty (fst (write r)) = true).
Proof.
  unfold getRegisterForWriteOp. cbv zeta.
  destruct (isGlobalMemory scopes r); simpl;
    destruct (Symbol.valid (id r)); simpl; auto;
    destruct (isIter r) eqn:Hi; simpl; rewrite ?Hi; simpl;
    split_ifs; auto.
Qed.

Lemma coherent_write r : coherent r -> coherent (fst (write r)).
Proof.
  intros [H1 H2].
  destruct (write_state_cases r) as [[Hs Hc] | [Hs Hd]]; split.
  - rewrite Hs. intros H. apply write_dirty_monotone. auto.
  - rewrite Hs, Hc, write_reg. exact H2.
  - intros _. exact Hd.
  - rewrite Hs. discriminate.
Qed.

Lemma coherent_setUndirty r : coherent r -> coherent (setUndirty r).
Proof.
  intros [H1 H2]. unfold setUndirty.
  destruct (dirty r && isActiveOrDirtyGlobalRegister r); [| split; assumption].
  split; simpl; discriminate.
Qed.

Lemma coherent_createRegister e r :
  coherent r -> coherent (snd (createRegister compiler e r)).
Proof.
  intros H. pose proof (createRegister_state compiler e r) as Hs.
  unfold createRegister in *. destruct (isValid (reg r)); [exact H |].
  split; rewrite Hs; discriminate.
Qed.

Lemma coherent_createMemoryLocation e r :
  coherent (snd (createMemoryLocation compiler scopes data e r)).
Proof.
  split; rewrite createMemoryLocation_state; discriminate.
Qed.

Lemma load_state_cases e force r :
  snd (load e force r) = r
  \/ state (snd (load e force r)) = ActiveRegister.
Proof.
  unfold loadMemoryIntoRegister.
  destruct (negb force && isValid (reg r)); [left; reflexivity |].
  destruct (State_eqb (state r) UnloadedMemoryLocation).
  - pose proof (createMemoryLocation_state compiler scopes data e r) as Hm.
    destruct (createMemoryLocation compiler scopes data e r) as [e1 r1].
    simpl in Hm. rewrite Hm. simpl. rewrite andb_false_r.
    destruct (createRegister compiler e1 r1). right. reflexivity.
  - destruct (negb force && State_eqb (state r) ActiveRegister);
      [left; reflexivity |].
    destruct (createRegister compiler e r). right. reflexivity.
Qed.

Lemma coherent_load e force r : coherent r -> coherent (snd (load e force r)).
Proof.
  intros H. destruct (load_state_cases e force r) as [-> | Hs]; [exact H |].
  split; rewrite Hs; discriminate.
Qed.

Lemma coherentPool_onHandle p f c :
  (forall e r, coherent r -> coherent (snd (f e r))) ->
  coherentPool (registerPool c) -> coherentPool (registerPool (onHandle p f c)).
Proof.
  intros Hf H. unfold onHandle.
  destruct (objects (registerPool c) !! p) as [r |] eqn:E; [| exact H].
  pose proof (Hf (cc c) r (H _ _ E)) as Hr.
  destruct (f (cc c) r) as [e' r']. simpl in *.
  intros q x. rewrite lookup_update.
  destruct (decide (p = q)); [| apply H].
  subst. rewrite E. simpl. intros [= <-]. exact Hr.
Qed.

Lemma coherentPool_refCount p g P :
  coherentPool P ->
  coherentPool (update p (fun r => set_refCount (g r) r) P).
Proof. apply all_handles_update. intros r Hr. exact Hr. Qed.

Lemma coherentPool_step op c :
  coherentPool (registerPool c) ->
  coherentPool (registerPool
                  (step compiler scopes data createValid64BitPointer op c)).
Proof.
  intros H. destruct op; simpl.
  - unfold getRegisterForVariable. destruct (find _ _); simpl.
    + apply coherentPool_refCount, H.
    + apply all_handles_update.
      { intros r. unfold setReference.
        destruct (getScopeForSymbol _ _ _); exact (fun H => H). }
      apply (coherentPool_refCount _ (fun r => S (refCount r))).
      intros q r. simpl. rewrite lookup_insert.
      destruct (decide (nextAddress (registerPool c) = q)); [| apply H].
      intros [= <-]. split; [discriminate | intros _; split; reflexivity].
  - apply coherentPool_onHandle; [| exact H]. intros e r. apply coherent_load.
  - apply all_handles_update; [intros r Hr; exact Hr | exact H].
  - apply all_handles_update; [apply coherent_write | exact H].
  - apply all_handles_update; [apply coherent_setUndirty | exact H].
  - unfold removeIfUnreferenced.
    apply (coherentPool_refCount _ (fun r => Nat.pred (refCount r))).
    destruct (Nat.eqb _ 2).
    + unfold removeObject. destruct (contains _ _).
      * apply (coherentPool_refCount _ (fun r => Nat.pred (refCount r))).
        apply all_handles_set_pool.
        apply (coherentPool_refCount _ (fun r => S (refCount r))), H.
      * apply (coherentPool_refCount _ (fun r => S (refCount r))), H.
    + apply (coherentPool_refCount _ (fun r => S (refCount r))), H.
  - unfold getRegisterWithMemory.
    destruct (negb _); simpl;
      [apply (coherentPool_refCount _ (fun r => S (refCount r))), H |].
    destruct (objects _ !! p); simpl;
      [| apply (coherentPool_refCount _ (fun r => S (refCount r))), H].
    destruct (find _ _); simpl.
    + apply (coherentPool_refCount _ (fun r => S (refCount r))).
      apply all_handles_update; [intros r Hr; exact Hr | exact H].
    + apply (coherentPool_refCount _ (fun r => S (refCount r))), H.
  - apply all_handles_update; [| exact H]. intros r _.
    split; simpl; discriminate.
  - apply all_handles_update; [| exact H]. intros r _.
    split; simpl; [discriminate | intros _; split; reflexivity].
  - apply all_handles_update; [| exact H]. intros r _.
    split; simpl; [discriminate | intros _; split; reflexivity].
  - apply all_handles_update; [| exact H]. intros r _.
    split; simpl; discriminate.
  - apply coherentPool_onHandle; [| exact H].
    intros e r _. apply coherent_createMemoryLocation.
  - apply coherentPool_onHandle; [| exact H].
    intros e r. apply coherent_createRegister.
  - apply all_handles_update; [intros r Hr; exact Hr | exact H].
  - apply (coherentPool_refCount _ (fun r => Nat.pred (refCount r))), H.
  - unfold clear. apply all_handles_set_pool, all_handles_fold_dec;
      [intros r n Hr; exact Hr | exact H].
Qed.

Lemma coherentPool_run ops : forall c,
  coherentPool (registerPool c) ->
  coherentPool (registerPool
                  (run compiler scopes data createValid64BitPointer ops c)).
Proof.
  induction ops as [| op ops IH]; intros c H; simpl; [exact H |].
  apply IH, coherentPool_step, H.
Qed.

Lemma coherentPool_initial : coherentPool (registerPool initialCodegen).
Proof. intros q x. simpl. rewrite lookup_empty. intros [=]. Qed.

(** X1. Whatever code generation has done, a handle in
    [DirtyGlobalRegister] has its dirty flag set, so that [setUndirty]
    acts on it: it clears the flag and leaves the handle in
    [ActiveRegister]. No flush leaves a handle in [DirtyGlobalRegister]. *)
Theorem X1_dirty_state_has_dirty_flag :
  forall (ops : list Op) (p : RegPtr) (r : AssemblyRegister),
    objects (registerPool
               (run compiler scopes data createValid64BitPointer ops
                  initialCodegen)) !! p = Some r ->
    (state r = DirtyGlobalRegister ->
     dirty r = true
     /\ dirty (setUndirty r) = false
     /\ state (setUndirty r) = ActiveRegister)
    /\ state (setUndirty r) <> DirtyGlobalRegister.
Proof.
  intros ops p r Hp.
  destruct (coherentPool_run ops initialCodegen coherentPool_initial p r Hp)
    as [Hd _].
  assert (H1 : state r = DirtyGlobalRegister ->
               dirty r = true /\ dirty (setUndirty r) = false
               /\ state (setUndirty r) = ActiveRegister).
  { intros Hs. specialize (Hd Hs). split; [exact Hd |].
    apply setUndirty_registerResident; [exact Hd |].
    unfold isActiveOrDirtyGlobalRegister. rewrite Hs. reflexivity. }
  split; [exact H1 |].
  intros Hs. unfold setUndirty in Hs.
  destruct (dirty r && isActiveOrDirtyGlobalRegister r) eqn:E;
    [discriminate Hs |].
  destruct (H1 Hs) as (Hdr & _). rewrite Hdr in E.
  unfold isActiveOrDirtyGlobalRegister in E. rewrite Hs in E. discriminate E.
Qed.

(** X2. Whatever code generation has done, a handle in
    [UnloadedMemoryLocation] holds no register and no explicit memory
    operand. Materialising it therefore never returns early, and ends in
    [ActiveRegister]; and [getRegisterWithMemory] never coalesces it into
    another handle. *)
Theorem X2_unloaded_handle_is_bare :
  forall (ops : list Op) (p : RegPtr) (r : AssemblyRegister),
    let c := run compiler scopes data createValid64BitPointer ops
               initialCodegen in
    objects (registerPool c) !! p = Some r ->
    state r = UnloadedMemoryLocation ->
    reg r = None /\ hasCustomMem r = false
    /\ (forall e force, state (snd (load e force r)) = ActiveRegister)
    /\ snd (getRegisterWithMemory (registerPool c) p) = p.
Proof.
  intros ops p r c Hp Hs.
  destruct (coherentPool_run ops initialCodegen coherentPool_initial p r Hp)
    as [_ Hu].
  destruct (Hu Hs) as [Hr Hc].
  split; [exact Hr |]. split; [exact Hc |]. split.
  - intros e force. destruct (load_state_cases e force r) as [Heq | Ha];
      [| exact Ha].
    exfalso. revert Heq. unfold loadMemoryIntoRegister.
    rewrite Hr, Hs. simpl. rewrite andb_false_r. simpl.
    pose proof (createMemoryLocation_state compiler scopes data e r) as Hm.
    destruct (createMemoryLocation compiler scopes data e r) as [e1 r1].
    simpl in Hm. rewrite Hm. simpl. rewrite andb_false_r.
    destruct (createRegister compiler e1 r1) as [e2 r2].
    simpl. intros Heq. rewrite <- Heq in Hs. discriminate Hs.
  - rewrite getRegisterWithMemory_result. fold c. rewrite Hp.
    unfold hasCustomMemoryLocation. rewrite Hc. reflexivity.
Qed.

End Coherence.

(* ===================================================================== *)
(** ** The immediate of a handle *)
(* ===================================================================== *)

Section Immediate.

Context (compiler : BaseCompiler) (scopes : ScopeTree) (data : DataMemory).
Context (createValid64BitPointer :
           X86Compiler -> X86Mem -> Z -> nat -> X86Compiler * X86Mem).

#[local] Abbreviation load := (loadMemoryIntoRegister compiler scopes data
                                 createValid64BitPointer).
#[local] Abbreviation write := (getRegisterForWriteOp scopes).
#[local] Abbreviation intPool := (all_handles immediateIsInt).

Lemma write_immediate r :
  immediateIntValue (fst (write r)) = immediateIntValue r.
Proof.
  unfold getRegisterForWriteOp. cbv zeta.
  destruct (isGlobalMemory scopes r); simpl;
    destruct (Symbol.valid (id r)); simpl; try reflexivity;
    destruct (isIter r) eqn:Hi; simpl; rewrite ?Hi; simpl;
    split_ifs; reflexivity.
Qed.

Lemma setUndirty_immediate r :
  immediateIntValue (setUndirty r) = immediateIntValue r.
Proof. unfold setUndirty. split_ifs; reflexivity. Qed.

Lemma createRegister_immediate e r :
  immediateIntValue (snd (createRegister compiler e r))
  = immediateIntValue r.
Proof. unfold createRegister. cbv zeta. split_ifs; reflexivity. Qed.

Lemma createMemoryLocation_immediate e r :
  immediateIsInt r ->
  immediateIsInt (snd (createMemoryLocation compiler scopes data e r)).
Proof.
  unfold immediateIsInt, createMemoryLocation. cbv zeta. intros H.
  split_ifs; first [exact H | apply read_int_isInt].
Qed.

Lemma load_immediate e force r :
  immediateIsInt r -> immediateIsInt (snd (load e force r)).
Proof.
  intros H. unfold loadMemoryIntoRegister.
  destruct (negb force && isValid (reg r)); [exact H |].
  assert (H1 : immediateIsInt
                 (snd (if State_eqb (state r) UnloadedMemoryLocation
                       then createMemoryLocation compiler scopes data e r
                       else (e, r)))).
  { destruct (State_eqb (state r) UnloadedMemoryLocation);
      [apply createMemoryLocation_immediate |]; exact H. }
  destruct (if State_eqb (state r) UnloadedMemoryLocation
            then createMemoryLocation compiler scopes data e r
            else (e, r)) as [e1 r1].
  simpl in H1.
  destruct (negb force && State_eqb (state r1) ActiveRegister); [exact H1 |].
  pose proof (createRegister_immediate e1 r1) as H2.
  destruct (createRegister compiler e1 r1) as [e2 r2]. simpl in *.
  unfold immediateIsInt in *.
  change (immediateIntValue (set_state ActiveRegister r2))
    with (immediateIntValue r2).
  rewrite H2. exact H1.
Qed.

Lemma intPool_onHandle p f c :
  (forall e r, immediateIsInt r -> immediateIsInt (snd (f e r))) ->
  intPool (registerPool c) -> intPool (registerPool (onHandle p f c)).
Proof.
  intros Hf H. unfold onHandle.
  destruct (objects (registerPool c) !! p) as [r |] eqn:E; [| exact H].
  pose proof (Hf (cc c) r (H _ _ E)) as Hr.
  destruct (f (cc c) r) as [e' r']. simpl in *.
  intros q x. rewrite lookup_update.
  destruct (decide (p = q)); [| apply H].
  subst. rewrite E. simpl. intros [= <-]. exact Hr.
Qed.

Lemma intPool_refCount p g P :
  intPool P -> intPool (update p (fun r => set_refCount (g r) r) P).
Proof. apply all_handles_update. intros r Hr. exact Hr. Qed.

Lemma intPool_step op c :
  intPool (registerPool c) ->
  intPool (registerPool
             (step compiler scopes data createValid64BitPointer op c)).
Proof.
  intros H. destruct op; simpl.
  - unfold getRegisterForVariable. destruct (find _ _); simpl.
    + apply intPool_refCount, H.
    + apply all_handles_update.
      { intros r. unfold setReference.
        destruct (getScopeForSymbol _ _ _); exact (fun H => H). }
      apply (intPool_refCount _ (fun r => S (refCount r))).
      intros q r. simpl. rewrite lookup_insert.
      destruct (decide (nextAddress (registerPool c) = q)); [| apply H].
      intros [= <-]. unfold immediateIsInt, isInt. simpl. lia.
  - apply intPool_onHandle; [| exact H]. intros e r. apply load_immediate.
  - apply all_handles_update; [intros r Hr; exact Hr | exact H].
  - apply all_handles_update; [| exact H].
    intros r Hr. unfold immediateIsInt. rewrite write_immediate. exact Hr.
  - apply all_handles_update; [| exact H].
    intros r Hr. unfold immediateIsInt. rewrite setUndirty_immediate.
    exact Hr.
  - unfold removeIfUnreferenced.
    apply (intPool_refCount _ (fun r => Nat.pred (refCount r))).
    destruct (Nat.eqb _ 2).
    + unfold removeObject. destruct (contains _ _).
      * apply (intPool_refCount _ (fun r => Nat.pred (refCount r))).
        apply all_handles_set_pool.
        apply (intPool_refCount _ (fun r => S (refCount r))), H.
      * apply (intPool_refCount _ (fun r => S (refCount r))), H.
    + apply (intPool_refCount _ (fun r => S (refCount r))), H.
  - unfold getRegisterWithMemory.
    destruct (negb _); simpl;
      [apply (intPool_refCount _ (fun r => S (refCount r))), H |].
    destruct (objects _ !! p); simpl;
      [| apply (intPool_refCount _ (fun r => S (refCount r))), H].
    destruct (find _ _); simpl.
    + apply (intPool_refCount _ (fun r => S (refCount r))).
      apply all_handles_update; [intros r Hr; exact Hr | exact H].
    + apply (intPool_refCount _ (fun r => S (refCount r))), H.
  - apply all_handles_update; [intros r Hr; exact Hr | exact H].
  - apply all_handles_update; [intros r Hr; exact Hr | exact H].
  - apply all_handles_update; [| exact H]. intros r _. apply toInt_isInt.
  - apply all_handles_update; [intros r Hr; exact Hr | exact H].
  - apply intPool_onHandle; [| exact H].
    intros e r. apply createMemoryLocation_immediate.
  - apply intPool_onHandle; [| exact H].
    intros e r Hr. unfold immediateIsInt.
    rewrite createRegister_immediate. exact Hr.
  - apply all_handles_update; [intros r Hr; exact Hr | exact H].
  - apply (intPool_refCount _ (fun r => Nat.pred (refCount r))), H.
  - unfold clear. apply all_handles_set_pool, all_handles_fold_dec;
      [intros r n Hr; exact Hr | exact H].
Qed.

Lemma intPool_run ops : forall c,
  intPool (registerPool c) ->
  intPool (registerPool
             (run compiler scopes data createValid64BitPointer ops c)).
Proof.
  induction ops as [| op ops IH]; intros c H; simpl; [exact H |].
  apply IH, intPool_step, H.
Qed.

(** X24. Whatever code generation has done, the immediate of a handle is
    the value of an [int]: [getImmediateIntValue], which widens it, returns
    a 32-bit value, and the immediate moved into the 32-bit register on
    materialisation fits it. An [int64] given to [setImmediateValue] is cut
    to its low 32 bits; a value of an [int] is kept as it is. *)
Theorem X24_immediate_is_an_int :
  forall (ops : list Op) (p : RegPtr) (r : AssemblyRegister),
    objects (registerPool
               (run compiler scopes data createValid64BitPointer ops
                  initialCodegen)) !! p = Some r ->
    isInt (getImmediateIntValue r)
    /\ (forall value : Z,
          getImmediateIntValue (setImmediateValue value r) = toInt value
          /\ getImmediateIntValue (setImmediateValue (value + 2 ^ 32) r)
             = getImmediateIntValue (setImmediateValue value r)
          /\ (isInt value ->
              getImmediateIntValue (setImmediateValue value r) = value)).
Proof.
  intros ops p r Hp. split.
  - apply (intPool_run ops initialCodegen) in Hp; [exact Hp |].
    intros q x Hq. simpl in Hq. rewrite lookup_empty in Hq. discriminate Hq.
  - intros value. split; [reflexivity |]. split.
    + unfold getImmediateIntValue, setImmediateValue. simpl.
      unfold toInt. f_equal.
      replace (value + 2 ^ 32 + 2 ^ 31) with (value + 2 ^ 31 + 1 * 2 ^ 32)
        by lia.
      apply Z.mod_add. lia.
    + exact (toInt_id value).
Qed.

End Immediate.

(* ===================================================================== *)
(** ** Registers and loads by type *)
(* ===================================================================== *)

Section Materialisation.

Context (compiler : BaseCompiler) (scopes : ScopeTree) (data : DataMemory).
Context (createValid64BitPointer :
           X86Compiler -> X86Mem -> Z -> nat -> X86Compiler * X86Mem).

#[local] Abbreviation load := (loadMemoryIntoRegister compiler scopes data
                                 createValid64BitPointer).
#[local] Abbreviation write := (getRegisterForWriteOp scopes).

Lemma createRegister_fresh e r k :
  reg r = None -> blockConsistent compiler r ->
  registerClass (getType compiler r) (isSimd4Float compiler r) = Some k ->
  createRegister compiler e r
  = (fst (newReg k e),
     set_state ActiveRegister (set_reg (Some (snd (newReg k e))) r)).
Proof.
  unfold blockConsistent, createRegister, getType, isSimd4Float.
  intros Hr Hb Hk. rewrite Hr. simpl.
  destruct (getRegisterType compiler (type r)) eqn:Ht; simpl in Hb, Hk;
    try discriminate Hk; injection Hk as <-;
    repeat (simpl; rewrite ?Ht, ?Hb); try reflexivity.
  destruct (negb (autoVectorisation compiler)); simpl; [reflexivity |].
  destruct (type r) as [| el n |]; try reflexivity.
  destruct (TypeInfo_eqb el (NativeType Types.Float) && Nat.eqb n 4);
    reflexivity.
Qed.

Lemma createRegister_none e r :
  reg r = None -> blockConsistent compiler r ->
  getType compiler r = Types.Dynamic ->
  createRegister compiler e r = (e, set_state ActiveRegister r).
Proof.
  unfold blockConsistent, createRegister, getType.
  intros Hr Hb Ht. rewrite Hr. rewrite Ht in Hb. simpl in Hb.
  repeat (simpl; rewrite ?Ht, ?Hb). reflexivity.
Qed.

(** X3. [createRegister] leaves a handle that holds a valid register, and
    the emitter, as they are. Otherwise it takes exactly one new virtual
    register of the class of the register type (scalar single or double,
    32-bit or 64-bit general purpose, packed single for a span of four
    floats under auto-vectorisation), emits nothing and leaves the handle
    in [ActiveRegister]; for the dynamic type it takes no register, and
    the handle is in [ActiveRegister] without one. *)
Theorem X3_createRegister_by_type :
  forall (e : X86Compiler) (r : AssemblyRegister),
    blockConsistent compiler r ->
    let e' := fst (createRegister compiler e r) in
    let h := snd (createRegister compiler e r) in
    (isValid (reg r) = true -> e' = e /\ h = r)
    /\ (reg r = None ->
        instructions e' = instructions e /\ constPool e' = constPool e
        /\ state h = ActiveRegister
        /\ match registerClass (getType compiler r)
                   (isSimd4Float compiler r) with
           | Some k =>
               reg h = Some {| regKind := k; virtId := nextVirtId e |}
               /\ nextVirtId e' = S (nextVirtId e)
           | None => reg h = None /\ nextVirtId e' = nextVirtId e
           end).
Proof.
  intros e r Hb e' h. split.
  - intros Hv. unfold e', h, createRegister. rewrite Hv. auto.
  - intros Hr. unfold e', h.
    destruct (registerClass (getType compiler r) (isSimd4Float compiler r))
      as [k |] eqn:Hk.
    + rewrite (createRegister_fresh e r k Hr Hb Hk). simpl. auto.
    + assert (Ht : getType compiler r = Types.Dynamic).
      { destruct (getType compiler r); simpl in Hk;
          try discriminate Hk; reflexivity. }
      rewrite (createRegister_none e r Hr Hb Ht). simpl. auto.
Qed.

(** [loadMemoryIntoRegister] past its two early returns, for a handle that
    is not unloaded. *)
Lemma load_loaded e force r :
  negb force && isValid (reg r) = false ->
  State_eqb (state r) UnloadedMemoryLocation = false ->
  negb force && State_eqb (state r) ActiveRegister = false ->
  isSimd4Float compiler r = false ->
  load e force r
  = (emitOption (loadInstruction compiler (snd (createRegister compiler e r)))
       (fst (createRegister compiler e r)),
     set_state ActiveRegister (snd (createRegister compiler e r))).
Proof.
  intros H1 H2 H3 Hsimd. unfold loadMemoryIntoRegister.
  rewrite H1, H2, H3.
  assert (Hty : type (snd (createRegister compiler e r)) = type r).
  { unfold createRegister. cbv zeta. split_ifs; reflexivity. }
  destruct (createRegister compiler e r) as [e2 r2]. simpl in *.
  unfold loadInstruction, getType, isSimd4Float in *. rewrite Hty, Hsimd.
  destruct (getRegisterType compiler (type r)); simpl; try reflexivity;
    split_ifs; reflexivity.
Qed.

End Materialisation.

Section Loads.

Context (compiler : BaseCompiler) (scopes : ScopeTree) (data : DataMemory).
Context (createValid64BitPointer :
           X86Compiler -> X86Mem -> Z -> nat -> X86Compiler * X86Mem).

#[local] Abbreviation load := (loadMemoryIntoRegister compiler scopes data
                                 createValid64BitPointer).
#[local] Abbreviation write := (getRegisterForWriteOp scopes).

Lemma createMemoryLocation_type e r :
  type (snd (createMemoryLocation compiler scopes data e r)) = type r.
Proof. unfold createMemoryLocation. cbv zeta. split_ifs; reflexivity. Qed.

Lemma createRegister_type e r :
  type (snd (createRegister compiler e r)) = type r.
Proof. unfold createRegister. cbv zeta. split_ifs; reflexivity. Qed.

(** [loadMemoryIntoRegister] on an unloaded handle without register: the
    memory location, the register, the instruction. *)
Lemma load_unloaded e force r :
  state r = UnloadedMemoryLocation -> reg r = None ->
  (getType compiler r = Types.Pointer -> isSimd4Float compiler r = false) ->
  let c := createMemoryLocation compiler scopes data e r in
  let g := createRegister compiler (fst c) (snd c) in
  load e force r
  = (emitOption (loadInstruction compiler (snd g)) (fst g),
     set_state ActiveRegister (snd g)).
Proof.
  intros Hs Hr Hsimd c g. subst c g. unfold loadMemoryIntoRegister.
  rewrite Hs, Hr. simpl. rewrite andb_false_r. simpl.
  pose proof (createMemoryLocation_state compiler scopes data e r) as Hm.
  pose proof (createMemoryLocation_type e r) as Ht1.
  destruct (createMemoryLocation compiler scopes data e r) as [e1 r1].
  simpl in Hm, Ht1. rewrite Hm. simpl. rewrite andb_false_r.
  pose proof (createRegister_type e1 r1) as Ht2.
  destruct (createRegister compiler e1 r1) as [e2 r2]. simpl in *.
  unfold loadInstruction, getType, isSimd4Float in *.
  rewrite Ht2, Ht1.
  destruct (getRegisterType compiler (type r)); simpl; try reflexivity.
  - rewrite (Hsimd eq_refl). split_ifs; reflexivity.
  - split_ifs; reflexivity.
  - split_ifs; reflexivity.
Qed.

Lemma createMemoryLocation_float e r :
  getType compiler r = Types.Float ->
  isGlobalVariableRegister scopes r && negb (Symbol.isConst (id r)) = false ->
  let v := read_float data (memoryLocation r) in
  createMemoryLocation compiler scopes data e r
  = (fst (newFloatConst v e),
     set_state LoadedMemoryLocation
       (set_memory (snd (newFloatConst v e))
          (set_isZeroValue (float_is_zero v) r))).
Proof.
  intros Ht Hg v. subst v. unfold createMemoryLocation, getType in *.
  repeat (simpl; rewrite ?Ht, ?Hg). reflexivity.
Qed.

Lemma createMemoryLocation_double e r :
  getType compiler r = Types.Double ->
  isGlobalVariableRegister scopes r && negb (Symbol.isConst (id r)) = false ->
  let v := read_double data (memoryLocation r) in
  createMemoryLocation compiler scopes data e r
  = (fst (newDoubleConst v e),
     set_state LoadedMemoryLocation
       (set_memory (snd (newDoubleConst v e))
          (set_isZeroValue (double_is_zero v) r))).
Proof.
  intros Ht Hg v. subst v. unfold createMemoryLocation, getType in *.
  repeat (simpl; rewrite ?Ht, ?Hg). reflexivity.
Qed.

Lemma createMemoryLocation_integer e r :
  getType compiler r = Types.Integer ->
  isGlobalVariableRegister scopes r && negb (Symbol.isConst (id r)) = false ->
  let r' := if negb (memoryLocation r =? 0)
            then set_immediateIntValue (read_int data (memoryLocation r)) r
            else r in
  createMemoryLocation compiler scopes data e r
  = (e, set_state LoadedMemoryLocation
          (set_isZeroValue (immediateIntValue r' =? 0) r')).
Proof.
  intros Ht Hg r'. subst r'. unfold createMemoryLocation, getType in *.
  repeat (simpl; rewrite ?Ht, ?Hg).
  destruct (negb (memoryLocation r =? 0));
    repeat (simpl; rewrite ?Ht); reflexivity.
Qed.

(** X4. A float or double handle that is no non-constant global variable
    is materialised from the constant pool: the value at its data pointer
    becomes a new pool entry of 4 or 8 bytes, one fresh scalar register is
    taken, and one [movss] or [movsd] from the pool entry is emitted. The
    handle ends in [ActiveRegister] without an explicit memory operand,
    and [isZeroValue] tells whether the constant is zero. *)
Theorem X4_constant_from_pool :
  forall (e : X86Compiler) (force : bool) (r : AssemblyRegister),
    state r = UnloadedMemoryLocation -> reg r = None ->
    isGlobalVariableRegister scopes r && negb (Symbol.isConst (id r)) = false ->
    blockConsistent compiler r ->
    let e' := fst (load e force r) in
    let h := snd (load e force r) in
    (getType compiler r = Types.Float ->
     let v := read_float data (memoryLocation r) in
     constPool e' = constPool e ++ [(4%nat, v)]
     /\ instructions e'
        = instructions e
          ++ [movss_rm (Some {| regKind := XmmSs; virtId := nextVirtId e |})
                {| memSize := 4; memBase := None;
                   memLabel := Some (length (constPool e)); memOffset := 0 |}]
     /\ nextVirtId e' = S (nextVirtId e)
     /\ state h = ActiveRegister /\ hasCustomMem h = hasCustomMem r
     /\ isZeroValue h = float_is_zero v)
    /\ (getType compiler r = Types.Double ->
        let v := read_double data (memoryLocation r) in
        constPool e' = constPool e ++ [(8%nat, v)]
        /\ instructions e'
           = instructions e
             ++ [movsd_rm (Some {| regKind := XmmSd; virtId := nextVirtId e |})
                   {| memSize := 8; memBase := None;
                      memLabel := Some (length (constPool e));
                      memOffset := 0 |}]
        /\ nextVirtId e' = S (nextVirtId e)
        /\ state h = ActiveRegister /\ hasCustomMem h = hasCustomMem r
        /\ isZeroValue h = double_is_zero v).
Proof.
  intros e force r Hs Hr Hg Hb e' h. subst e' h.
  split; intros Ht.
  - rewrite (load_unloaded e force r Hs Hr)
      by (rewrite Ht; discriminate).
    rewrite (createMemoryLocation_float e r Ht Hg). simpl fst. simpl snd.
    erewrite createRegister_fresh with (k := XmmSs);
      [| exact Hr | exact Hb | unfold getType in *; simpl; rewrite Ht;
                                reflexivity].
    unfold loadInstruction, getType in *. simpl. rewrite Ht. simpl.
    repeat split.
  - rewrite (load_unloaded e force r Hs Hr)
      by (rewrite Ht; discriminate).
    rewrite (createMemoryLocation_double e r Ht Hg). simpl fst. simpl snd.
    erewrite createRegister_fresh with (k := XmmSd);
      [| exact Hr | exact Hb | unfold getType in *; simpl; rewrite Ht;
                                reflexivity].
    unfold loadInstruction, getType in *. simpl. rewrite Ht. simpl.
    repeat split.
Qed.

(** X5. An integer handle that is no non-constant global variable and is
    given a data pointer is folded into an immediate: materialising it
    reads the [int] at the pointer at compile time, adds nothing to the
    constant pool, and emits one move of that value into a fresh 32-bit
    register, no memory load. [getImmediateIntValue] returns the value
    read and [isZeroValue] tells whether it is zero. *)
Theorem X5_integer_folded_from_data_pointer :
  forall (e : X86Compiler) (force : bool) (r : AssemblyRegister)
         (memLoc : Z) (isGlobal : bool),
    getType compiler r = Types.Integer ->
    blockConsistent compiler r ->
    isGlobalVariableRegister scopes r && negb (Symbol.isConst (id r)) = false ->
    memLoc <> 0 ->
    let h0 := setDataPointer memLoc isGlobal r in
    let e' := fst (load e force h0) in
    let h := snd (load e force h0) in
    instructions e'
    = instructions e
      ++ [mov_ri (Some {| regKind := Gpd; virtId := nextVirtId e |})
            (read_int data memLoc)]
    /\ constPool e' = constPool e
    /\ loadCount e' = loadCount e
    /\ getImmediateIntValue h = read_int data memLoc
    /\ isZeroValue h = (read_int data memLoc =? 0)
    /\ state h = ActiveRegister /\ hasCustomMem h = false.
Proof.
  intros e force r memLoc isGlobal Ht Hb Hg Hn h0 e' h.
  assert (Hn' : negb (memLoc =? 0) = true)
    by (apply negb_true_iff, Z.eqb_neq, Hn).
  assert (Ht0 : getType compiler h0 = Types.Integer) by exact Ht.
  subst e' h.
  rewrite (load_unloaded e force h0 eq_refl eq_refl)
    by (rewrite Ht0; discriminate).
  rewrite (createMemoryLocation_integer e h0 Ht0 Hg). simpl fst. simpl snd.
  replace (memoryLocation h0) with memLoc by reflexivity. rewrite Hn'.
  erewrite createRegister_fresh with (k := Gpd);
    [| reflexivity | exact Hb
     | unfold getType in *; simpl; rewrite Ht; reflexivity].
  unfold loadInstruction, getType, getImmediateIntValue in *. simpl.
  rewrite Ht. simpl. rewrite loadCount_emit. simpl.
  repeat split. unfold loadCount. simpl. lia.
Qed.

(** X6. A handle bound to a non-constant global variable of a type other
    than pointer gets its memory operand through a pointer register:
    [createMemoryLocation] takes one fresh 64-bit register, moves the data
    pointer into it, and makes the operand that register's target, eight
    bytes wide for double and block and four otherwise. The handle is then
    bound to global storage, so that the next write marks it dirty. *)
Theorem X6_global_variable_through_pointer_register :
  forall (e : X86Compiler) (r : AssemblyRegister),
    getType compiler r <> Types.Pointer ->
    isGlobalVariableRegister scopes r = true ->
    Symbol.isConst (id r) = false ->
    let e' := fst (createMemoryLocation compiler scopes data e r) in
    let h := snd (createMemoryLocation compiler scopes data e r) in
    let base := {| regKind := Gpq; virtId := nextVirtId e |} in
    instructions e' = instructions e ++ [mov_ri (Some base) (memoryLocation r)]
    /\ nextVirtId e' = S (nextVirtId e) /\ constPool e' = constPool e
    /\ memBase (memory h) = Some base /\ memOffset (memory h) = 0
    /\ memSize (memory h)
       = (if Types.eqb (getType compiler r) Types.Double
             || Types.eqb (getType compiler r) Types.Block
          then 8%nat else 4%nat)
    /\ hasCustomMem h = true /\ state h = LoadedMemoryLocation
    /\ isGlobalMemory scopes h = true
    /\ dirty (fst (write h)) = true
    /\ state (fst (write h)) = DirtyGlobalRegister.
Proof.
  intros e r Ht Hg Hc e' h base.
  assert (Hp : Types.eqb (getType compiler r) Types.Pointer = false).
  { destruct (Types.eqb (getType compiler r) Types.Pointer) eqn:E;
      [| reflexivity]. apply Types_eqb_eq in E. contradiction. }
  assert (Heq : createMemoryLocation compiler scopes data e r
                = (emit (mov_ri (Some base) (memoryLocation r))
                     (fst (newGpq e)),
                   set_state LoadedMemoryLocation
                     (set_hasCustomMem true
                        (set_memory
                           (if Types.eqb (getType compiler r) Types.Double
                               || Types.eqb (getType compiler r) Types.Block
                            then qword_ptr base else dword_ptr base) r)))).
  { unfold createMemoryLocation. rewrite Hp, Hg, Hc. simpl.
    rewrite orb_false_r. reflexivity. }
  assert (Hglobal : isGlobalMemory scopes h = true).
  { unfold h. rewrite Heq. unfold isGlobalMemory, isGlobalVariableRegister in *.
    simpl. rewrite Hg. apply orb_true_r. }
  destruct (write_global scopes h Hglobal) as [Hd Hs].
  unfold e', h in *. rewrite Heq in *. simpl.
  repeat split; try assumption;
    destruct (Types.eqb (getType compiler r) Types.Double
              || Types.eqb (getType compiler r) Types.Block); reflexivity.
Qed.

(** X7. A forced reload of a handle that holds a valid register, of a
    scalar or block type, takes no new register and adds nothing to the
    constant pool: it emits one instruction whose destination is the
    register the handle already holds. The dirty flag and the binding to
    global storage stay, but the state becomes [ActiveRegister], also for
    a handle that was in [DirtyGlobalRegister]. *)
Theorem X7_forced_reload_keeps_register :
  forall (e : X86Compiler) (r : AssemblyRegister),
    isValid (reg r) = true ->
    state r <> UnloadedMemoryLocation ->
    getType compiler r <> Types.Pointer ->
    getType compiler r <> Types.Dynamic ->
    let e' := fst (load e true r) in
    let h := snd (load e true r) in
    reg h = reg r /\ dirty h = dirty r /\ memory h = memory r
    /\ state h = ActiveRegister
    /\ isDirtyGlobalMemory scopes h = isDirtyGlobalMemory scopes r
    /\ nextVirtId e' = nextVirtId e /\ constPool e' = constPool e
    /\ exists i, instructions e' = instructions e ++ [i]
                 /\ destination i = reg r.
Proof.
  intros e r Hv Hs Hp Hd e' h.
  assert (Hu : State_eqb (state r) UnloadedMemoryLocation = false).
  { destruct (State_eqb (state r) UnloadedMemoryLocation) eqn:E;
      [| reflexivity]. apply State_eqb_eq in E. contradiction. }
  subst e' h. unfold loadMemoryIntoRegister, createRegister.
  rewrite Hu, Hv. simpl.
  unfold getType in *.
  destruct (getRegisterType compiler (type r)); try contradiction;
    try destruct (hasCustomMem r); simpl; repeat split; eauto.
Qed.

(** X15. After [setCustomMemoryLocation], materialising the handle reads
    from exactly the operand it was given: one fresh register of the class
    of the type is taken and one instruction with that operand as its
    source and that register as its destination is emitted, a load for
    scalar and block types and an address computation for pointers. *)
Theorem X15_custom_memory_is_what_is_loaded :
  forall (e : X86Compiler) (force : bool) (r : AssemblyRegister)
         (m : X86Mem) (isGlobal : bool) (k : RegKind),
    blockConsistent compiler r ->
    isSimd4Float compiler r = false ->
    registerClass (getType compiler r) false = Some k ->
    let h0 := setCustomMemoryLocation m isGlobal r in
    let e' := fst (load e force h0) in
    let h := snd (load e force h0) in
    let fresh := {| regKind := k; virtId := nextVirtId e |} in
    reg h = Some fresh /\ memory h = m /\ state h = ActiveRegister
    /\ dirty h = false /\ nextVirtId e' = S (nextVirtId e)
    /\ exists i, instructions e' = instructions e ++ [i]
                 /\ destination i = Some fresh
                 /\ memorySource i = Some m
                 /\ isMemoryLoad i
                    = negb (Types.eqb (getType compiler r) Types.Pointer).
Proof.
  intros e force r m isGlobal k Hb Hsimd Hk h0 e' h fresh.
  assert (Hk0 : registerClass (getType compiler h0)
                  (isSimd4Float compiler h0) = Some k).
  { unfold h0, getType, isSimd4Float in *. simpl. rewrite Hsimd. exact Hk. }
  assert (Hl : load e force h0
               = (emitOption
                    (loadInstruction compiler
                       (snd (createRegister compiler e h0)))
                    (fst (createRegister compiler e h0)),
                  set_state ActiveRegister
                    (snd (createRegister compiler e h0)))).
  { apply load_loaded;
      first [exact Hsimd | apply andb_false_r | reflexivity]. }
  subst e' h. rewrite Hl.
  rewrite (createRegister_fresh compiler e h0 k eq_refl Hb Hk0). simpl.
  unfold loadInstruction, getType in *. simpl.
  destruct (getRegisterType compiler (type r)); simpl in Hk;
    try discriminate Hk; injection Hk as <-; simpl;
    repeat split; eauto.
Qed.

End Loads.

(* ===================================================================== *)
(** ** Writes and flushes composed *)
(* ===================================================================== *)

Section Writes.

Context (scopes : ScopeTree).

#[local] Abbreviation write := (getRegisterForWriteOp scopes).

Lemma write_normal_form r :
  fst (write r) = marked (writeSetsDirty scopes r) (writeSetsState scopes r) r.
Proof.
  unfold writeSetsDirty, writeSetsState, marked, hasRegisterContext,
    resolvedScope, getRegisterForWriteOp.
  destruct (isGlobalMemory scopes r); simpl;
    destruct (Symbol.valid (id r)); simpl; try reflexivity;
    destruct (isIter r) eqn:Hi; simpl; rewrite ?Hi; simpl;
    destruct (getScopeForSymbol scopes (scope r) (Symbol.id (id r)));
    simpl;
    repeat (match goal with
            | |- context [Nat.eqb (getRootClassScope scopes ?s) ?s] =>
                destruct (Nat.eqb (getRootClassScope scopes s) s)
            | |- context [Symbol.isReference ?x] =>
                destruct (Symbol.isReference x)
            | |- context [getScopeType scopes ?s] =>
                destruct (getScopeType scopes s)
            | |- context [Z.eqb (memoryLocation ?x) 0] =>
                destruct (Z.eqb (memoryLocation x) 0)
            end; simpl);
    reflexivity.
Qed.

Lemma marked_flags d s r :
  writeSetsDirty scopes (marked d s r) = writeSetsDirty scopes r
  /\ writeSetsState scopes (marked d s r) = writeSetsState scopes r
  /\ invalidWriteTarget scopes (marked d s r) = invalidWriteTarget scopes r
  /\ reg (marked d s r) = reg r.
Proof. destruct d, s; repeat split. Qed.

Lemma write_outcome_form r :
  snd (write r)
  = if invalidWriteTarget scopes r
    then Thrown "can't write to global variables"%string
    else Returned (reg r).
Proof.
  unfold invalidWriteTarget, hasRegisterContext, resolvesToGlobalScope,
    resolvedScope, getRegisterForWriteOp.
  destruct (isGlobalMemory scopes r); simpl;
    destruct (Symbol.valid (id r)); simpl; try reflexivity;
    destruct (isIter r) eqn:Hi; simpl; rewrite ?Hi; simpl;
    destruct (getScopeForSymbol scopes (scope r) (Symbol.id (id r)));
    simpl;
    repeat (match goal with
            | |- context [Nat.eqb (getRootClassScope scopes ?s) ?s] =>
                destruct (Nat.eqb (getRootClassScope scopes s) s)
            | |- context [Symbol.isReference ?x] =>
                destruct (Symbol.isReference x)
            | |- context [getScopeType scopes ?s] =>
                destruct (getScopeType scopes s)
            | |- context [Z.eqb (memoryLocation ?x) 0] =>
                destruct (Z.eqb (memoryLocation x) 0)
            end; simpl);
    reflexivity.
Qed.

(** X16. What a write changes, and that writing twice is writing once.
    [getRegisterForWriteOp] touches the dirty flag and the state only: it
    sets the flag for a handle bound to global storage, for an iterator
    with a valid symbol, and for a handle with a valid symbol, a register
    context and a data pointer; it sets [DirtyGlobalRegister] in the first
    and the last case, so also for handles [getListOfAllDirtyGlobals] does
    not list. A second write leaves the handle as the first left it and
    has the same outcome; a write never clears the flag. *)
Theorem X16_write_marks_and_is_idempotent :
  forall r : AssemblyRegister,
    fst (write r)
    = marked (writeSetsDirty scopes r) (writeSetsState scopes r) r
    /\ dirty (fst (write r)) = dirty r || writeSetsDirty scopes r
    /\ state (fst (write r))
       = (if writeSetsState scopes r then DirtyGlobalRegister else state r)
    /\ write (fst (write r)) = write r
    /\ setUndirty (setUndirty r) = setUndirty r.
Proof.
  intros r. pose proof (write_normal_form r) as Hn.
  split; [exact Hn |]. split; [| split; [| split]].
  - rewrite Hn. unfold marked.
    destruct (writeSetsDirty scopes r), (writeSetsState scopes r); simpl;
      rewrite ?orb_true_r, ?orb_false_r; reflexivity.
  - rewrite Hn. unfold marked.
    destruct (writeSetsDirty scopes r), (writeSetsState scopes r);
      reflexivity.
  - rewrite (surjective_pairing (write (fst (write r)))).
    rewrite (surjective_pairing (write r)) at 3.
    rewrite write_normal_form, !write_outcome_form. rewrite Hn.
    destruct (marked_flags (writeSetsDirty scopes r)
                (writeSetsState scopes r) r) as (Hd & Hs & Hi & Hr).
    rewrite Hd, Hs, Hi, Hr. f_equal.
    unfold marked.
    destruct (writeSetsDirty scopes r), (writeSetsState scopes r);
      reflexivity.
  - unfold setUndirty, isActiveOrDirtyGlobalRegister.
    destruct (dirty r) eqn:Hd; simpl; [| rewrite Hd; reflexivity].
    destruct (state r) eqn:Hs; simpl; rewrite ?Hd, ?Hs; reflexivity.
Qed.

End Writes.

(* ===================================================================== *)
(** ** Reset, release and scratch registers *)
(* ===================================================================== *)

Lemma set_refCount_restore r :
  set_refCount (Nat.pred (refCount (set_refCount (S (refCount r)) r)))
    (set_refCount (S (refCount r)) r) = r.
Proof. destruct r. reflexivity. Qed.

Lemma inc_dec_ReferenceCount p P :
  decReferenceCount p (incReferenceCount p P) = P.
Proof.
  destruct P as [o n c l]. unfold decReferenceCount, incReferenceCount, update,
    set_objects. simpl. f_equal.
  apply map_eq. intros q.
  destruct (decide (p = q)) as [<- | Hne];
    [rewrite !lookup_alter_eq | rewrite !lookup_alter_ne by assumption;
                                reflexivity].
  destruct (o !! p); simpl; [| reflexivity].
  f_equal. apply set_refCount_restore.
Qed.

Lemma fold_decReferenceCount_lookup l : forall P q,
  NoDup l ->
  objects (fold_right decReferenceCount P l) !! q
  = if contains l q
    then (fun r => set_refCount (Nat.pred (refCount r)) r) <$> objects P !! q
    else objects P !! q.
Proof.
  induction l as [| x l IH]; intros P q Hn; [reflexivity |].
  apply NoDup_cons in Hn. destruct Hn as [Hx Hn].
  change (fold_right decReferenceCount P (x :: l))
    with (decReferenceCount x (fold_right decReferenceCount P l)).
  change (contains (x :: l) q) with (Nat.eqb q x || contains l q).
  unfold decReferenceCount at 1. rewrite lookup_update, (IH P q Hn).
  destruct (decide (x = q)) as [<- | Hne].
  - rewrite Nat.eqb_refl. simpl.
    assert (Hc : contains l x = false).
    { destruct (contains l x) eqn:E; [| reflexivity].
      apply contains_In, list_elem_of_In in E. contradiction. }
    rewrite Hc. reflexivity.
  - replace (Nat.eqb q x) with false
      by (symmetry; apply Nat.eqb_neq; congruence).
    reflexivity.
Qed.

Section ResetAndRelease.

Context (scopes : ScopeTree).

#[local] Abbreviation resolve := (getRegisterForVariable scopes).

(** X8. [clear] empties the pool: no dirty global and no named register
    is listed any more, and each handle the pool held loses exactly one
    holder while all other handles of the store are untouched. After it,
    every resolution creates a handle at a new address, never returning a
    handle of the unit before. *)
Theorem X8_clear_releases_every_handle_once :
  forall P : AssemblyRegisterPool,
    pool_wf P ->
    let P' := clear P in
    currentRegisterPool P' = []
    /\ getListOfAllDirtyGlobals scopes P' = []
    /\ getListOfAllNamedRegisters P' = []
    /\ (forall p, In p (currentRegisterPool P) ->
                  getReferenceCount P' p = Nat.pred (getReferenceCount P p))
    /\ (forall p, ~ In p (currentRegisterPool P) ->
                  objects P' !! p = objects P !! p)
    /\ (forall s y,
          snd (resolve P' s y) = nextAddress P
          /\ objects P !! snd (resolve P' s y) = None).
Proof.
  intros P Hw P'.
  assert (Hl : forall q, objects P' !! q
                 = if contains (currentRegisterPool P) q
                   then (fun r => set_refCount (Nat.pred (refCount r)) r)
                          <$> objects P !! q
                   else objects P !! q).
  { intros q. unfold P', clear. simpl.
    apply fold_decReferenceCount_lookup, pool_wf_NoDup, Hw. }
  split; [reflexivity |]. split; [reflexivity |]. split; [reflexivity |].
  split; [| split].
  - intros p Hp. unfold getReferenceCount. rewrite Hl.
    apply contains_In in Hp. rewrite Hp.
    destruct (objects P !! p); reflexivity.
  - intros p Hp. rewrite Hl.
    destruct (contains (currentRegisterPool P) p) eqn:E; [| reflexivity].
    apply contains_In in E. contradiction.
  - intros s y.
    assert (Hr : snd (resolve P' s y) = nextAddress P).
    { rewrite (resolve_new scopes P' s y) by reflexivity. simpl.
      unfold P', clear. simpl.
      apply (fold_decReferenceCount_pool (currentRegisterPool P) P). }
    split; [exact Hr |]. rewrite Hr.
    apply eq_None_not_Some. destruct Hw as [_ _ Hs]. rewrite Hs. lia.
Qed.

(** X9. [removeIfUnreferenced] changes nothing at all, neither the pool
    nor any count, unless it retires the handle: the count it reads is 2
    and the handle is in the pool. When it retires a handle, that handle
    is left without any holder and every other handle is as before. *)
Theorem X9_release_changes_nothing_unless_it_retires :
  forall (P : AssemblyRegisterPool) (ref : RegPtr),
    let seen := getReferenceCount (incReferenceCount ref P) ref in
    let P' := removeIfUnreferenced ref P in
    (seen <> 2%nat \/ ~ In ref (currentRegisterPool P) -> P' = P)
    /\ (forall r,
          seen = 2%nat -> In ref (currentRegisterPool P) ->
          objects P !! ref = Some r ->
          objects P' !! ref = Some (set_refCount 0 r)
          /\ nextAddress P' = nextAddress P
          /\ forall q, q <> ref -> objects P' !! q = objects P !! q).
Proof.
  intros P ref seen P'. split.
  - intros H. unfold P', removeIfUnreferenced. fold seen.
    destruct (Nat.eqb seen 2) eqn:E.
    + apply Nat.eqb_eq in E. destruct H as [H | H]; [contradiction |].
      unfold removeObject.
      replace (contains (currentRegisterPool (incReferenceCount ref P)) ref)
        with false; [apply inc_dec_ReferenceCount |].
      symmetry. destruct (contains _ ref) eqn:Ec; [| reflexivity].
      apply contains_In in Ec. contradiction.
    + apply inc_dec_ReferenceCount.
  - intros r H2 Hin Hr. unfold P', removeIfUnreferenced. fold seen.
    rewrite H2. simpl. unfold removeObject.
    replace (contains (currentRegisterPool (incReferenceCount ref P)) ref)
      with true by (symmetry; apply contains_In; exact Hin).
    assert (Hrc : refCount r = 1%nat).
    { unfold seen, getReferenceCount, incReferenceCount in H2.
      rewrite (lookup_update_eq _ _ _ _ Hr) in H2. simpl in H2. lia. }
    split; [| split; [reflexivity |]].
    + unfold decReferenceCount, incReferenceCount, update. simpl.
      rewrite !lookup_alter_eq, Hr. simpl. rewrite Hrc.
      destruct r. reflexivity.
    + intros q Hq. unfold decReferenceCount, incReferenceCount, update. simpl.
      rewrite !lookup_alter_ne by congruence. reflexivity.
Qed.

Lemma filter_pointwise (f g : nat -> bool) l :
  (forall x, In x l -> f x = g x) -> List.filter f l = List.filter g l.
Proof.
  induction l as [| x l IH]; simpl; [reflexivity |].
  intros H. rewrite <- (H x) by tauto.
  rewrite IH by (intros y Hy; apply H; tauto). reflexivity.
Qed.

(** X13. [getNextFreeRegister] never recycles: the handle it returns is
    at an address the store did not hold, new in the pool and last in it,
    unmaterialised, clean, anonymous and held twice (by the pool and by
    the caller). Every other handle is untouched, and neither the dirty
    globals nor the named registers of the pool change. *)
Theorem X13_scratch_register_is_fresh :
  forall (P : AssemblyRegisterPool) (s : BaseScope) (t : TypeInfo),
    pool_wf P ->
    let P' := fst (getNextFreeRegister P s t) in
    let a := snd (getNextFreeRegister P s t) in
    objects P !! a = None /\ ~ In a (currentRegisterPool P)
    /\ currentRegisterPool P' = currentRegisterPool P ++ [a]
    /\ objects P' !! a
       = Some (set_refCount 2%nat (new_AssemblyRegister t (counter P) s))
    /\ (forall q, q <> a -> objects P' !! q = objects P !! q)
    /\ getListOfAllDirtyGlobals scopes P' = getListOfAllDirtyGlobals scopes P
    /\ getListOfAllNamedRegisters P' = getListOfAllNamedRegisters P.
Proof.
  intros P s t Hw P' a.
  assert (Ha : a = nextAddress P) by reflexivity.
  assert (Hnone : objects P !! a = None).
  { apply eq_None_not_Some. destruct Hw as [_ _ Hs]. rewrite Hs, Ha. lia. }
  assert (Hfresh : ~ In a (currentRegisterPool P)).
  { intros Hin. destruct Hw as [_ Hb _]. rewrite Forall_forall in Hb.
    apply list_elem_of_In, Hb in Hin. lia. }
  assert (Hnew : objects P' !! a
                 = Some (set_refCount 2%nat
                           (new_AssemblyRegister t (counter P) s))).
  { unfold P', getNextFreeRegister, incReferenceCount, update. simpl.
    rewrite lookup_alter_eq, lookup_insert_eq. reflexivity. }
  assert (Hold : forall q, q <> a -> objects P' !! q = objects P !! q).
  { intros q Hq. unfold P', getNextFreeRegister, incReferenceCount, update.
    simpl. rewrite lookup_alter_ne, lookup_insert_ne by congruence.
    reflexivity. }
  assert (Hquery : forall f q, In q (currentRegisterPool P) ->
                               query P' f q = query P f q).
  { intros f q Hq. unfold query. rewrite Hold; [reflexivity |].
    intros ->. contradiction. }
  split; [exact Hnone |]. split; [exact Hfresh |].
  split; [reflexivity |]. split; [exact Hnew |]. split; [exact Hold |].
  split.
  - unfold getListOfAllDirtyGlobals.
    replace (currentRegisterPool P') with (currentRegisterPool P ++ [a])
      by reflexivity.
    rewrite List.filter_app. simpl. unfold query at 2. rewrite Hnew. simpl.
    rewrite app_nil_r. apply filter_pointwise. intros q Hq. apply Hquery, Hq.
  - unfold getListOfAllNamedRegisters.
    replace (currentRegisterPool P') with (currentRegisterPool P ++ [a])
      by reflexivity.
    rewrite List.filter_app. simpl. unfold query at 2. rewrite Hnew. simpl.
    rewrite app_nil_r. apply filter_pointwise. intros q Hq. apply Hquery, Hq.
Qed.

(** X14. A variable seen from two scopes shares one handle: when
    [getScopeForSymbol] finds the same declaring scope from both, the
    resolution from the second scope returns the handle the resolution
    from the first returned. *)
Theorem X14_one_handle_across_scopes :
  forall (P : AssemblyRegisterPool) (s1 s2 declaring : BaseScope)
         (y : Symbol),
    pool_wf P ->
    getScopeForSymbol scopes s1 (Symbol.id y) = Some declaring ->
    getScopeForSymbol scopes s2 (Symbol.id y) = Some declaring ->
    snd (resolve (fst (resolve P s1 y)) s2 y) = snd (resolve P s1 y).
Proof.
  intros P s1 s2 d y Hw H1 H2.
  assert (Hsame : forall Q q, matchesIn scopes Q s2 y q
                              = matchesIn scopes Q s1 y q).
  { intros Q q. unfold matchesIn, query, matchesScopeAndSymbol.
    rewrite H1, H2. reflexivity. }
  destruct (List.find (matchesIn scopes P s1 y) (currentRegisterPool P))
    as [r |] eqn:E.
  - rewrite (resolve_found scopes P s1 y r E). simpl.
    rewrite (resolve_found scopes (incReferenceCount r P) s2 y r);
      [reflexivity |].
    rewrite <- E. apply find_pointwise. intros x _.
    rewrite Hsame. apply matchesIn_incReferenceCount.
  - destruct (resolve_new_store scopes P s1 y E) as (Ho & Hl & Hnx).
    assert (Ha : snd (resolve P s1 y) = nextAddress P)
      by (rewrite (resolve_new scopes P s1 y E); reflexivity).
    rewrite Ha. set (P1 := fst (resolve P s1 y)) in *.
    assert (Hfresh : ~ In (nextAddress P) (currentRegisterPool P)).
    { intros Hin. destruct Hw as [_ Hb _]. rewrite Forall_forall in Hb.
      apply list_elem_of_In, Hb in Hin. lia. }
    rewrite (resolve_found scopes P1 s2 y (nextAddress P)); [reflexivity |].
    rewrite Hl, find_append.
    rewrite (find_pointwise _ (matchesIn scopes P s1 y)).
    + rewrite E. simpl. rewrite Hsame.
      unfold matchesIn, query. rewrite Ho, lookup_insert_eq.
      rewrite newHandle_matches, H1. reflexivity.
    + intros q Hq. rewrite Hsame. unfold matchesIn, query. rewrite Ho.
      rewrite lookup_insert_ne; [reflexivity |]. intros <-. tauto.
Qed.

End ResetAndRelease.

(* ===================================================================== *)
(** ** The active register of a memory operand *)
(* ===================================================================== *)

Lemma getActiveRegisterForCustomMem_result P x :
  snd (getActiveRegisterForCustomMem P x)
  = match objects P !! x with
    | Some o =>
        match List.find
                (fun r => query P hasCustomMemoryLocation r
                          && query P isActive r
                          && query P (fun h =>
                                        X86Mem_eqb
                                          (getMemoryLocationForReference h)
                                          (getMemoryLocationForReference o)) r)
                (currentRegisterPool P) with
        | Some r => r
        | None => x
        end
    | None => x
    end.
Proof.
  unfold getActiveRegisterForCustomMem.
  destruct (objects P !! x); [| reflexivity].
  destruct (find _ _); reflexivity.
Qed.

Lemma sameOperands_update p f P :
  (forall x, sameOperand x (f x)) -> sameOperands P (update p f P).
Proof.
  intros Hf. split; [reflexivity |]. intros q. rewrite lookup_update.
  destruct (decide (p = q)), (objects P !! q); simpl; constructor;
    first [apply Hf | repeat split].
Qed.

Lemma sameOperands_retypeAll f P : sameOperands P (retypeAll f P).
Proof.
  split; [reflexivity |]. intros q. unfold retypeAll. simpl.
  rewrite lookup_fmap. destruct (objects P !! q); simpl; constructor.
  repeat split.
Qed.

(** The result depends on the pool list, on the operand of the argument
    and on state, operand and [hasCustomMem] of the pool entries. *)
Lemma getActiveRegisterForCustomMem_agree P Q x y :
  sameOperands P Q ->
  (memory <$> objects P !! x) = (memory <$> objects Q !! y) ->
  (is_Some (objects P !! x) -> snd (getActiveRegisterForCustomMem P x) = x ->
   x = y) ->
  (objects P !! x = None -> x = y) ->
  snd (getActiveRegisterForCustomMem P x)
  = snd (getActiveRegisterForCustomMem Q y).
Proof.
  intros [Hl Ho] Hm Hself Hnone.
  pose proof (getActiveRegisterForCustomMem_result P x) as HP.
  rewrite (getActiveRegisterForCustomMem_result Q y), <- Hl.
  destruct (objects P !! x) as [o |] eqn:Ex;
    destruct (objects Q !! y) as [o' |] eqn:Ey; simpl in Hm;
    try discriminate Hm.
  - injection Hm as Hm.
    assert (Hfind :
      List.find
        (fun r => query P hasCustomMemoryLocation r && query P isActive r
                  && query P (fun h =>
                                X86Mem_eqb (getMemoryLocationForReference h)
                                  (getMemoryLocationForReference o)) r)
        (currentRegisterPool P)
      = List.find
          (fun r => query Q hasCustomMemoryLocation r && query Q isActive r
                    && query Q (fun h =>
                                  X86Mem_eqb (getMemoryLocationForReference h)
                                    (getMemoryLocationForReference o')) r)
          (currentRegisterPool P)).
    { apply find_pointwise. intros q _. unfold query. specialize (Ho q).
      destruct Ho as [a b (Hs & Hmem & Hc) |]; [| reflexivity].
      unfold hasCustomMemoryLocation, isActive, getMemoryLocationForReference.
      rewrite Hs, Hmem, Hc, Hm. reflexivity. }
    rewrite <- Hfind. rewrite HP.
    destruct (List.find _ _) as [r |] eqn:Ef; [reflexivity |].
    apply Hself; [eauto | exact HP].
  - rewrite HP. apply Hnone. reflexivity.
Qed.

(** X10. [getActiveRegisterForCustomMem] returns either its argument or an
    entry of the pool that has an explicit memory location, is in
    [ActiveRegister] and has the operand of the argument. Asked again with the handle it returned, it returns that handle
    again. It never looks at the declared types, and a handle it
    substitutes for the argument is never the handle
    [getRegisterWithMemory] substitutes, which is in
    [LoadedMemoryLocation]. *)
Theorem X10_active_register_of_an_operand :
  forall (P : AssemblyRegisterPool) (x : RegPtr),
    let P' := fst (getActiveRegisterForCustomMem P x) in
    let r := snd (getActiveRegisterForCustomMem P x) in
    (r <> x ->
     exists o s,
       objects P !! x = Some o /\ objects P !! r = Some s
       /\ In r (currentRegisterPool P)
       /\ hasCustomMemoryLocation s = true /\ state s = ActiveRegister
       /\ memory s = memory o)
    /\ snd (getActiveRegisterForCustomMem P' r) = r
    /\ (forall f : TypeInfo -> TypeInfo,
          snd (getActiveRegisterForCustomMem (retypeAll f P) x) = r)
    /\ (r <> x -> snd (getRegisterWithMemory P x) <> x ->
        snd (getRegisterWithMemory P x) <> r).
Proof.
  intros P x P' r.
  assert (Hchar : r <> x ->
     exists o s,
       objects P !! x = Some o /\ objects P !! r = Some s
       /\ In r (currentRegisterPool P)
       /\ hasCustomMemoryLocation s = true /\ state s = ActiveRegister
       /\ memory s = memory o).
  { unfold r. rewrite getActiveRegisterForCustomMem_result.
    destruct (objects P !! x) as [o |] eqn:Eo; [| intros H; tauto].
    destruct (List.find _ _) as [q |] eqn:Ef; [| intros H; tauto].
    intros _. destruct (find_some _ _ Ef) as [Hin Hq].
    apply andb_true_iff in Hq. destruct Hq as [Hq Hmem].
    apply andb_true_iff in Hq. destruct Hq as [Hcm Hact].
    unfold query in Hcm, Hact, Hmem.
    destruct (objects P !! q) as [s |] eqn:Es; [| discriminate Hcm].
    apply X86Mem_eqb_eq in Hmem. apply State_eqb_eq in Hact.
    exists o, s. repeat split; auto. }
  assert (Hsame : sameOperands P P').
  { unfold P', getActiveRegisterForCustomMem.
    destruct (objects P !! x); [destruct (find _ _) |];
      apply sameOperands_update; intros h; repeat split. }
  split; [exact Hchar |]. split; [| split].
  - symmetry. apply getActiveRegisterForCustomMem_agree.
    + exact Hsame.
    + destruct (Nat.eq_dec r x) as [Heq | Hne].
      * rewrite Heq. destruct Hsame as [_ Ho]. specialize (Ho x).
        destruct Ho as [a b (_ & Hm & _) |]; simpl; congruence.
      * destruct (Hchar Hne) as (o & s & Ho & Hs & _ & _ & _ & Hm).
        destruct Hsame as [_ Hall]. specialize (Hall r).
        rewrite Ho. rewrite Hs in Hall.
        inversion Hall as [a b (_ & Hm' & _) Ha Hb |]; subst. simpl.
        congruence.
    + intros _ H. symmetry. exact H.
    + intros Hnone. unfold r. rewrite getActiveRegisterForCustomMem_result.
      rewrite Hnone. reflexivity.
  - intros f. symmetry. apply getActiveRegisterForCustomMem_agree.
    + apply sameOperands_retypeAll.
    + unfold retypeAll. simpl. rewrite lookup_fmap.
      destruct (objects P !! x); reflexivity.
    + reflexivity.
    + reflexivity.
  - intros Hne Hw Heq.
    destruct (Hchar Hne) as (o & s & Ho & Hs & _ & _ & Hact & _).
    revert Hw Heq. rewrite getRegisterWithMemory_result, Ho.
    destruct (hasCustomMemoryLocation o); [| tauto].
    destruct (List.find _ _) as [q |] eqn:Ef; [| tauto].
    intros _ ->. destruct (find_some _ _ Ef) as [_ Hq].
    apply andb_true_iff in Hq. destruct Hq as [Hq _].
    apply andb_true_iff in Hq. destruct Hq as [Hl _].
    unfold query, isMemoryLocation in Hl. rewrite Hs, Hact in Hl.
    discriminate Hl.
Qed.

(* ===================================================================== *)
(** ** The delay line is a queue *)
(* ===================================================================== *)

Section CircularFacts.

Import CircularAudioSampleBuffer.

Lemma copy_length (dest : list Z) ds (src : list Z) ss n :
  (ds + n <= length dest)%nat -> (ss + n <= length src)%nat ->
  length (copy dest ds src ss n) = length dest.
Proof.
  intros H1 H2. unfold copy.
  rewrite !length_app, !length_take, !length_drop. lia.
Qed.

Lemma copy_lookup (dest : list Z) ds (src : list Z) ss n j :
  (ds + n <= length dest)%nat -> (ss + n <= length src)%nat ->
  copy dest ds src ss n !! j
  = if (ds <=? j)%nat && (j <? ds + n)%nat
    then src !! (ss + (j - ds))%nat
    else dest !! j.
Proof.
  intros H1 H2. unfold copy.
  destruct (Nat.leb_spec ds j) as [Hle | Hlt]; simpl.
  - rewrite lookup_app_r by (rewrite length_take; lia).
    rewrite length_take, Nat.min_l by lia.
    destruct (Nat.ltb_spec j (ds + n)) as [Hin | Hout].
    + rewrite lookup_app_l by (rewrite length_take, length_drop; lia).
      rewrite lookup_take_lt by lia. rewrite lookup_drop. reflexivity.
    + rewrite lookup_app_r by (rewrite length_take, length_drop; lia).
      rewrite length_take, length_drop, Nat.min_l by lia.
      rewrite lookup_drop. f_equal. lia.
  - rewrite lookup_app_l by (rewrite length_take; lia).
    apply lookup_take_lt. lia.
Qed.

Lemma copy_nothing (dest : list Z) ds (src : list Z) ss :
  copy dest ds src ss 0 = dest.
Proof. unfold copy. simpl. rewrite Nat.add_0_r. apply take_drop. Qed.

Lemma copyChannels_upto k (dest : list (list Z)) ds (src : list (list Z)) ss n :
  let step := fun (acc : list (list Z)) (i : nat) =>
                match acc !! i, src !! i with
                | Some w, Some r => <[i := copy w ds r ss n]> acc
                | _, _ => acc
                end in
  length (fold_left step (seq 0 k) dest) = length dest
  /\ forall c,
       fold_left step (seq 0 k) dest !! c
       = if (c <? k)%nat
         then match dest !! c, src !! c with
              | Some w, Some r => Some (copy w ds r ss n)
              | _, _ => dest !! c
              end
         else dest !! c.
Proof.
  intros step. induction k as [| k [IHl IHc]].
  - simpl. split; [reflexivity |]. intros c. reflexivity.
  - rewrite seq_S, fold_left_app. simpl.
    set (acc := fold_left step (seq 0 k) dest) in *.
    assert (Hk : acc !! k = dest !! k).
    { rewrite IHc. rewrite Nat.ltb_irrefl. reflexivity. }
    unfold step. rewrite Hk.
    destruct (dest !! k) as [w |] eqn:Ew; [destruct (src !! k) as [r |] eqn:Er |].
    + split; [rewrite length_insert; exact IHl |].
      intros c. destruct (Nat.eq_dec c k) as [-> | Hne].
      * rewrite list_lookup_insert_eq
          by (rewrite IHl; apply lookup_lt_Some in Ew; exact Ew).
        rewrite Ew, Er.
        replace (k <? S k)%nat with true by (symmetry; apply Nat.ltb_lt; lia).
        reflexivity.
      * rewrite list_lookup_insert_ne by congruence. rewrite IHc.
        destruct (Nat.ltb_spec c k), (Nat.ltb_spec c (S k)); try lia;
          reflexivity.
    + split; [exact IHl |]. intros c. rewrite IHc.
      destruct (Nat.eq_dec c k) as [-> | Hne].
      * rewrite Nat.ltb_irrefl, Ew, Er.
        destruct (k <? S k)%nat; reflexivity.
      * destruct (Nat.ltb_spec c k), (Nat.ltb_spec c (S k)); try lia;
          reflexivity.
    + split; [exact IHl |]. intros c. rewrite IHc.
      destruct (Nat.eq_dec c k) as [-> | Hne].
      * rewrite Nat.ltb_irrefl, Ew.
        destruct (k <? S k)%nat; reflexivity.
      * destruct (Nat.ltb_spec c k), (Nat.ltb_spec c (S k)); try lia;
          reflexivity.
Qed.

(** With both buffers of [channels] channels, every channel is copied. *)
Lemma copyChannels_lookup channels (dest : list (list Z)) ds
    (src : list (list Z)) ss n c w r :
  length dest = channels ->
  dest !! c = Some w -> src !! c = Some r ->
  copyChannels channels dest ds src ss n !! c = Some (copy w ds r ss n).
Proof.
  intros Hl Hw Hr. unfold copyChannels.
  rewrite (proj2 (copyChannels_upto channels dest ds src ss n) c).
  replace (c <? channels)%nat with true.
  - rewrite Hw, Hr. reflexivity.
  - symmetry. apply Nat.ltb_lt. rewrite <- Hl. eapply lookup_lt_Some, Hw.
Qed.

Lemma copyChannels_length channels (dest : list (list Z)) ds
    (src : list (list Z)) ss n :
  length (copyChannels channels dest ds src ss n) = length dest.
Proof. apply (copyChannels_upto channels dest ds src ss n). Qed.

Lemma copyChannels_samples channels (dest : list (list Z)) ds
    (src : list (list Z)) ss n L :
  length dest = channels -> length src = channels ->
  Forall (fun ch => length ch = L) dest ->
  (ds + n <= L)%nat ->
  Forall (fun ch => (ss + n <= length ch)%nat) src ->
  Forall (fun ch => length ch = L) (copyChannels channels dest ds src ss n).
Proof.
  intros Hd Hs Hall Hb Hsrc. apply Forall_lookup. intros c ch Hc.
  assert (Hlt : (c < length dest)%nat).
  { rewrite <- (copyChannels_length channels dest ds src ss n).
    eapply lookup_lt_Some, Hc. }
  destruct (lookup_lt_is_Some_2 dest c Hlt) as [w Hw].
  destruct (lookup_lt_is_Some_2 src c) as [r Hr]; [lia |].
  rewrite (copyChannels_lookup channels dest ds src ss n c w r Hd Hw Hr) in Hc.
  injection Hc as <-.
  rewrite Forall_lookup in Hall, Hsrc.
  specialize (Hall c w Hw). specialize (Hsrc c r Hr). simpl in *.
  rewrite copy_length; lia.
Qed.

Lemma double_lookup (ch : list Z) i :
  (i < 2 * length ch)%nat ->
  (ch ++ ch) !! i
  = ch !! (if (i <? length ch)%nat then i else (i - length ch)%nat).
Proof.
  intros Hi. destruct (Nat.ltb_spec i (length ch)).
  - apply lookup_app_l. lia.
  - apply lookup_app_r. lia.
Qed.

End CircularFacts.

Section CircularQueue.

Import CircularAudioSampleBuffer.

Ltac split_nat_tests :=
  repeat match goal with
         | |- context [(?a <=? ?b)%nat] => destruct (Nat.leb_spec a b)
         | |- context [(?a <? ?b)%nat] => destruct (Nat.ltb_spec a b)
         end; simpl.

(** One channel after [writeSamples], and what is then pending in it. *)
Lemma write_channel_pending (ch r : list Z) S wi ri av n off :
  length ch = S -> (0 < S)%nat -> (wi <= S)%nat -> (ri <= S)%nat ->
  (av + n <= S)%nat -> (off + n <= length r)%nat ->
  (wi = ri + av \/ wi + S = ri + av \/ wi + 2 * S = ri + av)%nat ->
  let ch' := if (S <? wi + n)%nat
             then copy (copy ch wi r off (S - wi)) 0 r (off + (S - wi))
                    (n - (S - wi))
             else copy ch wi r off n in
  length ch' = S
  /\ take (av + n) (drop ri (ch' ++ ch'))
     = take av (drop ri (ch ++ ch)) ++ take n (drop off r).
Proof.
  intros Hl HS Hwi Hri Hav Hoff Hdist ch'.
  assert (Hlen : length ch' = S).
  { unfold ch'. destruct (Nat.ltb_spec S (wi + n)).
    - rewrite !copy_length; rewrite ?copy_length; lia.
    - rewrite copy_length; lia. }
  split; [exact Hlen |].
  assert (Hch' : forall j, (j < S)%nat ->
            ch' !! j
            = if (S <? wi + n)%nat
              then if (wi <=? j)%nat then r !! (off + (j - wi))%nat
                   else if (j <? n - (S - wi))%nat
                        then r !! (off + (S - wi) + j)%nat
                        else ch !! j
              else if (wi <=? j)%nat && (j <? wi + n)%nat
                   then r !! (off + (j - wi))%nat
                   else ch !! j).
  { intros j Hj. unfold ch'. destruct (Nat.ltb_spec S (wi + n)).
    - rewrite copy_lookup by (rewrite ?copy_length; lia).
      rewrite copy_lookup by lia.
      split_nat_tests; try lia; try reflexivity; f_equal; lia.
    - apply copy_lookup; lia. }
  apply list_eq. intros k.
  rewrite lookup_take, lookup_drop.
  destruct (decide (k < av + n)%nat) as [Hk | Hk].
  - rewrite double_lookup by lia. rewrite Hlen.
    rewrite Hch' by (destruct (Nat.ltb_spec (ri + k) S); lia).
    destruct (decide (k < av)%nat) as [Hold | Hnew].
    + rewrite lookup_app_l
        by (rewrite length_take, length_drop, length_app; lia).
      rewrite lookup_take_lt by lia. rewrite lookup_drop.
      rewrite double_lookup by lia. rewrite Hl.
      split_nat_tests; try lia; reflexivity.
    + rewrite lookup_app_r
        by (rewrite length_take, length_drop, length_app; lia).
      rewrite length_take, length_drop, length_app, Nat.min_l by lia.
      rewrite lookup_take_lt by lia. rewrite lookup_drop.
      split_nat_tests; try lia; f_equal; lia.
  - symmetry. apply lookup_ge_None.
    rewrite length_app, !length_take, !length_drop, length_app. lia.
Qed.

(** What is pending after [readSamples], and what the destination
    channel holds. *)
Lemma read_channel_pending (ch d : list Z) S ri av n od :
  length ch = S -> (0 < S)%nat -> (ri <= S)%nat -> (av <= S)%nat ->
  (n <= av)%nat -> (od + n <= length d)%nat ->
  let p := take av (drop ri (ch ++ ch)) in
  let ri' := if (S <? ri + n)%nat then (n - (S - ri))%nat
             else (ri + n)%nat in
  let d' := if (S <? ri + n)%nat
            then copy (copy d od ch ri (S - ri)) (od + (S - ri)) ch 0
                   (n - (S - ri))
            else copy d od ch ri n in
  take (av - n) (drop ri' (ch ++ ch)) = drop n p
  /\ d' = take od d ++ take n p ++ drop (od + n) d.
Proof.
  intros Hl HS Hri Hav Hn Hod p ri' d'. split.
  - apply list_eq. intros k. unfold p, ri'.
    rewrite lookup_take, !lookup_drop.
    destruct (decide (k < av - n)%nat) as [Hk | Hk].
    + rewrite lookup_take_lt by lia. rewrite lookup_drop.
      rewrite !double_lookup by (rewrite Hl; split_nat_tests; lia).
      rewrite Hl. split_nat_tests; try lia; f_equal; lia.
    + symmetry. apply lookup_ge_None.
      rewrite length_take, length_drop, length_app. lia.
  - assert (Hd' : length d' = length d).
    { unfold d'. destruct (Nat.ltb_spec S (ri + n)).
      - rewrite !copy_length; rewrite ?copy_length; lia.
      - rewrite copy_length; lia. }
    apply list_eq. intros j.
    destruct (decide (j < od)%nat) as [Hlow | Hnotlow].
    + rewrite lookup_app_l by (rewrite length_take; lia).
      rewrite lookup_take_lt by lia.
      unfold d'. destruct (Nat.ltb_spec S (ri + n)).
      * rewrite copy_lookup by (rewrite ?copy_length; lia).
        rewrite copy_lookup by lia.
        split_nat_tests; try lia; reflexivity.
      * rewrite copy_lookup by lia.
        split_nat_tests; try lia; reflexivity.
    + rewrite lookup_app_r by (rewrite length_take; lia).
      rewrite length_take, Nat.min_l by lia.
      assert (Hp : length (take n p) = n).
      { unfold p. rewrite !length_take, length_drop, length_app. lia. }
      destruct (decide (j < od + n)%nat) as [Hmid | Hhigh].
      * rewrite lookup_app_l by lia.
        rewrite lookup_take_lt by lia. unfold p.
        rewrite lookup_take_lt by lia. rewrite lookup_drop.
        rewrite double_lookup by lia. rewrite Hl.
        unfold d'. destruct (Nat.ltb_spec S (ri + n)).
        -- rewrite copy_lookup by (rewrite ?copy_length; lia).
           rewrite copy_lookup by lia.
           split_nat_tests; try lia; f_equal; lia.
        -- rewrite copy_lookup by lia.
           split_nat_tests; try lia; f_equal; lia.
      * rewrite lookup_app_r by lia. rewrite Hp, lookup_drop.
        unfold d'. destruct (Nat.ltb_spec S (ri + n)).
        -- rewrite copy_lookup by (rewrite ?copy_length; lia).
           rewrite copy_lookup by lia.
           split_nat_tests; try lia; f_equal; lia.
        -- rewrite copy_lookup by lia.
           split_nat_tests; try lia; f_equal; lia.
Qed.

End CircularQueue.

Section CircularTheorems.

Import CircularAudioSampleBuffer.

Lemma gtb_nat (a b : Z) :
  0 <= a -> 0 <= b -> (a >? b) = (Z.to_nat b <? Z.to_nat a)%nat.
Proof.
  intros Ha Hb. rewrite Z.gtb_ltb.
  destruct (Z.ltb_spec b a), (Nat.ltb_spec (Z.to_nat b) (Z.to_nat a));
    try reflexivity; lia.
Qed.

(** The storage of one channel after [writeSamples]. *)
Lemma writeSamples_channel b (source : list (list Z)) off n c ch r :
  wellFormed b -> holds source (numChannels b) off n -> 0 <= n ->
  internalBuffer b !! c = Some ch -> source !! c = Some r ->
  let S := Z.to_nat (size b) in
  let wi := Z.to_nat (writeIndex b) in
  internalBuffer (fst (writeSamples b source off n)) !! c
  = Some (if (S <? wi + Z.to_nat n)%nat
          then copy (copy ch wi r (Z.to_nat off) (S - wi)) 0 r
                 (Z.to_nat off + (S - wi)) (Z.to_nat n - (S - wi))
          else copy ch wi r (Z.to_nat off) (Z.to_nat n)).
Proof.
  intros [HS Hc Hs Hw Hr Ha Hd] (Hsl & Hoff & Hsrc) Hn Hch Hsr S wi.
  unfold writeSamples.
  rewrite (gtb_nat (writeIndex b + n) (size b)) by lia.
  replace (Z.to_nat (writeIndex b + n)) with (wi + Z.to_nat n)%nat by lia.
  fold S. destruct (Nat.ltb_spec S (wi + Z.to_nat n)) as [Hwrap | Hfit].
  - simpl.
    replace (n - (size b - writeIndex b) >? 0) with true
      by (symmetry; apply Z.gtb_lt; lia).
    replace (Z.to_nat (n - (size b - writeIndex b)))
      with (Z.to_nat n - (S - wi))%nat by lia.
    replace (Z.to_nat (off + (size b - writeIndex b)))
      with (Z.to_nat off + (S - wi))%nat by lia.
    destruct (Z.gtb_spec (size b - writeIndex b) 0) as [Hpos | Hzero].
    + replace (Z.to_nat (size b - writeIndex b)) with (S - wi)%nat by lia.
      apply copyChannels_lookup; [| | exact Hsr].
      * rewrite copyChannels_length. exact Hc.
      * apply copyChannels_lookup; assumption.
    + replace (S - wi)%nat with 0%nat by lia. rewrite copy_nothing.
      apply copyChannels_lookup; assumption.
  - simpl. apply copyChannels_lookup; assumption.
Qed.

Lemma writeSamples_counters b (source : list (list Z)) off n :
  let b' := fst (writeSamples b source off n) in
  numChannels b' = numChannels b /\ size b' = size b
  /\ readIndex b' = readIndex b
  /\ numAvailable b' = numAvailable b + n
  /\ writeIndex b'
     = (if writeIndex b + n >? size b
        then n - (size b - writeIndex b) else writeIndex b + n)
  /\ length (internalBuffer b') = length (internalBuffer b)
  /\ snd (writeSamples b source off n) = (numAvailable b + n <=? size b).
Proof.
  unfold writeSamples.
  destruct (writeIndex b + n >? size b); simpl; repeat split;
    repeat (match goal with
            | |- context [if ?x then _ else _] => destruct x
            end);
    rewrite ?copyChannels_length; reflexivity.
Qed.

Lemma writeSamples_queue :
  forall (b : t) (source : list (list Z)) (offsetInSource numSamples : Z),
    wellFormed b ->
    holds source (numChannels b) offsetInSource numSamples ->
    0 <= numSamples ->
    numAvailable b + numSamples <= size b ->
    let b' := fst (writeSamples b source offsetInSource numSamples) in
    snd (writeSamples b source offsetInSource numSamples) = true
    /\ wellFormed b'
    /\ numAvailable b' = numAvailable b + numSamples
    /\ forall c r,
         source !! c = Some r ->
         pending b' c
         = pending b c
           ++ take (Z.to_nat numSamples) (drop (Z.to_nat offsetInSource) r).
Proof.
  intros b source off n Hwf Hholds Hn Hroom b'.
  destruct (writeSamples_counters b source off n)
    as (Hnc & Hsz & Hri & Hav & Hwi & Hlen & Hok).
  fold b' in Hnc, Hsz, Hri, Hav, Hwi, Hlen.
  pose proof Hwf as [HS Hc Hs Hw Hr Ha Hd].
  pose proof Hholds as (Hsl & Hoff & Hsrc).
  assert (Hchan : forall c ch r,
            internalBuffer b !! c = Some ch -> source !! c = Some r ->
            exists ch',
              internalBuffer b' !! c = Some ch'
              /\ length ch' = Z.to_nat (size b)
              /\ take (Z.to_nat (numAvailable b) + Z.to_nat n)
                   (drop (Z.to_nat (readIndex b)) (ch' ++ ch'))
                 = take (Z.to_nat (numAvailable b))
                     (drop (Z.to_nat (readIndex b)) (ch ++ ch))
                   ++ take (Z.to_nat n) (drop (Z.to_nat off) r)).
  { intros c ch r Hch Hsr.
    rewrite Forall_lookup in Hs, Hsrc.
    specialize (Hs c ch Hch). specialize (Hsrc c r Hsr). simpl in Hs, Hsrc.
    eexists. split; [apply (writeSamples_channel b source off n c ch r);
                      assumption |].
    apply write_channel_pending; lia. }
  split; [rewrite Hok; apply Z.leb_le; lia |].
  split; [| split; [exact Hav |]].
  - split.
    + lia.
    + congruence.
    + apply Forall_lookup. intros c ch' Hch'.
      assert (Hlt : (c < length (internalBuffer b))%nat)
        by (rewrite <- Hlen; eapply lookup_lt_Some, Hch').
      destruct (lookup_lt_is_Some_2 (internalBuffer b) c Hlt) as [ch Hch].
      destruct (lookup_lt_is_Some_2 source c) as [r Hsr]; [lia |].
      destruct (Hchan c ch r Hch Hsr) as (x & Hx & Hxl & _).
      rewrite Hx in Hch'. injection Hch' as <-. rewrite Hsz. exact Hxl.
    + rewrite Hwi, Hsz. destruct (Z.gtb_spec (writeIndex b + n) (size b)); lia.
    + rewrite Hri, Hsz. lia.
    + rewrite Hav, Hsz. lia.
    + rewrite Hwi, Hsz, Hri, Hav.
      destruct (Z.gtb_spec (writeIndex b + n) (size b)); lia.
  - intros c r Hsr. unfold pending.
    assert (Hlt : (c < length (internalBuffer b))%nat).
    { apply lookup_lt_Some in Hsr. lia. }
    destruct (lookup_lt_is_Some_2 (internalBuffer b) c Hlt) as [ch Hch].
    destruct (Hchan c ch r Hch Hsr) as (x & Hx & _ & Hp).
    rewrite Hx, Hch, Hri, Hav.
    replace (Z.to_nat (numAvailable b + n))
      with (Z.to_nat (numAvailable b) + Z.to_nat n)%nat by lia.
    exact Hp.
Qed.

(** X17. [writeSamples] is the push of a queue. On a well-formed buffer
    with room for the samples, and a source that has them in every
    channel, it returns [true], leaves a well-formed buffer, and appends
    the samples to what is pending in each channel, in order and across
    the wrap-around; nothing that was pending is overwritten. *)
Theorem X17_write_appends_to_pending :
  forall (b : t) (source : list (list Z)) (offsetInSource numSamples : Z),
    wellFormed b ->
    holds source (numChannels b) offsetInSource numSamples ->
    0 <= numSamples ->
    numAvailable b + numSamples <= size b ->
    let b' := fst (writeSamples b source offsetInSource numSamples) in
    snd (writeSamples b source offsetInSource numSamples) = true
    /\ wellFormed b'
    /\ numAvailable b' = numAvailable b + numSamples
    /\ forall c r,
         source !! c = Some r ->
         pending b' c
         = pending b c
           ++ take (Z.to_nat numSamples) (drop (Z.to_nat offsetInSource) r).
Proof. exact writeSamples_queue. Qed.

(** One channel of the destination after [readSamples]. *)
Lemma readSamples_channel b (destination : list (list Z)) od n c ch d :
  wellFormed b -> holds destination (numChannels b) od n ->
  0 <= n ->
  internalBuffer b !! c = Some ch -> destination !! c = Some d ->
  let S := Z.to_nat (size b) in
  let ri := Z.to_nat (readIndex b) in
  snd (fst (readSamples b destination od n)) !! c
  = Some (if (S <? ri + Z.to_nat n)%nat
          then copy (copy d (Z.to_nat od) ch ri (S - ri))
                 (Z.to_nat od + (S - ri)) ch 0 (Z.to_nat n - (S - ri))
          else copy d (Z.to_nat od) ch ri (Z.to_nat n)).
Proof.
  intros [HS Hc Hs Hw Hr Ha Hd] (Hdl & Hoff & Hdst) Hn Hch Hdc S ri.
  unfold readSamples. simpl.
  rewrite (gtb_nat (readIndex b + n) (size b)) by lia.
  replace (Z.to_nat (readIndex b + n)) with (ri + Z.to_nat n)%nat by lia.
  fold S. destruct (Nat.ltb_spec S (ri + Z.to_nat n)) as [Hwrap | Hfit].
  - replace (n - (size b - readIndex b) >? 0) with true
      by (symmetry; apply Z.gtb_lt; lia).
    replace (Z.to_nat (n - (size b - readIndex b)))
      with (Z.to_nat n - (S - ri))%nat by lia.
    replace (Z.to_nat (od + (size b - readIndex b)))
      with (Z.to_nat od + (S - ri))%nat by lia.
    destruct (Z.gtb_spec (size b - readIndex b) 0) as [Hpos | Hzero]; simpl.
    + replace (Z.to_nat (size b - readIndex b)) with (S - ri)%nat by lia.
      apply copyChannels_lookup; [| | exact Hch].
      * rewrite copyChannels_length. lia.
      * apply copyChannels_lookup; [lia | assumption | assumption].
    + replace (S - ri)%nat with 0%nat by lia. rewrite copy_nothing.
      apply copyChannels_lookup; [lia | assumption | assumption].
  - simpl. apply copyChannels_lookup; [lia | assumption | assumption].
Qed.

Lemma readSamples_counters b (destination : list (list Z)) od n :
  let b' := fst (fst (readSamples b destination od n)) in
  numChannels b' = numChannels b /\ size b' = size b
  /\ writeIndex b' = writeIndex b
  /\ internalBuffer b' = internalBuffer b
  /\ numAvailable b' = numAvailable b - n
  /\ readIndex b'
     = (if readIndex b + n >? size b
        then n - (size b - readIndex b) else readIndex b + n)
  /\ length (snd (fst (readSamples b destination od n)))
     = length destination
  /\ snd (readSamples b destination od n) = (numAvailable b - n >=? 0).
Proof.
  unfold readSamples. simpl.
  destruct (readIndex b + n >? size b); simpl; repeat split;
    repeat (match goal with
            | |- context [if ?x then _ else _] => destruct x
            end);
    rewrite ?copyChannels_length; reflexivity.
Qed.

Lemma readSamples_queue :
  forall (b : t) (destination : list (list Z))
         (offsetInDestination numSamples : Z),
    wellFormed b ->
    holds destination (numChannels b) offsetInDestination numSamples ->
    0 <= numSamples <= numAvailable b ->
    let b' := fst (fst (readSamples b destination offsetInDestination
                          numSamples)) in
    let out := snd (fst (readSamples b destination offsetInDestination
                           numSamples)) in
    snd (readSamples b destination offsetInDestination numSamples) = true
    /\ wellFormed b'
    /\ internalBuffer b' = internalBuffer b
    /\ length out = length destination
    /\ forall c d,
         destination !! c = Some d ->
         out !! c
         = Some (take (Z.to_nat offsetInDestination) d
                 ++ take (Z.to_nat numSamples) (pending b c)
                 ++ drop (Z.to_nat offsetInDestination
                          + Z.to_nat numSamples) d)
         /\ pending b' c = drop (Z.to_nat numSamples) (pending b c).
Proof.
  intros b destination od n Hwf Hholds Hn b' out.
  destruct (readSamples_counters b destination od n)
    as (Hnc & Hsz & Hwi & Hbuf & Hav & Hri & Hlen & Hok).
  fold b' in Hnc, Hsz, Hwi, Hbuf, Hav, Hri. fold out in Hlen.
  pose proof Hwf as [HS Hc Hs Hw Hr Ha Hd].
  pose proof Hholds as (Hdl & Hoff & Hdst).
  split; [rewrite Hok; apply Z.geb_le; lia |].
  split; [| split; [exact Hbuf | split; [exact Hlen |]]].
  - split.
    + lia.
    + congruence.
    + rewrite Hbuf, Hsz. exact Hs.
    + rewrite Hwi, Hsz. lia.
    + rewrite Hri, Hsz. destruct (Z.gtb_spec (readIndex b + n) (size b)); lia.
    + rewrite Hav, Hsz. lia.
    + rewrite Hwi, Hsz, Hri, Hav.
      destruct (Z.gtb_spec (readIndex b + n) (size b)); lia.
  - intros c d Hdc.
    assert (Hlt : (c < length (internalBuffer b))%nat).
    { apply lookup_lt_Some in Hdc. lia. }
    destruct (lookup_lt_is_Some_2 (internalBuffer b) c Hlt) as [ch Hch].
    rewrite Forall_lookup in Hs, Hdst.
    specialize (Hs c ch Hch). specialize (Hdst c d Hdc). simpl in Hs, Hdst.
    destruct (read_channel_pending ch d (Z.to_nat (size b))
                (Z.to_nat (readIndex b)) (Z.to_nat (numAvailable b))
                (Z.to_nat n) (Z.to_nat od))
      as [Hp Hd']; try lia.
    split.
    + unfold out.
      rewrite (readSamples_channel b destination od n c ch d) by
        (assumption || lia).
      unfold pending. rewrite Hch. f_equal. exact Hd'.
    + unfold pending. rewrite Hbuf, Hch, Hav, Hri. rewrite <- Hp.
      replace (Z.to_nat (numAvailable b - n))
        with (Z.to_nat (numAvailable b) - Z.to_nat n)%nat by lia.
      rewrite (gtb_nat (readIndex b + n) (size b)) by lia.
      replace (Z.to_nat (readIndex b + n))
        with (Z.to_nat (readIndex b) + Z.to_nat n)%nat by lia.
      destruct (Nat.ltb_spec (Z.to_nat (size b))
                  (Z.to_nat (readIndex b) + Z.to_nat n));
        do 2 f_equal; lia.
Qed.

(** X18. [readSamples] is the pop of a queue. On a well-formed buffer
    with at least the samples asked for, it returns [true], leaves a
    well-formed buffer with its storage untouched, hands out the oldest
    pending samples of each channel in order, also across the wrap-around,
    writes them at the offset asked for without touching the rest of the
    destination, and leaves the remaining samples pending. *)
Theorem X18_read_takes_oldest_pending :
  forall (b : t) (destination : list (list Z))
         (offsetInDestination numSamples : Z),
    wellFormed b ->
    holds destination (numChannels b) offsetInDestination numSamples ->
    0 <= numSamples <= numAvailable b ->
    let b' := fst (fst (readSamples b destination offsetInDestination
                          numSamples)) in
    let out := snd (fst (readSamples b destination offsetInDestination
                           numSamples)) in
    snd (readSamples b destination offsetInDestination numSamples) = true
    /\ wellFormed b'
    /\ internalBuffer b' = internalBuffer b
    /\ length out = length destination
    /\ forall c d,
         destination !! c = Some d ->
         out !! c
         = Some (take (Z.to_nat offsetInDestination) d
                 ++ take (Z.to_nat numSamples) (pending b c)
                 ++ drop (Z.to_nat offsetInDestination
                          + Z.to_nat numSamples) d)
         /\ pending b' c = drop (Z.to_nat numSamples) (pending b c).
Proof. exact readSamples_queue. Qed.

(** X19. Samples come out in the order they went in: after [writeSamples]
    has added samples to a well-formed buffer with room for them,
    [readSamples] of any number of the samples then available returns,
    in each channel, that many of the samples pending before followed by
    the samples written. *)
Theorem X19_first_in_first_out :
  forall (b : t) (source destination : list (list Z))
         (offsetInSource offsetInDestination written asked : Z),
    wellFormed b ->
    holds source (numChannels b) offsetInSource written ->
    holds destination (numChannels b) offsetInDestination asked ->
    0 <= written -> numAvailable b + written <= size b ->
    0 <= asked <= numAvailable b + written ->
    let b1 := fst (writeSamples b source offsetInSource written) in
    let result := readSamples b1 destination offsetInDestination asked in
    snd result = true
    /\ wellFormed (fst (fst result))
    /\ numAvailable (fst (fst result))
       = numAvailable b + written - asked
    /\ forall c r d,
         source !! c = Some r -> destination !! c = Some d ->
         snd (fst result) !! c
         = Some (take (Z.to_nat offsetInDestination) d
                 ++ take (Z.to_nat asked)
                      (pending b c
                       ++ take (Z.to_nat written)
                            (drop (Z.to_nat offsetInSource) r))
                 ++ drop (Z.to_nat offsetInDestination + Z.to_nat asked) d).
Proof.
  intros b source destination off od n m Hwf Hsrc Hdst Hn Hroom Hm b1 result.
  destruct (writeSamples_queue b source off n Hwf Hsrc Hn Hroom)
    as (_ & Hwf1 & Hav1 & Hp1).
  fold b1 in Hwf1, Hav1, Hp1.
  destruct (writeSamples_counters b source off n) as (Hnc & _).
  fold b1 in Hnc.
  assert (Hdst1 : holds destination (numChannels b1) od m)
    by (rewrite Hnc; exact Hdst).
  assert (Hm1 : 0 <= m <= numAvailable b1) by lia.
  destruct (readSamples_queue b1 destination od m Hwf1 Hdst1 Hm1)
    as (Hok & Hwf2 & _ & _ & Hout).
  destruct (readSamples_counters b1 destination od m)
    as (_ & _ & _ & _ & Hav2 & _).
  split; [exact Hok |]. split; [exact Hwf2 |].
  split; [unfold result; rewrite Hav2; lia |].
  intros c r d Hr Hd. destruct (Hout c d Hd) as [Ho _].
  unfold result. rewrite Ho, (Hp1 c r Hr). reflexivity.
Qed.

(** X20. The two flags report overflow and underflow after the fact:
    [writeSamples] returns [false] exactly when more samples would be
    pending than the buffer holds, [readSamples] exactly when more
    samples are asked for than are pending; in both cases the count of
    available samples is updated all the same, and neither call changes
    the size or the number of channels. *)
Theorem X20_overflow_and_underflow_flags :
  forall (b : t) (other : list (list Z)) (offset numSamples : Z),
    (snd (writeSamples b other offset numSamples) = true
     <-> numAvailable b + numSamples <= size b)
    /\ numAvailable (fst (writeSamples b other offset numSamples))
       = numAvailable b + numSamples
    /\ (snd (readSamples b other offset numSamples) = true
        <-> numSamples <= numAvailable b)
    /\ numAvailable (fst (fst (readSamples b other offset numSamples)))
       = numAvailable b - numSamples
    /\ size (fst (writeSamples b other offset numSamples)) = size b
    /\ size (fst (fst (readSamples b other offset numSamples))) = size b.
Proof.
  intros b other offset n.
  destruct (writeSamples_counters b other offset n)
    as (_ & Hsz & _ & Hav & _ & _ & Hok).
  destruct (readSamples_counters b other offset n)
    as (_ & Hsz' & _ & _ & Hav' & _ & _ & Hok').
  rewrite Hok, Hok', Z.leb_le, Z.geb_le.
  repeat split; try assumption; lia.
Qed.

End CircularTheorems.

(* ===================================================================== *)
(** ** The MIDI learn table *)
(* ===================================================================== *)

Section MidiArrays.

Import MidiControllerAutomationHandler.

Context {Range : Type}.
Implicit Types (a b u : AutomationData Range).
Implicit Types (l : list (AutomationData Range)).
Implicit Types (table : list (list (AutomationData Range))).

Lemma equals_sym a b : equals a b = equals b a.
Proof.
  unfold equals.
  rewrite (Z.eqb_sym (processor b)), (Z.eqb_sym (attribute b)). reflexivity.
Qed.

Lemma controls_spec p x a :
  controls p x a = true <-> processor a = p /\ attribute a = x.
Proof. unfold controls. rewrite andb_true_iff, !Z.eqb_eq. tauto. Qed.

Lemma contains_controls l u :
  contains l u = existsb (controls (processor u) (attribute u)) l.
Proof. reflexivity. Qed.

Lemma existsb_controls_snoc p x l u :
  existsb (controls p x) (l ++ [u])
  = existsb (controls p x) l || controls p x u.
Proof. rewrite existsb_app. simpl. rewrite orb_false_r. reflexivity. Qed.

Lemma existsb_add_other p x l u :
  controls p x u = false ->
  existsb (controls p x) (addIfNotAlreadyThere l u)
  = existsb (controls p x) l.
Proof.
  intros Hu. unfold addIfNotAlreadyThere.
  destruct (contains l u); [reflexivity |].
  rewrite existsb_controls_snoc, Hu, orb_false_r. reflexivity.
Qed.

Lemma existsb_add_same l u :
  existsb (controls (processor u) (attribute u)) (addIfNotAlreadyThere l u)
  = true.
Proof.
  unfold addIfNotAlreadyThere.
  destruct (contains l u) eqn:Hc; [exact Hc |].
  rewrite existsb_controls_snoc.
  assert (Hu : controls (processor u) (attribute u) u = true)
    by (apply controls_spec; auto).
  rewrite Hu. apply orb_true_r.
Qed.

Lemma findController_bounds table i p x :
  findController table i p x = -1
  \/ i <= findController table i p x < i + Z.of_nat (length table).
Proof.
  revert i. induction table as [| l rest IH]; intros i; simpl.
  - left. reflexivity.
  - destruct (existsb (controls p x) l).
    + right. lia.
    + destruct (IH (i + 1)) as [H | H]; [left; exact H | right; lia].
Qed.

Lemma findController_alter_other table i n p x u :
  controls p x u = false ->
  findController (alter (fun l => addIfNotAlreadyThere l u) n table) i p x
  = findController table i p x.
Proof.
  intros Hu. revert i n.
  induction table as [| l rest IH]; intros i n; [reflexivity |].
  destruct n as [| n].
  - change (alter (fun l => addIfNotAlreadyThere l u) 0%nat (l :: rest))
      with (addIfNotAlreadyThere l u :: rest).
    cbn [findController].
    rewrite existsb_add_other by exact Hu. reflexivity.
  - change (alter (fun l => addIfNotAlreadyThere l u) (S n) (l :: rest))
      with (l :: alter (fun l => addIfNotAlreadyThere l u) n rest).
    cbn [findController]. rewrite IH. reflexivity.
Qed.

Lemma findController_alter_same table i n u :
  0 <= i -> (n < length table)%nat ->
  let old := findController table i (processor u) (attribute u) in
  findController (alter (fun l => addIfNotAlreadyThere l u) n table) i
    (processor u) (attribute u)
  = if (0 <=? old) && (old <=? i + Z.of_nat n) then old
    else i + Z.of_nat n.
Proof.
  revert i n. induction table as [| l rest IH]; intros i n Hi Hn;
    [simpl in Hn; lia |].
  destruct n as [| n].
  - change (alter (fun l => addIfNotAlreadyThere l u) 0%nat (l :: rest))
      with (addIfNotAlreadyThere l u :: rest).
    cbn [findController]. cbv zeta.
    rewrite existsb_add_same.
    destruct (existsb (controls (processor u) (attribute u)) l).
    + replace (0 <=? i) with true by (symmetry; apply Z.leb_le; lia).
      replace (i <=? i + Z.of_nat 0) with true
        by (symmetry; apply Z.leb_le; lia).
      reflexivity.
    + destruct (findController_bounds rest (i + 1) (processor u)
                  (attribute u)) as [H | H].
      * rewrite H. simpl. lia.
      * replace (findController rest (i + 1) (processor u) (attribute u)
                 <=? i + Z.of_nat 0) with false
          by (symmetry; apply Z.leb_gt; lia).
        rewrite andb_false_r. lia.
  - change (alter (fun l => addIfNotAlreadyThere l u) (S n) (l :: rest))
      with (l :: alter (fun l => addIfNotAlreadyThere l u) n rest).
    cbn [findController]. cbv zeta.
    destruct (existsb (controls (processor u) (attribute u)) l).
    + replace (0 <=? i) with true by (symmetry; apply Z.leb_le; lia).
      replace (i <=? i + Z.of_nat (S n)) with true
        by (symmetry; apply Z.leb_le; lia).
      reflexivity.
    + simpl in Hn. rewrite IH by lia.
      replace (i + 1 + Z.of_nat n) with (i + Z.of_nat (S n)) by lia.
      reflexivity.
Qed.

(** Counting entries. *)
Lemma count_from table (c : Z) :
  fold_left (fun numActive l => numActive + Z.of_nat (length l)) table c
  = c + Z.of_nat (length (concat table)).
Proof.
  revert c. induction table as [| l rest IH]; intros c; simpl; [lia |].
  rewrite IH, length_app. lia.
Qed.

Lemma findInArray_spec l index c :
  findInArray l index c
  = if (c <=? index) && (index <? c + Z.of_nat (length l))
    then match l !! Z.to_nat (index - c) with
         | Some a => inl a
         | None => inr (c + Z.of_nat (length l))
         end
    else inr (c + Z.of_nat (length l)).
Proof.
  revert c. induction l as [| a rest IH]; intros c.
  - cbn [findInArray length]. change (Z.of_nat 0) with 0.
    rewrite Z.add_0_r.
    destruct ((c <=? index) && (index <? c)); reflexivity.
  - cbn [findInArray]. destruct (index =? c) eqn:He.
    + apply Z.eqb_eq in He. subst c.
      replace (index <=? index) with true by (symmetry; apply Z.leb_le; lia).
      replace (index <? index + Z.of_nat (length (a :: rest))) with true
        by (symmetry; apply Z.ltb_lt; simpl; lia).
      rewrite Z.sub_diag. reflexivity.
    + apply Z.eqb_neq in He. rewrite IH.
      replace (c + 1 + Z.of_nat (length rest))
        with (c + Z.of_nat (length (a :: rest))) by (simpl; lia).
      destruct (c <=? index) eqn:H1.
      * apply Z.leb_le in H1.
        replace (c + 1 <=? index) with true by (symmetry; apply Z.leb_le; lia).
        simpl andb.
        destruct (index <? _); [| reflexivity].
        replace (Z.to_nat (index - c)) with (S (Z.to_nat (index - (c + 1))))
          by lia.
        reflexivity.
      * apply Z.leb_gt in H1.
        replace (c + 1 <=? index) with false
          by (symmetry; apply Z.leb_gt; lia).
        reflexivity.
Qed.

Lemma findInTable_spec table index c :
  findInTable table index c
  = if c <=? index then concat table !! Z.to_nat (index - c) else None.
Proof.
  revert c. induction table as [| l rest IH]; intros c.
  - simpl. destruct (c <=? index); reflexivity.
  - cbn [findInTable concat]. rewrite findInArray_spec.
    destruct (c <=? index) eqn:H1; simpl andb.
    + apply Z.leb_le in H1.
      destruct (index <? c + Z.of_nat (length l)) eqn:H2.
      * apply Z.ltb_lt in H2.
        rewrite lookup_app_l by lia.
        destruct (l !! Z.to_nat (index - c)) eqn:Hl; [reflexivity |].
        apply lookup_ge_None in Hl. lia.
      * apply Z.ltb_ge in H2. cbv beta iota. rewrite IH.
        replace (c + Z.of_nat (length l) <=? index) with true
          by (symmetry; apply Z.leb_le; lia).
        rewrite lookup_app_r by lia. f_equal. lia.
    + apply Z.leb_gt in H1. cbv beta iota. rewrite IH.
      replace (c + Z.of_nat (length l) <=? index) with false
        by (symmetry; apply Z.leb_gt; lia).
      reflexivity.
Qed.

Lemma changeInArray_spec (f : AutomationData Range -> AutomationData Range)
    l index c :
  changeInArray f l index c
  = if (c <=? index) && (index <? c + Z.of_nat (length l))
    then (alter f (Z.to_nat (index - c)) l, None)
    else (l, Some (c + Z.of_nat (length l))).
Proof.
  revert c. induction l as [| a rest IH]; intros c.
  - cbn [changeInArray length]. change (Z.of_nat 0) with 0.
    rewrite Z.add_0_r.
    destruct (c <=? index) eqn:H1, (index <? c) eqn:H2; try reflexivity.
    apply Z.leb_le in H1. apply Z.ltb_lt in H2. lia.
  - cbn [changeInArray]. destruct (index =? c) eqn:He.
    + apply Z.eqb_eq in He. subst c.
      replace (index <=? index) with true by (symmetry; apply Z.leb_le; lia).
      replace (index <? index + Z.of_nat (length (a :: rest))) with true
        by (symmetry; apply Z.ltb_lt; simpl; lia).
      rewrite Z.sub_diag. reflexivity.
    + apply Z.eqb_neq in He. rewrite IH.
      replace (c + 1 + Z.of_nat (length rest))
        with (c + Z.of_nat (length (a :: rest))) by (simpl; lia).
      destruct (c <=? index) eqn:H1.
      * apply Z.leb_le in H1.
        replace (c + 1 <=? index) with true by (symmetry; apply Z.leb_le; lia).
        simpl andb.
        destruct (index <? _); [| reflexivity].
        replace (Z.to_nat (index - c)) with (S (Z.to_nat (index - (c + 1))))
          by lia.
        reflexivity.
      * apply Z.leb_gt in H1.
        replace (c + 1 <=? index) with false
          by (symmetry; apply Z.leb_gt; lia).
        reflexivity.
Qed.

End MidiArrays.

Section MidiTable.

Import MidiControllerAutomationHandler.

Context {Range : Type}.
Implicit Types (a b u : AutomationData Range).
Implicit Types (l : list (AutomationData Range)).
Implicit Types (table : list (list (AutomationData Range))).

Lemma alter_related (R : relation (AutomationData Range))
    (f : AutomationData Range -> AutomationData Range) l k :
  (forall a, R a a) -> (forall a, R a (f a)) ->
  Forall2 R l (alter f k l).
Proof.
  intros Hrefl Hf. revert k.
  induction l as [| a rest IH]; intros k; [constructor |].
  destruct k as [| k].
  - constructor; [apply Hf |]. clear IH.
    induction rest; constructor; auto.
  - constructor; [apply Hrefl | apply IH].
Qed.

Lemma related_refl (R : relation (AutomationData Range)) table :
  (forall a, R a a) -> Forall2 (Forall2 R) table table.
Proof.
  intros Hrefl. induction table as [| l rest IH]; constructor; [| exact IH].
  induction l; constructor; auto.
Qed.

Lemma changeInTable_before
    (f : AutomationData Range -> AutomationData Range) table index c :
  index < c -> changeInTable f table index c = (table, false).
Proof.
  revert c. induction table as [| l rest IH]; intros c Hc; [reflexivity |].
  cbn [changeInTable]. rewrite changeInArray_spec.
  replace (c <=? index) with false by (symmetry; apply Z.leb_gt; lia).
  cbn [andb]. rewrite IH by lia. reflexivity.
Qed.

Lemma changeInTable_spec
    (f : AutomationData Range -> AutomationData Range) table index c :
  c <= index ->
  concat (fst (changeInTable f table index c))
  = alter f (Z.to_nat (index - c)) (concat table)
  /\ snd (changeInTable f table index c)
     = (index <? c + Z.of_nat (length (concat table)))
  /\ (snd (changeInTable f table index c) = false ->
      fst (changeInTable f table index c) = table).
Proof.
  revert c. induction table as [| l rest IH]; intros c Hc.
  - cbn [changeInTable concat length fst snd]. change (Z.of_nat 0) with 0.
    split; [reflexivity |]. split; [| reflexivity].
    symmetry. apply Z.ltb_ge. lia.
  - cbn [changeInTable concat]. rewrite changeInArray_spec.
    replace (c <=? index) with true by (symmetry; apply Z.leb_le; lia).
    cbn [andb]. rewrite length_app.
    destruct (index <? c + Z.of_nat (length l)) eqn:H2.
    + apply Z.ltb_lt in H2. cbn [fst snd concat].
      split; [| split].
      * symmetry. apply alter_app_l. lia.
      * symmetry. apply Z.ltb_lt. lia.
      * discriminate.
    + apply Z.ltb_ge in H2.
      destruct (IH (c + Z.of_nat (length l)) ltac:(lia)) as (H3 & H4 & H5).
      destruct (changeInTable f rest index (c + Z.of_nat (length l)))
        as [rest' found] eqn:Hr.
      cbn [fst snd concat] in *.
      split; [| split].
      * rewrite H3.
        replace (Z.to_nat (index - c))
          with (length l + Z.to_nat (index - (c + Z.of_nat (length l))))%nat
          by lia.
        symmetry. apply alter_app_r.
      * rewrite H4. f_equal. lia.
      * intros Hf. rewrite (H5 Hf). reflexivity.
Qed.

Lemma changeInTable_related (R : relation (AutomationData Range))
    (f : AutomationData Range -> AutomationData Range) table index c :
  (forall a, R a a) -> (forall a, R a (f a)) ->
  Forall2 (Forall2 R) table (fst (changeInTable f table index c)).
Proof.
  intros Hrefl Hf. revert c.
  induction table as [| l rest IH]; intros c; [constructor |].
  cbn [changeInTable]. rewrite changeInArray_spec.
  destruct ((c <=? index) && (index <? c + Z.of_nat (length l))).
  - cbn [fst]. constructor.
    + apply alter_related; assumption.
    + apply related_refl. exact Hrefl.
  - specialize (IH (c + Z.of_nat (length l))).
    destruct (changeInTable f rest index (c + Z.of_nat (length l)))
      as [rest' found].
    cbn [fst] in *. constructor; [| exact IH].
    clear IH. induction l; constructor; auto.
Qed.

(** Two tables whose entries agree on a test agree on the searches that
    use it. *)
Lemma existsb_related (R : relation (AutomationData Range))
    (test : AutomationData Range -> bool) l l' :
  (forall a b, R a b -> test a = test b) ->
  Forall2 R l l' -> existsb test l = existsb test l'.
Proof.
  intros Ht H. induction H as [| a b l l' Hab _ IH]; [reflexivity |].
  simpl. rewrite (Ht _ _ Hab), IH. reflexivity.
Qed.

Lemma findController_related (R : relation (AutomationData Range))
    table table' i p x :
  (forall a b, R a b -> controls p x a = controls p x b) ->
  Forall2 (Forall2 R) table table' ->
  findController table i p x = findController table' i p x.
Proof.
  intros Ht H. revert i.
  induction H as [| l l' rest rest' Hl _ IH]; intros i; [reflexivity |].
  cbn [findController].
  rewrite (existsb_related R _ l l' Ht Hl), IH. reflexivity.
Qed.

Lemma anyUsed_related (R : relation (AutomationData Range)) table table' :
  (forall a b, R a b -> used a = used b) ->
  Forall2 (Forall2 R) table table' ->
  existsb (existsb used) table = existsb (existsb used) table'.
Proof.
  intros Ht H.
  induction H as [| l l' rest rest' Hl _ IH]; [reflexivity |].
  simpl. rewrite (existsb_related R _ l l' Ht Hl), IH. reflexivity.
Qed.

(** Where the entries of the flat list are filed. *)
Lemma concat_lookup_filed table i a :
  concat table !! i = Some a ->
  exists k l, table !! k = Some l /\ In a l.
Proof.
  revert i. induction table as [| l rest IH]; intros i H; [discriminate |].
  cbn [concat] in H.
  destruct (decide (i < length l)%nat) as [Hi | Hi].
  - rewrite lookup_app_l in H by exact Hi.
    exists 0%nat, l. split; [reflexivity |].
    apply list_elem_of_In. eapply list_elem_of_lookup_2. exact H.
  - rewrite lookup_app_r in H by lia.
    destruct (IH _ H) as (k & l' & Hk & Hin).
    exists (S k), l'. split; assumption.
Qed.

Lemma concat_lookup_order table i j a b :
  (i <= j)%nat ->
  concat table !! i = Some a -> concat table !! j = Some b ->
  exists ka kb la lb,
    (ka <= kb)%nat /\ table !! ka = Some la /\ In a la
    /\ table !! kb = Some lb /\ In b lb.
Proof.
  revert i j. induction table as [| l rest IH]; intros i j Hij Ha Hb;
    [discriminate |].
  cbn [concat] in Ha, Hb.
  destruct (decide (i < length l)%nat) as [Hi | Hi].
  - rewrite lookup_app_l in Ha by exact Hi.
    assert (Hina : In a l)
      by (apply list_elem_of_In; eapply list_elem_of_lookup_2; exact Ha).
    destruct (decide (j < length l)%nat) as [Hj | Hj].
    + rewrite lookup_app_l in Hb by exact Hj.
      exists 0%nat, 0%nat, l, l. repeat split; auto.
      apply list_elem_of_In. eapply list_elem_of_lookup_2. exact Hb.
    + rewrite lookup_app_r in Hb by lia.
      destruct (concat_lookup_filed _ _ _ Hb) as (k & l' & Hk & Hin).
      exists 0%nat, (S k), l, l'. repeat split; auto. lia.
  - rewrite lookup_app_r in Ha by lia. rewrite lookup_app_r in Hb by lia.
    destruct (IH (i - length l)%nat (j - length l)%nat ltac:(lia) Ha Hb)
      as (ka & kb & la & lb & Hk & H1 & H2 & H3 & H4).
    exists (S ka), (S kb), la, lb. repeat split; auto. lia.
Qed.

Lemma findController_filed table k l a i :
  table !! k = Some l -> In a l ->
  i <= findController table i (processor a) (attribute a)
    <= i + Z.of_nat k.
Proof.
  revert k i. induction table as [| l' rest IH]; intros k i Hk Hin;
    [discriminate |].
  cbn [findController].
  destruct (existsb (controls (processor a) (attribute a)) l') eqn:He;
    [lia |].
  destruct k as [| k].
  - injection Hk as ->.
    assert (Ht : existsb (controls (processor a) (attribute a)) l = true).
    { apply existsb_exists. exists a. split; [exact Hin |].
      apply controls_spec. auto. }
    congruence.
  - specialize (IH k (i + 1) Hk Hin). lia.
Qed.

End MidiTable.

Section MidiInvariants.

Import MidiControllerAutomationHandler.

Context {Range : Type} (defaultRange : Range) (initialCcNumber : Z).
Implicit Types (a b u : AutomationData Range).
Implicit Types (l : list (AutomationData Range)).
Implicit Types (table : list (list (AutomationData Range))).
Implicit Types (h : t Range).

(** Entries that differ in the ranges and the inversion only. *)
#[local] Abbreviation alike :=
  (fun a b : AutomationData Range =>
     processor a = processor b /\ attribute a = attribute b
     /\ ccNumber a = ccNumber b /\ used a = used b).

Lemma alike_refl a : alike a a.
Proof. cbv beta. auto. Qed.

Lemma alike_set_parameterRange (x : Range) a :
  alike a (set_parameterRange x a).
Proof. cbv beta. simpl. auto. Qed.

Lemma alike_set_inverted (x : bool) a : alike a (set_inverted x a).
Proof. cbv beta. simpl. auto. Qed.

Lemma alike_controls p x a b : alike a b -> controls p x a = controls p x b.
Proof. intros (H1 & H2 & _). unfold controls. rewrite H1, H2. reflexivity. Qed.

Lemma alike_used a b : alike a b -> used a = used b.
Proof. intros (_ & _ & _ & H). exact H. Qed.

Lemma distinct_alike l l' :
  Forall2 alike l l' -> distinct l -> distinct l'.
Proof.
  intros H Hd i j a' b' Ha Hb He.
  destruct (Forall2_lookup_r _ _ _ _ _ H Ha) as (a & Hla & Haa).
  destruct (Forall2_lookup_r _ _ _ _ _ H Hb) as (b & Hlb & Hbb).
  apply (Hd i j a b Hla Hlb).
  destruct Haa as (H1 & H2 & _), Hbb as (H3 & H4 & _).
  unfold equals in *. rewrite H1, H2, H3, H4. exact He.
Qed.

Lemma wellFormed_alike h h' :
  Forall2 (Forall2 alike) (automationData h) (automationData h') ->
  (anyUsed h = true -> anyUsed h' = true) ->
  wellFormed h -> wellFormed h'.
Proof.
  intros H Hany [W1 W2 W3 W4]. split.
  - rewrite <- (Forall2_length _ _ _ H). exact W1.
  - clear W1 W3 W4.
    induction H as [| l l' rest rest' Hl _ IH]; [constructor |].
    inversion W2; subst. constructor; [| apply IH; assumption].
    eapply distinct_alike; eassumption.
  - intros i l' a' Hi Hin.
    destruct (Forall2_lookup_r _ _ _ _ _ H Hi) as (l & Hl & Hll).
    apply list_elem_of_In, list_elem_of_lookup in Hin.
    destruct Hin as [k Hk].
    destruct (Forall2_lookup_r _ _ _ _ _ Hll Hk) as (a & Ha & (_ & _ & Hc & _)).
    rewrite <- Hc. apply (W3 i l a Hl).
    apply list_elem_of_In. eapply list_elem_of_lookup_2. exact Ha.
  - intros He. apply Hany, W4.
    rewrite (anyUsed_related alike _ _ alike_used H). exact He.
Qed.

Lemma distinct_nil : distinct (@nil (AutomationData Range)).
Proof. intros i j a b H. discriminate. Qed.

Lemma distinct_addIfNotAlreadyThere l u :
  distinct l -> distinct (addIfNotAlreadyThere l u).
Proof.
  intros Hd. unfold addIfNotAlreadyThere.
  destruct (contains l u) eqn:Hc; [exact Hd |].
  assert (Hnone : forall i a, l !! i = Some a -> equals u a = false).
  { intros i a Ha. destruct (equals u a) eqn:He; [| reflexivity].
    assert (contains l u = true); [| congruence].
    apply existsb_exists. exists a. split; [| exact He].
    apply list_elem_of_In. eapply list_elem_of_lookup_2. exact Ha. }
  intros i j a b Ha Hb He.
  destruct (decide (i < length l)%nat) as [Hi | Hi];
    destruct (decide (j < length l)%nat) as [Hj | Hj].
  - rewrite lookup_app_l in Ha by exact Hi.
    rewrite lookup_app_l in Hb by exact Hj.
    exact (Hd i j a b Ha Hb He).
  - rewrite lookup_app_l in Ha by exact Hi.
    rewrite lookup_app_r in Hb by lia.
    destruct (j - length l)%nat; [| discriminate].
    injection Hb as <-. rewrite equals_sym, (Hnone i a Ha) in He.
    discriminate.
  - rewrite lookup_app_r in Ha by lia.
    rewrite lookup_app_l in Hb by exact Hj.
    destruct (i - length l)%nat; [| discriminate].
    injection Ha as <-. rewrite (Hnone j b Hb) in He. discriminate.
  - rewrite lookup_app_r in Ha by lia. rewrite lookup_app_r in Hb by lia.
    destruct (i - length l)%nat eqn:E1; [| discriminate].
    destruct (j - length l)%nat eqn:E2; [| discriminate].
    lia.
Qed.

Lemma wellFormed_clear h :
  length (automationData h) = 128%nat ->
  wellFormed (clear defaultRange initialCcNumber h).
Proof.
  intros Hl.
  assert (Hempty : forall i l,
             ((fun _ => []) <$> automationData h) !! i = Some l -> l = []).
  { intros i l H. rewrite list_lookup_fmap in H.
    destruct (automationData h !! i); [| discriminate].
    injection H as <-. reflexivity. }
  split; cbn.
  - rewrite length_fmap. exact Hl.
  - apply Forall_lookup. intros i l H.
    rewrite (Hempty i l H). exact distinct_nil.
  - intros i l a H Hin. rewrite (Hempty i l H) in Hin. destruct Hin.
  - intros He. apply existsb_exists in He. destruct He as (l & Hin & Hex).
    apply list_elem_of_In, list_elem_of_lookup in Hin.
    destruct Hin as [i Hi]. rewrite (Hempty i l Hi) in Hex. discriminate.
Qed.

Lemma wellFormed_new :
  wellFormed (new_MidiControllerAutomationHandler defaultRange
                initialCcNumber).
Proof. apply wellFormed_clear. reflexivity. Qed.

Lemma wellFormed_setUnlearndedMidiControlNumber h cc notify :
  0 <= cc < 128 -> wellFormed h ->
  wellFormed (setUnlearndedMidiControlNumber defaultRange initialCcNumber
                h cc notify).
Proof.
  intros Hcc [W1 W2 W3 W4].
  assert (H : wellFormed
                (set_anyUsed true
                   (set_unlearnedData
                      (new_AutomationData defaultRange initialCcNumber)
                      (set_automationData
                         (alter
                            (fun l =>
                               addIfNotAlreadyThere l
                                 (set_ccNumber cc (unlearnedData h)))
                            (Z.to_nat cc) (automationData h)) h)))).
  { split; cbn.
    - rewrite length_alter. exact W1.
    - apply Forall_alter; [exact W2 |].
      intros l _ Hd. apply distinct_addIfNotAlreadyThere. exact Hd.
    - intros i l a Hi Hin.
      destruct (decide (i = Z.to_nat cc)) as [-> | Hne].
      + rewrite list_lookup_alter_eq in Hi.
        destruct (automationData h !! Z.to_nat cc) as [l0 |] eqn:Hl0;
          [| discriminate].
        cbn in Hi. injection Hi as <-. unfold addIfNotAlreadyThere in Hin.
        destruct (contains l0 _).
        * exact (W3 _ _ _ Hl0 Hin).
        * apply in_app_or in Hin. destruct Hin as [Hin | [<- | []]].
          -- exact (W3 _ _ _ Hl0 Hin).
          -- simpl. lia.
      + rewrite list_lookup_alter_ne in Hi by auto.
        exact (W3 _ _ _ Hi Hin).
    - intros _. reflexivity. }
  unfold setUnlearndedMidiControlNumber.
  replace ((0 <=? cc) && (cc <? 128)) with true
    by (symmetry; apply andb_true_iff; split;
        [apply Z.leb_le | apply Z.ltb_lt]; lia).
  destruct (notifies notify); [| exact H].
  destruct H as [V1 V2 V3 V4]. split; assumption.
Qed.

Lemma wellFormed_call h (c : Call Range) :
  inRange c -> wellFormed h ->
  wellFormed (call defaultRange initialCcNumber h c).
Proof.
  intros Hc W. destruct c; cbn [call].
  - destruct W as [W1 W2 W3 W4]. split; assumption.
  - apply wellFormed_setUnlearndedMidiControlNumber; assumption.
  - destruct W as [W1 W2 W3 W4]. split; assumption.
  - destruct W as [W1 W2 W3 W4]. split; try assumption.
    intros H. exact H.
  - apply wellFormed_clear. apply W.
  - refine (wellFormed_alike h _ _ _ W).
    + unfold setNewRangeForParameter.
      pose proof (changeInTable_related alike (set_parameterRange range)
                    (automationData h) index 0 alike_refl
                    (alike_set_parameterRange range)) as H.
      destruct (changeInTable _ _ _ _). exact H.
    + unfold setNewRangeForParameter.
      destruct (changeInTable _ _ _ _). auto.
  - refine (wellFormed_alike h _ _ _ W).
    + unfold setParameterInverted.
      pose proof (changeInTable_related alike (set_inverted value)
                    (automationData h) index 0 alike_refl
                    (alike_set_inverted value)) as H.
      destruct (changeInTable _ _ _ _). exact H.
    + unfold setParameterInverted.
      destruct (changeInTable _ _ _ _). auto.
Qed.

End MidiInvariants.

Section MidiTheorems.

Import MidiControllerAutomationHandler.

Context {Range : Type} (defaultRange : Range) (initialCcNumber : Z).
Implicit Types (a b u : AutomationData Range).
Implicit Types (l : list (AutomationData Range)).
Implicit Types (table : list (list (AutomationData Range))).
Implicit Types (h : t Range).

Lemma automationData_setUnlearndedMidiControlNumber h cc notify :
  0 <= cc < 128 ->
  automationData (setUnlearndedMidiControlNumber defaultRange
                    initialCcNumber h cc notify)
  = alter (fun l => addIfNotAlreadyThere l
                      (set_ccNumber cc (unlearnedData h)))
      (Z.to_nat cc) (automationData h).
Proof.
  intros Hcc. unfold setUnlearndedMidiControlNumber.
  replace ((0 <=? cc) && (cc <? 128)) with true
    by (symmetry; apply andb_true_iff; split;
        [apply Z.leb_le | apply Z.ltb_lt]; lia).
  destruct (notifies notify); reflexivity.
Qed.

Lemma learning_ends h cc notify :
  unlearnedData (setUnlearndedMidiControlNumber defaultRange
                   initialCcNumber h cc notify)
  = new_AutomationData defaultRange initialCcNumber
  /\ anyUsed (setUnlearndedMidiControlNumber defaultRange
                initialCcNumber h cc notify) = true.
Proof.
  unfold setUnlearndedMidiControlNumber.
  destruct (notifies notify); split; reflexivity.
Qed.

Lemma length_concat_alter_snoc table n u :
  (n < length table)%nat ->
  length (concat (alter (fun l => l ++ [u]) n table))
  = S (length (concat table)).
Proof.
  revert n. induction table as [| l rest IH]; intros n Hn;
    [simpl in Hn; lia |].
  destruct n as [| n].
  - change (alter (fun l => l ++ [u]) 0%nat (l :: rest))
      with ((l ++ [u]) :: rest).
    cbn [concat]. rewrite !length_app. simpl. lia.
  - change (alter (fun l => l ++ [u]) (S n) (l :: rest))
      with (l :: alter (fun l => l ++ [u]) n rest).
    cbn [concat]. rewrite !length_app, IH by (simpl in Hn; lia). lia.
Qed.

(** X21. Learning round trip. After [addMidiControlledParameter] for a
    parameter and [setUnlearndedMidiControlNumber] with a controller
    number between 0 and 127, [getMidiControllerNumber] finds the
    parameter: under the controller just learned, or under a lower one
    the parameter was connected to before, for a connection made earlier
    is not removed. The controller of every other parameter is as before,
    learning is over, [anyUsed] is set and the table is well formed. *)
Theorem X21_learned_controller_is_found :
  forall (h : t Range) (interfaceProcessor attributeIndex : Z)
         (range : Range) (macro cc : Z) (notify : NotificationType),
    wellFormed h -> 0 <= cc < 128 ->
    let learning :=
      addMidiControlledParameter h interfaceProcessor attributeIndex range
        macro in
    let h' :=
      setUnlearndedMidiControlNumber defaultRange initialCcNumber learning
        cc notify in
    let old := getMidiControllerNumber h interfaceProcessor attributeIndex in
    isLearningActive learning = true
    /\ getMidiControllerNumber h' interfaceProcessor attributeIndex
       = (if (0 <=? old) && (old <=? cc) then old else cc)
    /\ (forall p x,
          (p, x) <> (interfaceProcessor, attributeIndex) ->
          getMidiControllerNumber h' p x = getMidiControllerNumber h p x)
    /\ isLearningActive h' = false
    /\ anyUsed h' = true
    /\ wellFormed h'.
Proof.
  intros h p x range macro cc notify W Hcc learning h' old.
  assert (Htable :
            automationData h'
            = alter (fun l => addIfNotAlreadyThere l
                                (set_ccNumber cc (unlearnedData learning)))
                (Z.to_nat cc) (automationData h))
    by exact (automationData_setUnlearndedMidiControlNumber learning cc
                notify Hcc).
  destruct (learning_ends learning cc notify) as [Hu Hany].
  split; [reflexivity |]. split; [| split; [| split; [| split]]].
  - unfold getMidiControllerNumber. rewrite Htable.
    pose proof (findController_alter_same (automationData h) 0 (Z.to_nat cc)
                  (set_ccNumber cc (unlearnedData learning))
                  ltac:(lia)) as H.
    change (processor (set_ccNumber cc (unlearnedData learning)))
      with p in H.
    change (attribute (set_ccNumber cc (unlearnedData learning)))
      with x in H.
    rewrite H by (rewrite (wf_controllers _ _ W); lia).
    rewrite Z.add_0_l, Z2Nat.id by lia. reflexivity.
  - intros p' x' Hne. unfold getMidiControllerNumber. rewrite Htable.
    apply findController_alter_other.
    unfold controls. cbn.
    destruct (Z.eqb_spec p p'), (Z.eqb_spec x x'); try reflexivity.
    subst. contradiction Hne. reflexivity.
  - unfold isLearningActive, h'. rewrite Hu. reflexivity.
  - exact Hany.
  - apply wellFormed_setUnlearndedMidiControlNumber; [exact Hcc |].
    destruct W as [W1 W2 W3 W4]. split; assumption.
Qed.

(** X22. What learning stores. When the controller has no connection of
    the parameter yet, the new connection is appended to its array, in
    use, with the controller number and with the range given as both its
    parameter range and its full range, and there is one connection more.
    When it has one, the table stays exactly as it is: the range and the
    macro index of the new request are dropped. *)
Theorem X22_learning_again_keeps_the_connection :
  forall (h : t Range) (interfaceProcessor attributeIndex : Z)
         (range : Range) (macro cc : Z) (notify : NotificationType),
    wellFormed h -> 0 <= cc < 128 ->
    let h' :=
      setUnlearndedMidiControlNumber defaultRange initialCcNumber
        (addMidiControlledParameter h interfaceProcessor attributeIndex
           range macro) cc notify in
    exists l,
      automationData h !! Z.to_nat cc = Some l
      /\ (existsb (controls interfaceProcessor attributeIndex) l = true ->
          automationData h' = automationData h)
      /\ (existsb (controls interfaceProcessor attributeIndex) l = false ->
          automationData h'
          = <[Z.to_nat cc :=
                l ++ [mkData interfaceProcessor attributeIndex range range
                        macro cc true (inverted (unlearnedData h))]]>
              (automationData h)
          /\ getNumActiveConnections h' = getNumActiveConnections h + 1).
Proof.
  intros h p x range macro cc notify W Hcc h'.
  assert (Htable :
            automationData h'
            = alter (fun l =>
                       addIfNotAlreadyThere l
                         (mkData p x range range macro cc true
                            (inverted (unlearnedData h))))
                (Z.to_nat cc) (automationData h))
    by exact (automationData_setUnlearndedMidiControlNumber
                (addMidiControlledParameter h p x range macro) cc notify
                Hcc).
  destruct (automationData h !! Z.to_nat cc) as [l |] eqn:Hl.
  2:{ apply lookup_ge_None in Hl. rewrite (wf_controllers _ _ W) in Hl. lia. }
  exists l. split; [reflexivity |]. split.
  - intros He. rewrite Htable. apply list_eq. intros i.
    destruct (decide (i = Z.to_nat cc)) as [-> | Hne].
    + rewrite list_lookup_alter_eq, Hl. cbn.
      unfold addIfNotAlreadyThere. rewrite contains_controls. cbn.
      rewrite He. reflexivity.
    + rewrite list_lookup_alter_ne by auto. reflexivity.
  - intros He.
    assert (Hadd : forall l0,
               automationData h !! Z.to_nat cc = Some l0 ->
               addIfNotAlreadyThere l0
                 (mkData p x range range macro cc true
                    (inverted (unlearnedData h)))
               = l0 ++ [mkData p x range range macro cc true
                          (inverted (unlearnedData h))]).
    { intros l0 H0. rewrite Hl in H0. injection H0 as <-.
      unfold addIfNotAlreadyThere. rewrite contains_controls. cbn.
      rewrite He. reflexivity. }
    assert (Hsnoc :
              automationData h'
              = alter (fun l => l ++ [mkData p x range range macro cc true
                                        (inverted (unlearnedData h))])
                  (Z.to_nat cc) (automationData h)).
    { rewrite Htable. apply list_eq. intros i.
      destruct (decide (i = Z.to_nat cc)) as [-> | Hne].
      - rewrite !list_lookup_alter_eq, Hl. cbn. rewrite (Hadd l Hl).
        reflexivity.
      - rewrite !list_lookup_alter_ne by auto. reflexivity. }
    split.
    + rewrite Hsnoc. apply list_eq. intros i.
      destruct (decide (i = Z.to_nat cc)) as [-> | Hne].
      * rewrite list_lookup_alter_eq, Hl.
        rewrite list_lookup_insert_eq
          by (rewrite (wf_controllers _ _ W); lia).
        reflexivity.
      * rewrite list_lookup_alter_ne, list_lookup_insert_ne by auto.
        reflexivity.
    + unfold getNumActiveConnections. rewrite !count_from, Hsnoc.
      rewrite length_concat_alter_snoc
        by (rewrite (wf_controllers _ _ W); lia).
      lia.
Qed.

(** X23. The flat index. [getNumActiveConnections] is the number of
    connections of all controllers, and [getDataFromIndex] returns the
    connection at that place of the list of all connections, which runs
    through the controllers in ascending order: the controller numbers of
    the entries returned never decrease with the index, and
    [getMidiControllerNumber] of an entry returned finds a controller not
    above the one the entry is filed under. For a negative index and for
    an index from the number of connections on, [getDataFromIndex]
    returns an empty [AutomationData]. *)
Theorem X23_flat_index_runs_through_the_controllers :
  forall (h : t Range) (index : Z),
    wellFormed h ->
    let n := getNumActiveConnections h in
    let a := getDataFromIndex defaultRange initialCcNumber h index in
    n = Z.of_nat (length (connections h))
    /\ (0 <= index < n ->
        connections h !! Z.to_nat index = Some a
        /\ 0 <= getMidiControllerNumber h (processor a) (attribute a)
           <= ccNumber a
        /\ ccNumber a < 128
        /\ forall j,
             index <= j < n ->
             ccNumber a
             <= ccNumber (getDataFromIndex defaultRange initialCcNumber h j))
    /\ (~ 0 <= index < n ->
        a = new_AutomationData defaultRange initialCcNumber).
Proof.
  intros h index W n a.
  assert (Hn : n = Z.of_nat (length (connections h))).
  { unfold n, getNumActiveConnections, connections. rewrite count_from.
    lia. }
  assert (Hget : forall i,
             getDataFromIndex defaultRange initialCcNumber h i
             = if 0 <=? i
               then match connections h !! Z.to_nat i with
                    | Some e => e
                    | None => new_AutomationData defaultRange initialCcNumber
                    end
               else new_AutomationData defaultRange initialCcNumber).
  { intros i. unfold getDataFromIndex. rewrite findInTable_spec.
    rewrite Z.sub_0_r. destruct (0 <=? i); reflexivity. }
  assert (Hin : forall i,
             0 <= i < n ->
             connections h !! Z.to_nat i
             = Some (getDataFromIndex defaultRange initialCcNumber h i)).
  { intros i Hi. rewrite Hget.
    replace (0 <=? i) with true by (symmetry; apply Z.leb_le; lia).
    destruct (connections h !! Z.to_nat i) eqn:He; [reflexivity |].
    apply lookup_ge_None in He. lia. }
  split; [exact Hn |]. split.
  - intros Hi. pose proof (Hin index Hi) as Ha. fold a in Ha.
    split; [exact Ha |].
    destruct (concat_lookup_filed _ _ _ Ha) as (k & l & Hk & Hl).
    pose proof (wf_filed _ _ W k l a Hk Hl) as Hcc.
    pose proof (findController_filed _ _ _ _ 0 Hk Hl) as Hf.
    assert (Hk128 : (k < 128)%nat).
    { rewrite <- (wf_controllers _ _ W). eapply lookup_lt_Some. exact Hk. }
    split; [unfold getMidiControllerNumber; lia |]. split; [lia |].
    intros j Hj. pose proof (Hin j ltac:(lia)) as Hb.
    destruct (concat_lookup_order (automationData h) (Z.to_nat index)
                (Z.to_nat j) _ _ ltac:(lia) Ha Hb)
      as (ka & kb & la & lb & Hle & H1 & H2 & H3 & H4).
    rewrite (wf_filed _ _ W ka la _ H1 H2), (wf_filed _ _ W kb lb _ H3 H4).
    lia.
  - intros Hout. unfold a. rewrite Hget.
    destruct (0 <=? index) eqn:H0; [| reflexivity].
    apply Z.leb_le in H0.
    destruct (connections h !! Z.to_nat index) eqn:He; [| reflexivity].
    apply lookup_lt_Some in He. lia.
Qed.

(** X12. [setNewRangeForParameter] and [setParameterInverted] address a
    connection by its flat index. They return [true] exactly for an index
    from 0 up to the number of connections, and then change the one field
    of the connection at that place and nothing else: every array keeps
    its length, the learning state, [anyUsed] and the controller of every
    parameter stay. When they return [false] the handler is unchanged. *)
Theorem X12_range_and_inversion_by_flat_index :
  forall (h : t Range) (index : Z) (range : Range) (value : bool),
    let n := getNumActiveConnections h in
    let r := setNewRangeForParameter h index range in
    let v := setParameterInverted h index value in
    (snd r = true <-> 0 <= index < n)
    /\ (snd v = true <-> 0 <= index < n)
    /\ (snd r = false -> fst r = h)
    /\ (snd v = false -> fst v = h)
    /\ (0 <= index ->
        connections (fst r)
        = alter (set_parameterRange range) (Z.to_nat index) (connections h)
        /\ connections (fst v)
           = alter (set_inverted value) (Z.to_nat index) (connections h))
    /\ length <$> automationData (fst r) = length <$> automationData h
    /\ length <$> automationData (fst v) = length <$> automationData h
    /\ unlearnedData (fst r) = unlearnedData h
    /\ unlearnedData (fst v) = unlearnedData h
    /\ anyUsed (fst r) = anyUsed h /\ anyUsed (fst v) = anyUsed h
    /\ forall p x,
         getMidiControllerNumber (fst r) p x = getMidiControllerNumber h p x
         /\ getMidiControllerNumber (fst v) p x
            = getMidiControllerNumber h p x.
Proof.
  intros h index range value n r v.
  assert (Hn : n = Z.of_nat (length (connections h))).
  { unfold n, getNumActiveConnections, connections. rewrite count_from.
    lia. }
  assert (Hgen : forall f : AutomationData Range -> AutomationData Range,
             (forall e, processor (f e) = processor e
                        /\ attribute (f e) = attribute e) ->
             let table' := changeInTable f (automationData h) index 0 in
             (snd table' = true <-> 0 <= index < n)
             /\ (snd table' = false -> fst table' = automationData h)
             /\ (0 <= index ->
                 concat (fst table')
                 = alter f (Z.to_nat index) (connections h))
             /\ length <$> fst table' = length <$> automationData h
             /\ forall p x,
                  findController (fst table') 0 p x
                  = findController (automationData h) 0 p x).
  { intros f Hf table'.
    pose (same := fun e e' : AutomationData Range =>
                    processor e = processor e'
                    /\ attribute e = attribute e').
    assert (Hrel : Forall2 (Forall2 same) (automationData h) (fst table')).
    { apply changeInTable_related.
      - intros e. split; reflexivity.
      - intros e. destruct (Hf e) as [H1 H2]. split; congruence. }
    assert (Hlen : length <$> fst table' = length <$> automationData h).
    { clear -Hrel. induction Hrel as [| l l' ? ? Hl _ IH]; [reflexivity |].
      cbn. rewrite IH, (Forall2_length _ _ _ Hl). reflexivity. }
    assert (Hfind : forall p x,
               findController (fst table') 0 p x
               = findController (automationData h) 0 p x).
    { intros p x. symmetry. apply (findController_related same); [| exact Hrel].
      intros e e' [H1 H2]. unfold controls. rewrite H1, H2. reflexivity. }
    destruct (Z_lt_le_dec index 0) as [Hneg | Hpos].
    - unfold table' in *. rewrite changeInTable_before in * by lia.
      cbn [fst snd].
      split; [split; [discriminate | lia] |].
      split; [reflexivity |]. split; [lia |]. split; assumption.
    - destruct (changeInTable_spec f (automationData h) index 0 Hpos)
        as (H1 & H2 & H3).
      fold table' in H1, H2, H3. rewrite Z.sub_0_r in H1.
      rewrite Z.add_0_l in H2.
      unfold connections in Hn.
      split; [| split; [exact H3 | split; [intros _; exact H1 |
                                          split; assumption]]].
      rewrite H2, Z.ltb_lt. lia. }
  destruct (Hgen (set_parameterRange range) ltac:(intros e; split; reflexivity))
    as (R1 & R2 & R3 & R4 & R5).
  destruct (Hgen (set_inverted value) ltac:(intros e; split; reflexivity))
    as (V1 & V2 & V3 & V4 & V5).
  unfold r, v, setNewRangeForParameter, setParameterInverted, connections,
    getMidiControllerNumber.
  destruct (changeInTable (set_parameterRange range) (automationData h)
              index 0) as [tr fr].
  destruct (changeInTable (set_inverted value) (automationData h)
              index 0) as [tv fv].
  cbn [fst snd automationData set_automationData unlearnedData anyUsed]
    in *.
  split; [exact R1 |]. split; [exact V1 |].
  split; [intros H; rewrite (R2 H); destruct h; reflexivity |].
  split; [intros H; rewrite (V2 H); destruct h; reflexivity |].
  split; [intros H; split; [apply R3 | apply V3]; exact H |].
  split; [exact R4 |]. split; [exact V4 |].
  repeat (split; [reflexivity |]).
  intros p x. split; [apply R5 | apply V5].
Qed.

Lemma wellFormed_calls (cs : list (Call Range)) :
  Forall inRange cs ->
  wellFormed
    (calls defaultRange initialCcNumber
       (new_MidiControllerAutomationHandler defaultRange initialCcNumber)
       cs).
Proof.
  unfold calls.
  generalize (new_MidiControllerAutomationHandler defaultRange
                initialCcNumber), (wellFormed_new defaultRange
                                     initialCcNumber).
  induction cs as [| c cs IH]; intros h W Hcs; [exact W |].
  inversion Hcs; subst. cbn [fold_left].
  apply IH; [| assumption].
  apply wellFormed_call; assumption.
Qed.

(** X11. What every handler satisfies. After the constructor and any
    sequence of the calls [addMidiControlledParameter],
    [setUnlearndedMidiControlNumber] (with a controller number between 0
    and 127), [deactivateMidiLearning], [refreshAnyUsedState], [clear],
    [setNewRangeForParameter] and [setParameterInverted], the table has
    its 128 arrays, no controller has two connections of one parameter,
    every connection has the number of the controller it is filed under,
    and [anyUsed] is set whenever some connection is in use. *)
Theorem X11_table_invariants :
  forall cs : list (Call Range),
    Forall inRange cs ->
    wellFormed
      (calls defaultRange initialCcNumber
         (new_MidiControllerAutomationHandler defaultRange initialCcNumber)
         cs).
Proof. exact wellFormed_calls. Qed.

End MidiTheorems.

(* ===================================================================== *)
(** ** The further properties on the concrete compilation unit *)
(* ===================================================================== *)

Lemma X1_dirty_state_has_dirty_flag_witness :
  objects (registerPool (demoRun (gainOps ++ [Write 0]) initialCodegen))
    !! 0%nat = Some gainWrittenHandle
  /\ state gainWrittenHandle = DirtyGlobalRegister
  /\ dirty gainWrittenHandle = true
  /\ state (setUndirty gainWrittenHandle) = ActiveRegister.
Proof.
  assert (H1 : objects (registerPool
                          (demoRun (gainOps ++ [Write 0]) initialCodegen))
                 !! 0%nat = Some gainWrittenHandle)
    by (vm_compute; reflexivity).
  assert (H2 : state gainWrittenHandle = DirtyGlobalRegister) by reflexivity.
  destruct (X1_dirty_state_has_dirty_flag demoCompiler demoScopes demoData
              demoPointer (gainOps ++ [Write 0]) 0%nat gainWrittenHandle H1)
    as [Hd _].
  destruct (Hd H2) as (Hf & _ & Hs). auto.
Defined.

Lemma X2_unloaded_handle_is_bare_witness :
  objects (registerPool tmpCodegen) !! 0%nat = Some tmpHandle
  /\ state tmpHandle = UnloadedMemoryLocation
  /\ reg tmpHandle = None
  /\ snd (getRegisterWithMemory (registerPool tmpCodegen) 0%nat) = 0%nat.
Proof.
  assert (H1 : objects (registerPool tmpCodegen) !! 0%nat = Some tmpHandle)
    by (vm_compute; reflexivity).
  assert (H2 : state tmpHandle = UnloadedMemoryLocation) by reflexivity.
  destruct (X2_unloaded_handle_is_bare demoCompiler demoScopes demoData
              demoPointer [Resolve 2 tmp] 0%nat tmpHandle H1 H2)
    as (Hr & _ & _ & Hc).
  auto.
Defined.

Lemma X3_createRegister_by_type_witness :
  blockConsistent demoCompiler tmpHandle
  /\ reg tmpHandle = None
  /\ reg (snd (createRegister demoCompiler asmjit.empty tmpHandle))
     = Some {| regKind := Gpd; virtId := 0 |}.
Proof.
  assert (H1 : blockConsistent demoCompiler tmpHandle) by reflexivity.
  split; [exact H1 |]. split; [reflexivity |].
  exact (proj1 (proj2 (proj2 (proj2
           (proj2 (X3_createRegister_by_type demoCompiler asmjit.empty
                     tmpHandle H1) eq_refl))))).
Defined.

Lemma X4_constant_from_pool_witness :
  state sampleRateUnloaded = UnloadedMemoryLocation
  /\ reg sampleRateUnloaded = None
  /\ isGlobalVariableRegister demoScopes sampleRateUnloaded
     && negb (Symbol.isConst (id sampleRateUnloaded)) = false
  /\ blockConsistent demoCompiler sampleRateUnloaded
  /\ getType demoCompiler sampleRateUnloaded = Types.Double
  /\ constPool
       (fst (loadMemoryIntoRegister demoCompiler demoScopes demoData
               demoPointer asmjit.empty false sampleRateUnloaded))
     = [(8%nat, 0)].
Proof.
  assert (H3 : isGlobalVariableRegister demoScopes sampleRateUnloaded
               && negb (Symbol.isConst (id sampleRateUnloaded)) = false)
    by (vm_compute; reflexivity).
  assert (H4 : blockConsistent demoCompiler sampleRateUnloaded)
    by reflexivity.
  repeat (split; [first [reflexivity | assumption] |]).
  exact (proj1 (proj2 (X4_constant_from_pool demoCompiler demoScopes demoData
                         demoPointer asmjit.empty false sampleRateUnloaded
                         eq_refl eq_refl H3 H4) eq_refl)).
Defined.

Lemma X5_integer_folded_from_data_pointer_witness :
  getType demoCompiler tmpHandle = Types.Integer
  /\ blockConsistent demoCompiler tmpHandle
  /\ isGlobalVariableRegister demoScopes tmpHandle
     && negb (Symbol.isConst (id tmpHandle)) = false
  /\ 4096 <> 0
  /\ loadCount
       (fst (loadMemoryIntoRegister demoCompiler demoScopes demoData
               demoPointer asmjit.empty false
               (setDataPointer 4096 false tmpHandle)))
     = loadCount asmjit.empty.
Proof.
  assert (H3 : isGlobalVariableRegister demoScopes tmpHandle
               && negb (Symbol.isConst (id tmpHandle)) = false)
    by (vm_compute; reflexivity).
  assert (H4 : 4096 <> 0) by lia.
  split; [reflexivity |]. split; [reflexivity |]. split; [exact H3 |].
  split; [exact H4 |].
  exact (proj1 (proj2 (proj2
           (X5_integer_folded_from_data_pointer demoCompiler demoScopes
              demoData demoPointer asmjit.empty false tmpHandle 4096 false
              eq_refl eq_refl H3 H4)))).
Defined.

Lemma X6_global_variable_through_pointer_register_witness :
  getType demoCompiler gainUnloaded <> Types.Pointer
  /\ isGlobalVariableRegister demoScopes gainUnloaded = true
  /\ Symbol.isConst (id gainUnloaded) = false
  /\ memSize
       (memory (snd (createMemoryLocation demoCompiler demoScopes demoData
                       asmjit.empty gainUnloaded))) = 4%nat.
Proof.
  assert (H1 : getType demoCompiler gainUnloaded <> Types.Pointer)
    by discriminate.
  assert (H2 : isGlobalVariableRegister demoScopes gainUnloaded = true)
    by (vm_compute; reflexivity).
  destruct (X6_global_variable_through_pointer_register demoCompiler
              demoScopes demoData asmjit.empty gainUnloaded H1 H2 eq_refl)
    as (_ & _ & _ & _ & _ & Hsize & _).
  split; [exact H1 |]. split; [exact H2 |]. split; [reflexivity |].
  exact Hsize.
Defined.

Lemma X7_forced_reload_keeps_register_witness :
  isValid (reg gainHandle) = true
  /\ state gainHandle <> UnloadedMemoryLocation
  /\ getType demoCompiler gainHandle <> Types.Pointer
  /\ getType demoCompiler gainHandle <> Types.Dynamic
  /\ reg (snd (loadMemoryIntoRegister demoCompiler demoScopes demoData
                 demoPointer (cc gainCodegen) true gainHandle))
     = reg gainHandle.
Proof.
  assert (H2 : state gainHandle <> UnloadedMemoryLocation) by discriminate.
  assert (H3 : getType demoCompiler gainHandle <> Types.Pointer)
    by discriminate.
  assert (H4 : getType demoCompiler gainHandle <> Types.Dynamic)
    by discriminate.
  repeat (split; [first [reflexivity | assumption] |]).
  exact (proj1 (X7_forced_reload_keeps_register demoCompiler demoScopes
                  demoData demoPointer (cc gainCodegen) gainHandle
                  eq_refl H2 H3 H4)).
Defined.

Lemma X8_clear_releases_every_handle_once_witness :
  pool_wf (registerPool gainCodegen)
  /\ getReferenceCount (clear (registerPool gainCodegen)) 0%nat
     = Nat.pred (getReferenceCount (registerPool gainCodegen) 0%nat).
Proof.
  assert (H1 : pool_wf (registerPool gainCodegen)).
  { unfold gainCodegen, demoRun. apply pool_wf_run. exact pool_wf_empty. }
  split; [exact H1 |].
  destruct (X8_clear_releases_every_handle_once demoScopes
              (registerPool gainCodegen) H1) as (_ & _ & _ & Hc & _).
  apply Hc. vm_compute. left. reflexivity.
Defined.

Lemma X9_release_changes_nothing_unless_it_retires_witness :
  getReferenceCount (incReferenceCount 0%nat aliasPool) 0%nat <> 2%nat
  /\ removeIfUnreferenced 0%nat aliasPool = aliasPool.
Proof.
  assert (H1 : getReferenceCount (incReferenceCount 0%nat aliasPool) 0%nat
               <> 2%nat) by (vm_compute; lia).
  split; [exact H1 |].
  exact (proj1 (X9_release_changes_nothing_unless_it_retires aliasPool 0%nat)
           (or_introl H1)).
Defined.

Lemma X10_active_register_of_an_operand_witness :
  snd (getActiveRegisterForCustomMem activePool 1%nat) <> 1%nat
  /\ exists o s,
       objects activePool !! 1%nat = Some o
       /\ objects activePool
            !! snd (getActiveRegisterForCustomMem activePool 1%nat) = Some s
       /\ state s = ActiveRegister /\ memory s = memory o.
Proof.
  assert (H1 : snd (getActiveRegisterForCustomMem activePool 1%nat) <> 1%nat)
    by (vm_compute; lia).
  split; [exact H1 |].
  destruct (proj1 (X10_active_register_of_an_operand activePool 1%nat) H1)
    as (o & s & Ho & Hs & _ & _ & Ha & Hm).
  exists o, s. auto.
Defined.

Lemma X13_scratch_register_is_fresh_witness :
  pool_wf emptyPool
  /\ currentRegisterPool
       (fst (getNextFreeRegister emptyPool 2%nat (NativeType Types.Float)))
     = [0%nat].
Proof.
  split; [exact pool_wf_empty |].
  exact (proj1 (proj2 (proj2
           (X13_scratch_register_is_fresh demoScopes emptyPool 2%nat
              (NativeType Types.Float) pool_wf_empty)))).
Defined.

Lemma X14_one_handle_across_scopes_witness :
  pool_wf emptyPool
  /\ getScopeForSymbol demoScopes 1%nat (Symbol.id gain) = Some 1%nat
  /\ getScopeForSymbol demoScopes 2%nat (Symbol.id gain) = Some 1%nat
  /\ snd (getRegisterForVariable demoScopes
            (fst (getRegisterForVariable demoScopes emptyPool 1%nat gain))
            2%nat gain)
     = snd (getRegisterForVariable demoScopes emptyPool 1%nat gain).
Proof.
  assert (H1 : getScopeForSymbol demoScopes 1%nat (Symbol.id gain)
               = Some 1%nat) by (vm_compute; reflexivity).
  assert (H2 : getScopeForSymbol demoScopes 2%nat (Symbol.id gain)
               = Some 1%nat) by (vm_compute; reflexivity).
  split; [exact pool_wf_empty |]. split; [exact H1 |]. split; [exact H2 |].
  exact (X14_one_handle_across_scopes demoScopes emptyPool 1%nat 2%nat 1%nat
           gain pool_wf_empty H1 H2).
Defined.

Lemma X15_custom_memory_is_what_is_loaded_witness :
  blockConsistent demoCompiler gainUnloaded
  /\ isSimd4Float demoCompiler gainUnloaded = false
  /\ registerClass (getType demoCompiler gainUnloaded) false = Some XmmSs
  /\ memory
       (snd (loadMemoryIntoRegister demoCompiler demoScopes demoData
               demoPointer asmjit.empty false
               (setCustomMemoryLocation (qword_ptr_abs 4096) true
                  gainUnloaded)))
     = qword_ptr_abs 4096.
Proof.
  repeat (split; [reflexivity |]).
  exact (proj1 (proj2
           (X15_custom_memory_is_what_is_loaded demoCompiler demoScopes
              demoData demoPointer asmjit.empty false gainUnloaded
              (qword_ptr_abs 4096) true XmmSs eq_refl eq_refl eq_refl))).
Defined.

Lemma demoDelayLine_wellFormed :
  CircularAudioSampleBuffer.wellFormed demoDelayLine.
Proof.
  split; simpl; try lia; try reflexivity.
  repeat constructor.
Qed.

Lemma demoSource_holds :
  CircularAudioSampleBuffer.holds demoSource 2 0 3.
Proof. split; [reflexivity |]. split; [lia |]. repeat constructor. Qed.

Lemma demoDestination_holds :
  CircularAudioSampleBuffer.holds demoDestination 2 0 3.
Proof. split; [reflexivity |]. split; [lia |]. repeat constructor. Qed.

Lemma X17_write_appends_to_pending_witness :
  CircularAudioSampleBuffer.wellFormed demoDelayLine
  /\ CircularAudioSampleBuffer.holds demoSource
       (CircularAudioSampleBuffer.numChannels demoDelayLine) 0 3
  /\ 0 <= 3
  /\ CircularAudioSampleBuffer.numAvailable demoDelayLine + 3
     <= CircularAudioSampleBuffer.size demoDelayLine
  /\ snd (CircularAudioSampleBuffer.writeSamples demoDelayLine demoSource 0 3)
     = true.
Proof.
  assert (H3 : 0 <= 3) by lia.
  assert (H4 : CircularAudioSampleBuffer.numAvailable demoDelayLine + 3
               <= CircularAudioSampleBuffer.size demoDelayLine)
    by (simpl; lia).
  split; [exact demoDelayLine_wellFormed |].
  split; [exact demoSource_holds |]. split; [exact H3 |].
  split; [exact H4 |].
  exact (proj1 (X17_write_appends_to_pending demoDelayLine demoSource 0 3
                  demoDelayLine_wellFormed demoSource_holds H3 H4)).
Defined.

Lemma demoFilledLine_wellFormed :
  CircularAudioSampleBuffer.wellFormed demoFilledLine.
Proof.
  split; simpl; try lia; try reflexivity.
  repeat constructor.
Qed.

Lemma X18_read_takes_oldest_pending_witness :
  CircularAudioSampleBuffer.wellFormed demoFilledLine
  /\ CircularAudioSampleBuffer.holds demoDestination
       (CircularAudioSampleBuffer.numChannels demoFilledLine) 0 3
  /\ 0 <= 3 <= CircularAudioSampleBuffer.numAvailable demoFilledLine
  /\ CircularAudioSampleBuffer.pending demoFilledLine 1 = [20; 21; 22]
  /\ snd (CircularAudioSampleBuffer.readSamples demoFilledLine
            demoDestination 0 3) = true
  /\ snd (fst (CircularAudioSampleBuffer.readSamples demoFilledLine
                 demoDestination 0 3)) !! 1%nat
     = Some [20; 21; 22]
  /\ CircularAudioSampleBuffer.pending
       (fst (fst (CircularAudioSampleBuffer.readSamples demoFilledLine
                    demoDestination 0 3))) 1
     = [].
Proof.
  assert (H3 : 0 <= 3
               <= CircularAudioSampleBuffer.numAvailable demoFilledLine)
    by (simpl; lia).
  destruct (X18_read_takes_oldest_pending demoFilledLine demoDestination
              0 3 demoFilledLine_wellFormed demoDestination_holds H3)
    as (Hok & _ & _ & _ & Hout).
  destruct (Hout 1%nat [0; 0; 0] eq_refl) as [Ho Hp].
  split; [exact demoFilledLine_wellFormed |].
  split; [exact demoDestination_holds |]. split; [exact H3 |].
  split; [reflexivity |]. split; [exact Hok |].
  split; [rewrite Ho; reflexivity | rewrite Hp; reflexivity].
Defined.

Lemma X19_first_in_first_out_witness :
  CircularAudioSampleBuffer.wellFormed demoDelayLine
  /\ CircularAudioSampleBuffer.holds demoSource 2 0 3
  /\ CircularAudioSampleBuffer.holds demoDestination 2 0 3
  /\ snd (fst (CircularAudioSampleBuffer.readSamples
                 (fst (CircularAudioSampleBuffer.writeSamples demoDelayLine
                         demoSource 0 3))
                 demoDestination 0 3)) !! 0%nat
     = Some [10; 11; 12].
Proof.
  split; [exact demoDelayLine_wellFormed |].
  split; [exact demoSource_holds |]. split; [exact demoDestination_holds |].
  assert (H4 : 0 <= 3) by lia.
  assert (H5 : CircularAudioSampleBuffer.numAvailable demoDelayLine + 3
               <= CircularAudioSampleBuffer.size demoDelayLine)
    by (simpl; lia).
  assert (H6 : 0 <= 3
               <= CircularAudioSampleBuffer.numAvailable demoDelayLine + 3)
    by (simpl; lia).
  destruct (X19_first_in_first_out demoDelayLine demoSource demoDestination
              0 0 3 3 demoDelayLine_wellFormed demoSource_holds
              demoDestination_holds H4 H5 H6) as (_ & _ & _ & Hout).
  rewrite (Hout 0%nat [10; 11; 12] [0; 0; 0] eq_refl eq_refl).
  reflexivity.
Defined.

Lemma X24_immediate_is_an_int_witness :
  objects (registerPool (demoRun wideOps initialCodegen)) !! 0%nat
  = Some wideHandle
  /\ isInt (getImmediateIntValue wideHandle)
  /\ getImmediateIntValue wideHandle = 5.
Proof.
  assert (H1 : objects (registerPool (demoRun wideOps initialCodegen))
                 !! 0%nat = Some wideHandle)
    by (vm_compute; reflexivity).
  split; [exact H1 |].
  split; [| reflexivity].
  exact (proj1 (X24_immediate_is_an_int demoCompiler demoScopes demoData
                  demoPointer wideOps 0%nat wideHandle H1)).
Defined.

Section MidiExamples.

Import MidiControllerAutomationHandler.

Lemma demoCalls_inRange : Forall inRange demoCalls.
Proof. repeat constructor; simpl; lia. Qed.

Lemma demoHandler_wellFormed : wellFormed demoHandler.
Proof. apply wellFormed_calls. exact demoCalls_inRange. Qed.

Lemma X21_learned_controller_is_found_witness :
  wellFormed demoHandler /\ 0 <= 10 < 128
  /\ getMidiControllerNumber
       (setUnlearndedMidiControlNumber (0, 1) (-1)
          (addMidiControlledParameter demoHandler 4096 2 (0, 5) (-1))
          10 sendNotification) 4096 2 = 7.
Proof.
  assert (H : 0 <= 10 < 128) by lia.
  split; [exact demoHandler_wellFormed |]. split; [exact H |].
  exact (proj1 (proj2
           (X21_learned_controller_is_found (0, 1) (-1) demoHandler 4096 2
              (0, 5) (-1) 10 sendNotification demoHandler_wellFormed H))).
Defined.

Lemma X22_learning_again_keeps_the_connection_witness :
  wellFormed demoHandler /\ 0 <= 7 < 128
  /\ automationData
       (setUnlearndedMidiControlNumber (0, 1) (-1)
          (addMidiControlledParameter demoHandler 4096 2 (0, 5) (-1))
          7 sendNotification)
     = automationData demoHandler.
Proof.
  assert (H : 0 <= 7 < 128) by lia.
  split; [exact demoHandler_wellFormed |]. split; [exact H |].
  destruct (X22_learning_again_keeps_the_connection (0, 1) (-1) demoHandler
              4096 2 (0, 5) (-1) 7 sendNotification demoHandler_wellFormed H)
    as (l & Hl & Hsame & _).
  apply Hsame. vm_compute in Hl. injection Hl as <-. reflexivity.
Defined.

Lemma X23_flat_index_runs_through_the_controllers_witness :
  wellFormed demoHandler
  /\ 0 <= 0 < getNumActiveConnections demoHandler
  /\ connections demoHandler !! 0%nat
     = Some (getDataFromIndex (0, 1) (-1) demoHandler 0)
  /\ ccNumber (getDataFromIndex (0, 1) (-1) demoHandler 0) = 1.
Proof.
  assert (H : 0 <= 0 < getNumActiveConnections demoHandler)
    by (vm_compute; split; [discriminate | reflexivity]).
  split; [exact demoHandler_wellFormed |]. split; [exact H |].
  split; [| reflexivity].
  exact (proj1 (proj1 (proj2
           (X23_flat_index_runs_through_the_controllers (0, 1) (-1)
              demoHandler 0 demoHandler_wellFormed)) H)).
Defined.

Lemma X11_table_invariants_witness :
  Forall inRange demoCalls /\ wellFormed demoHandler.
Proof.
  split; [exact demoCalls_inRange |].
  exact (X11_table_invariants (0, 1) (-1) demoCalls demoCalls_inRange).
Defined.

End MidiExamples.
